(** * Worker pools, wait groups and rate limiting

    A shallow embedding of [examples/01-basics/15-worker-pools/main.go]:
    the two worker functions ([worker], [rateLimitedWorker]) as transition
    functions over their program points, the three pools of [main] as
    interleaved systems of goroutines over shared channels, a wait group and
    the atomic statistics, and the properties of the pool proved as
    invariants of every interleaving. *)

From Stdlib Require Import ZArith Lia Bool String.
From Stdlib Require Import Floats.SpecFloat.
From stdpp Require Import base numbers list.

Local Open Scope Z_scope.

(** ** Machine integers

    Go's [int] and [int64] are 64-bit two's complement, [uint64] is 64-bit
    unsigned; arithmetic wraps around. *)

Definition int_min : Z := - 2 ^ 63.
Definition int_max : Z := 2 ^ 63 - 1.

Definition wrap_int (z : Z) : Z := (z + 2 ^ 63) mod 2 ^ 64 - 2 ^ 63.
Definition wrap_uint64 (z : Z) : Z := z mod 2 ^ 64.

(** [time.Time.Sub] saturates at the largest and smallest [Duration]. *)
Definition saturate (z : Z) : Z := Z.max int_min (Z.min int_max z).

(** Durations are nanoseconds. *)
Definition Millisecond : Z := 1000000.
Definition Second : Z := 1000000000.

(** ** Outcomes of one atomic step

    A step of a goroutine either completes, cannot proceed yet (a blocking
    receive, send, wait or sleep), or panics, which in Go takes the whole
    program down. *)

Inductive Outcome (A : Type) : Type :=
  | Ok (a : A)
  | Blocked
  | Panic (msg : string).
Arguments Ok {A} a.
Arguments Blocked {A}.
Arguments Panic {A} msg.

Definition bind {A B} (o : Outcome A) (f : A -> Outcome B) : Outcome B :=
  match o with
  | Ok a => f a
  | Blocked => Blocked
  | Panic m => Panic m
  end.

Notation "'let*' x ':=' o 'in' k" := (bind o (fun x => k))
  (at level 10, x name, o at level 100, k at level 200).

Definition is_panic {A} (o : Outcome A) : bool :=
  match o with Panic _ => true | _ => false end.

Definition is_ok {A} (o : Outcome A) : bool :=
  match o with Ok _ => true | _ => false end.

(** ** Data model *)

(** [type Task struct { ID int; Result int }] *)
Record Task := mkTask { ID : Z; Result : Z }.

(** [type WorkerStats struct { tasksProcessed uint64; totalTime int64 }] *)
Record WorkerStats := mkStats { tasksProcessed : Z; totalTime : Z }.

(** A buffered channel of tasks: [make(chan Task, cap)].  (With capacity 0 a
    Go channel is unbuffered; the pools make their channels with capacity
    [numTasks] and send at most [numTasks] tasks on each, so a send only ever
    happens on a channel with room for it.) *)
Record Chan := mkChan { buf : list Task; closed : bool; cap : Z }.

Definition make_chan (n : Z) : Chan := mkChan [] false n.

(** [len(c)] *)
Definition chan_len (c : Chan) : Z := Z.of_nat (length (buf c)).

(** [c <- x]: panics on a closed channel, blocks while the buffer is full. *)
Definition chan_send (c : Chan) (x : Task) : Outcome Chan :=
  if closed c then Panic "send on closed channel"
  else if chan_len c <? cap c then Ok (mkChan (buf c ++ [x]) (closed c) (cap c))
  else Blocked.

(** One iteration of [for x := range c]: the next buffered element, [None]
    once the channel is closed and drained, blocked otherwise. *)
Definition chan_recv (c : Chan) : Outcome (option Task * Chan) :=
  match buf c with
  | x :: rest => Ok (Some x, mkChan rest (closed c) (cap c))
  | [] => if closed c then Ok (None, c) else Blocked
  end.

(** [close(c)] *)
Definition chan_close (c : Chan) : Outcome Chan :=
  if closed c then Panic "close of closed channel"
  else Ok (mkChan (buf c) true (cap c)).

(** The state shared by the goroutines of one pool: the two channels, the
    statistics, the counter of the wait group and the monotonic clock. *)
Record Shared := mkShared {
  tasks : Chan;
  results : Chan;
  stats : WorkerStats;
  wg : Z;
  now : Z
}.

Definition set_tasks (sh : Shared) (c : Chan) : Shared :=
  mkShared c (results sh) (stats sh) (wg sh) (now sh).
Definition set_results (sh : Shared) (c : Chan) : Shared :=
  mkShared (tasks sh) c (stats sh) (wg sh) (now sh).
Definition set_stats (sh : Shared) (st : WorkerStats) : Shared :=
  mkShared (tasks sh) (results sh) st (wg sh) (now sh).
Definition set_wg (sh : Shared) (n : Z) : Shared :=
  mkShared (tasks sh) (results sh) (stats sh) n (now sh).
Definition set_now (sh : Shared) (t : Z) : Shared :=
  mkShared (tasks sh) (results sh) (stats sh) (wg sh) t.

(** [wg.Add(n)] and [wg.Done()]: a negative counter panics. *)
Definition wg_add (n : Z) (sh : Shared) : Outcome Shared :=
  if wg sh + n <? 0 then Panic "sync: negative WaitGroup counter"
  else Ok (set_wg sh (wg sh + n)).

Definition wg_done (sh : Shared) : Outcome Shared := wg_add (-1) sh.

(** [wg.Wait()] returns once the counter is zero. *)
Definition wg_wait (sh : Shared) : Outcome Shared :=
  if wg sh =? 0 then Ok sh else Blocked.

(** [atomic.AddUint64(&stats.tasksProcessed, 1)] *)
Definition add_tasksProcessed (sh : Shared) (d : Z) : Shared :=
  set_stats sh (mkStats (wrap_uint64 (tasksProcessed (stats sh) + d))
                        (totalTime (stats sh))).

(** [atomic.AddInt64(&stats.totalTime, d)] *)
Definition add_totalTime (sh : Shared) (d : Z) : Shared :=
  set_stats sh (mkStats (tasksProcessed (stats sh))
                        (wrap_int (totalTime (stats sh) + d))).

(** [time.Since(start).Nanoseconds()] on the monotonic clock. *)
Definition since (sh : Shared) (start : Z) : Z := saturate (now sh - start).

(** ** The ticker of the rate limiter

    [time.NewTicker(d)] panics unless [d] is positive.  The ticker fires at
    [created + k * period] for k = 1, 2, ...; its channel holds at most one
    tick and further ticks are dropped until that one is received.  [ready]
    is the firing time of the tick the next receive will get. *)
Record Ticker := mkTicker { created : Z; period : Z; ready : Z }.

Definition NewTicker (d : Z) (t : Z) : Outcome Ticker :=
  if d <=? 0 then Panic "non-positive interval for NewTicker"
  else Ok (mkTicker t d (t + d)).

(** [<-limiter.C] at time [t]: blocked before [ready]; afterwards the channel
    is empty, and the next tick to be buffered is the first one after the
    received tick that fires at [t] or later. *)
Definition ticker_recv (tk : Ticker) (t : Z) : Outcome Ticker :=
  if ready tk <=? t then
    let k := (ready tk - created tk) / period tk in
    let k' := Z.max (k + 1) ((t - created tk + period tk - 1) / period tk) in
    Ok (mkTicker (created tk) (period tk) (created tk + k' * period tk))
  else Blocked.

(** Integer division of durations, [a / b]: truncated, and a run-time panic
    when the divisor is zero. *)
Definition duration_div (a b : Z) : Outcome Z :=
  if b =? 0 then Panic "runtime error: integer divide by zero"
  else Ok (wrap_int (Z.quot a b)).

(** ** The worker functions *)

(** Program points of [worker] and [rateLimitedWorker]; the points inside the
    loop carry the local variables [task] and [start]. *)
Inductive WPc : Type :=
  | AtEntry                               (* function entry, before the loop *)
  | AtRange                               (* for task := range tasks *)
  | AtLimiter (task : Task)               (* <-limiter.C *)
  | AtNow (task : Task)                   (* start := time.Now() *)
  | AtSleep (task : Task) (start : Z)     (* time.Sleep(..); task.Result = task.ID * 2 *)
  | AtAddCount (task : Task) (start : Z)  (* atomic.AddUint64(&stats.tasksProcessed, 1) *)
  | AtAddTime (task : Task) (start : Z)   (* atomic.AddInt64(&stats.totalTime, ..) *)
  | AtSend (task : Task)                  (* log.Printf(..); results <- task *)
  | Exited.                               (* deferred calls done, goroutine gone *)

Record Worker := mkWorker { pc : WPc; limiter : option Ticker }.

(** [task.Result = task.ID * 2] *)
Definition process (task : Task) : Task :=
  mkTask (ID task) (wrap_int (ID task * 2)).

(** The part of the loop body the two workers share, from [time.Now()] to the
    send on [results]; [nap] is the simulated processing time.  The
    [log.Printf] between the counters and the send only reads. *)
Definition loop_body (nap : Z) (sh : Shared) (w : Worker) : Outcome (Shared * Worker) :=
  match pc w with
  | AtNow task => Ok (sh, mkWorker (AtSleep task (now sh)) (limiter w))
  | AtSleep task start =>
      if start + nap <=? now sh
      then Ok (sh, mkWorker (AtAddCount (process task) start) (limiter w))
      else Blocked
  | AtAddCount task start =>
      Ok (add_tasksProcessed sh 1, mkWorker (AtAddTime task start) (limiter w))
  | AtAddTime task start =>
      Ok (add_totalTime sh (since sh start), mkWorker (AtSend task) (limiter w))
  | AtSend task =>
      let* c := chan_send (results sh) task in
      Ok (set_results sh c, mkWorker AtRange (limiter w))
  | _ => Blocked
  end.

(** [func worker(id, tasks, results, stats, wg)] *)
Definition worker (sh : Shared) (w : Worker) : Outcome (Shared * Worker) :=
  match pc w with
  | AtEntry => Ok (sh, mkWorker AtRange (limiter w))     (* defer wg.Done() *)
  | AtRange =>
      let* r := chan_recv (tasks sh) in
      match r with
      | (Some task, c) => Ok (set_tasks sh c, mkWorker (AtNow task) (limiter w))
      | (None, _) =>
          let* sh' := wg_done sh in                           (* deferred wg.Done() *)
          Ok (sh', mkWorker Exited (limiter w))
      end
  | AtLimiter _ => Blocked
  | Exited => Blocked
  | _ => loop_body (100 * Millisecond) sh w
  end.

(** [func rateLimitedWorker(id, tasks, results, rate, stats, wg)] *)
Definition rateLimitedWorker (rate : Z) (sh : Shared) (w : Worker)
  : Outcome (Shared * Worker) :=
  match pc w with
  | AtEntry =>
      (* defer wg.Done(); limiter := time.NewTicker(time.Second / time.Duration(rate)) *)
      let* d := duration_div Second rate in
      let* tk := NewTicker d (now sh) in
      Ok (sh, mkWorker AtRange (Some tk))
  | AtRange =>
      let* r := chan_recv (tasks sh) in
      match r with
      | (Some task, c) => Ok (set_tasks sh c, mkWorker (AtLimiter task) (limiter w))
      | (None, _) =>
          (* deferred limiter.Stop(), then deferred wg.Done() *)
          let* sh' := wg_done sh in
          Ok (sh', mkWorker Exited None)
      end
  | AtLimiter task =>
      match limiter w with
      | Some tk =>
          let* tk' := ticker_recv tk (now sh) in
          Ok (sh, mkWorker (AtNow task) (Some tk'))
      | None => Blocked
      end
  | Exited => Blocked
  | _ => loop_body (50 * Millisecond) sh w
  end.

(** ** The pools of [main]

    Sections 1 and 2 of [main] build the same system: [numWorkers] worker
    goroutines, a goroutine that sends the tasks 1..[numTasks] and closes
    [tasks], a goroutine that waits for the wait group and closes [results],
    and [main] itself ranging over [results].  [rate] is [None] for the basic
    pool and [Some operationsPerSecond] for the rate-limited one. *)

Record Config := mkConfig {
  numWorkers : Z;
  numTasks : Z;
  rate : option Z
}.

(** The sender: [for i := 1; i <= numTasks; i++ { tasks <- Task{ID: i} }; close(tasks)] *)
Inductive PPc : Type :=
  | PSend (i : Z)
  | PDone.

(** The closer: [wg.Wait(); close(results)] *)
Inductive CPc : Type :=
  | CWait
  | CClose
  | CDone.

(** [main]: [for result := range results { log.Printf(..) }] *)
Inductive MPc : Type :=
  | MRange
  | MDone.

Record Pool := mkPool {
  shared : Shared;
  producer : PPc;
  closer : CPc;
  collector : MPc;
  collected : list Task;      (* the results logged by main, in order *)
  workers : list Worker
}.

Definition producer_step (cfg : Config) (sh : Shared) (p : PPc) : Outcome (Shared * PPc) :=
  match p with
  | PSend i =>
      if i <=? numTasks cfg then
        let* c := chan_send (tasks sh) (mkTask i 0) in
        Ok (set_tasks sh c, PSend (wrap_int (i + 1)))
      else
        let* c := chan_close (tasks sh) in
        Ok (set_tasks sh c, PDone)
  | PDone => Blocked
  end.

Definition closer_step (sh : Shared) (c : CPc) : Outcome (Shared * CPc) :=
  match c with
  | CWait => let* sh' := wg_wait sh in Ok (sh', CClose)
  | CClose => let* r := chan_close (results sh) in Ok (set_results sh r, CDone)
  | CDone => Blocked
  end.

Definition collector_step (sh : Shared) (m : MPc) (got : list Task)
  : Outcome (Shared * MPc * list Task) :=
  match m with
  | MRange =>
      let* r := chan_recv (results sh) in
      match r with
      | (Some result, c) => Ok (set_results sh c, MRange, got ++ [result])
      | (None, _) => Ok (sh, MDone, got)
      end
  | MDone => Blocked
  end.

Definition run_worker (cfg : Config) : Shared -> Worker -> Outcome (Shared * Worker) :=
  match rate cfg with
  | None => worker
  | Some r => rateLimitedWorker r
  end.

(** The goroutines of a pool. *)
Inductive Actor : Type :=
  | AProducer
  | AWorker (i : nat)
  | ACloser
  | ACollector.

(** One atomic step of goroutine [who] at clock reading [t]; the clock never
    runs backwards. *)
Definition step (cfg : Config) (who : Actor) (t : Z) (p : Pool) : Outcome Pool :=
  if t <? now (shared p) then Blocked else
  let sh := set_now (shared p) t in
  match who with
  | AProducer =>
      let* r := producer_step cfg sh (producer p) in
      Ok (mkPool (fst r) (snd r) (closer p) (collector p) (collected p) (workers p))
  | AWorker i =>
      match workers p !! i with
      | Some w =>
          let* r := run_worker cfg sh w in
          Ok (mkPool (fst r) (producer p) (closer p) (collector p) (collected p)
                     (<[i := snd r]> (workers p)))
      | None => Blocked
      end
  | ACloser =>
      let* r := closer_step sh (closer p) in
      Ok (mkPool (fst r) (producer p) (snd r) (collector p) (collected p) (workers p))
  | ACollector =>
      let* r := collector_step sh (collector p) (collected p) in
      Ok (mkPool (fst (fst r)) (producer p) (closer p) (snd (fst r)) (snd r) (workers p))
  end.

(** [for i := 1; i <= numWorkers; i++ { wg.Add(1); go worker(..) }] *)
Fixpoint spawn (n : nat) (sh : Shared) (ws : list Worker) : Shared * list Worker :=
  match n with
  | O => (sh, ws)
  | S n' => spawn n' (set_wg sh (wg sh + 1)) (ws ++ [mkWorker AtEntry None])
  end.

(** The pool as [main] sets it up at time [t0] on the statistics [st]: both
    channels have capacity [numTasks], and the workers are spawned before the
    sender and the closer. *)
Definition setup (cfg : Config) (st : WorkerStats) (t0 : Z) : Pool :=
  let sh := mkShared (make_chan (numTasks cfg)) (make_chan (numTasks cfg)) st 0 t0 in
  let r := spawn (Z.to_nat (numWorkers cfg)) sh [] in
  mkPool (fst r) (PSend 1) CWait MRange [] (snd r).

(** Making a channel of negative capacity panics. *)
Definition Start (cfg : Config) (st : WorkerStats) (t0 : Z) : Outcome Pool :=
  if numTasks cfg <? 0 then Panic "makechan: size out of range"
  else Ok (setup cfg st t0).

(** Executions: a schedule is a list of (goroutine, clock reading). *)
Fixpoint run (cfg : Config) (sched : list (Actor * Z)) (p : Pool) : Outcome Pool :=
  match sched with
  | [] => Ok p
  | (who, t) :: rest => let* p' := step cfg who t p in run cfg rest p'
  end.

Inductive runs (cfg : Config) (p : Pool) : Pool -> Prop :=
  | runs_refl : runs cfg p p
  | runs_step q who t q' :
      runs cfg p q -> step cfg who t q = Ok q' -> runs cfg p q'.

(** The pool has completed when [main] has left its loop over [results]. *)
Definition completed (p : Pool) : Prop := collector p = MDone.

(** The pool of section 1 and the rate-limited pool of section 2. *)
Definition basicPool : Config := mkConfig 3 10 None.
Definition operationsPerSecond : Z := 2.
Definition rateLimitedPool : Config := mkConfig 3 10 (Some operationsPerSecond).

(** [stats := &WorkerStats{}] *)
Definition freshStats : WorkerStats := mkStats 0 0.

(** Section 2 of [main] hands the same [stats] to the rate-limited workers:
    its pool starts on the statistics section 1 has left behind. *)
Definition rateLimitedStart (p1 : Pool) : Outcome Pool :=
  Start rateLimitedPool (stats (shared p1)) (now (shared p1)).

(** *** A scheduler

    [schedule] runs a pool deterministically: at each turn the first
    goroutine, among the workers in order, the sender, the closer and [main],
    that can take a step takes it, at the earliest clock reading at which it
    can. *)

Definition earliest (p : Pool) (who : Actor) : Z :=
  match who with
  | AWorker i =>
      match workers p !! i with
      | Some (mkWorker (AtSleep _ start) (Some _)) =>
          Z.max (now (shared p)) (start + 50 * Millisecond)
      | Some (mkWorker (AtSleep _ start) None) =>
          Z.max (now (shared p)) (start + 100 * Millisecond)
      | Some (mkWorker (AtLimiter _) (Some tk)) => Z.max (now (shared p)) (ready tk)
      | _ => now (shared p)
      end
  | _ => now (shared p)
  end.

Fixpoint first_enabled (cfg : Config) (p : Pool) (who : list Actor) : option (Actor * Z) :=
  match who with
  | [] => None
  | a :: rest =>
      if is_ok (step cfg a (earliest p a) p) then Some (a, earliest p a)
      else first_enabled cfg p rest
  end.

Definition actors (p : Pool) : list Actor :=
  map AWorker (seq 0 (length (workers p))) ++ [AProducer; ACloser; ACollector].

Fixpoint schedule (fuel : nat) (cfg : Config) (p : Pool) : list (Actor * Z) :=
  match fuel with
  | O => []
  | S fuel' =>
      match first_enabled cfg p (actors p) with
      | Some (a, t) =>
          match step cfg a t p with
          | Ok p' => (a, t) :: schedule fuel' cfg p'
          | _ => []
          end
      | None => []
      end
  end.

(** * The dynamic pool of section 3

    [main] starts [initialWorkers] workers and a goroutine that checks the
    backlog once; then [main] itself sends the tasks, closes [dynamicTasks],
    waits for the wait group, closes [dynamicResults] and ranges over it. *)

Module Dynamic.

(** [main], from the sending loop on. *)
Inductive DPc : Type :=
  | DSend (i : Z)       (* for i := 1; i <= 5; i++ { dynamicTasks <- Task{ID: i} }; close(dynamicTasks) *)
  | DWait               (* dynamicWg.Wait() *)
  | DCloseResults       (* close(dynamicResults) *)
  | DRange              (* for result := range dynamicResults *)
  | DDone.

(** The goroutine that adds a worker under load. *)
Inductive SPc : Type :=
  | SCheck              (* if len(dynamicTasks) > 5 *)
  | SAdd                (* dynamicWg.Add(1) *)
  | SSpawn              (* go worker(initialWorkers+1, ..) *)
  | SDone.

Record Pool := mkPool {
  shared : Shared;
  main : DPc;
  scaler : SPc;
  collected : list Task;
  workers : list Worker
}.

(** The constants of section 3. *)
Definition initialWorkers : Z := 2.
Definition threshold : Z := 5.           (* len(dynamicTasks) > 5 *)
Definition tasksSent : Z := 5.           (* i <= 5 *)
Definition numTasks : Z := 10.           (* capacity of both channels *)

Definition main_step (sh : Shared) (m : DPc) (got : list Task)
  : Outcome (Shared * DPc * list Task) :=
  match m with
  | DSend i =>
      if i <=? tasksSent then
        let* c := chan_send (tasks sh) (mkTask i 0) in
        Ok (set_tasks sh c, DSend (wrap_int (i + 1)), got)
      else
        let* c := chan_close (tasks sh) in
        Ok (set_tasks sh c, DWait, got)
  | DWait => let* sh' := wg_wait sh in Ok (sh', DCloseResults, got)
  | DCloseResults =>
      let* c := chan_close (results sh) in Ok (set_results sh c, DRange, got)
  | DRange =>
      let* r := chan_recv (results sh) in
      match r with
      | (Some result, c) => Ok (set_results sh c, DRange, got ++ [result])
      | (None, _) => Ok (sh, DDone, got)
      end
  | DDone => Blocked
  end.

(** The second component is the worker the step spawns, if any. *)
Definition scaler_step (sh : Shared) (s : SPc) : Outcome (Shared * SPc * list Worker) :=
  match s with
  | SCheck =>
      if threshold <? chan_len (tasks sh) then Ok (sh, SAdd, []) else Ok (sh, SDone, [])
  | SAdd => let* sh' := wg_add 1 sh in Ok (sh', SSpawn, [])
  | SSpawn => Ok (sh, SDone, [mkWorker AtEntry None])
  | SDone => Blocked
  end.

Inductive Actor : Type :=
  | AMain
  | AScaler
  | AWorker (i : nat).

Definition step (who : Actor) (t : Z) (p : Pool) : Outcome Pool :=
  if t <? now (shared p) then Blocked else
  let sh := set_now (shared p) t in
  match who with
  | AMain =>
      let* r := main_step sh (main p) (collected p) in
      Ok (mkPool (fst (fst r)) (snd (fst r)) (scaler p) (snd r) (workers p))
  | AScaler =>
      let* r := scaler_step sh (scaler p) in
      Ok (mkPool (fst (fst r)) (main p) (snd (fst r)) (collected p) (workers p ++ snd r))
  | AWorker i =>
      match workers p !! i with
      | Some w =>
          let* r := worker sh w in
          Ok (mkPool (fst r) (main p) (scaler p) (collected p) (<[i := snd r]> (workers p)))
      | None => Blocked
      end
  end.

(** The pool when [main] reaches its sending loop: the initial workers and the
    checking goroutine have been started, on the statistics [st] the earlier
    sections have left. *)
Definition setup (st : WorkerStats) (t0 : Z) : Pool :=
  let sh := mkShared (make_chan numTasks) (make_chan numTasks) st 0 t0 in
  let r := spawn (Z.to_nat initialWorkers) sh [] in
  mkPool (fst r) (DSend 1) SCheck [] (snd r).

Fixpoint run (sched : list (Actor * Z)) (p : Pool) : Outcome Pool :=
  match sched with
  | [] => Ok p
  | (who, t) :: rest => let* p' := step who t p in run rest p'
  end.

Inductive runs (p : Pool) : Pool -> Prop :=
  | runs_refl : runs p p
  | runs_step q who t q' : runs p q -> step who t q = Ok q' -> runs p q'.

(** The number of tasks [main] has sent so far. *)
Definition sent (m : DPc) : Z :=
  match m with
  | DSend i => i - 1
  | _ => tasksSent
  end.

(** The backlog never exceeds what was sent, which never exceeds [tasksSent];
    so the check finds no load, and no worker is added. *)
Definition Inv (p : Pool) : Prop :=
  chan_len (tasks (shared p)) <= sent (main p) /\
  sent (main p) <= tasksSent /\
  (scaler p = SCheck \/ scaler p = SDone) /\
  length (workers p) = Z.to_nat initialWorkers.

End Dynamic.

(** * The vocabulary of the proofs *)

(** ** Steps as relations

    [worker_trans cfg sh w sh' w'] lists the atomic steps of the two worker
    functions case by case, and [trans] those of a pool; the proofs show that
    every completed step of the functions above is one of them, and reason by
    cases on the relations. *)

Definition nap (cfg : Config) : Z :=
  match rate cfg with
  | None => 100 * Millisecond
  | Some _ => 50 * Millisecond
  end.

Inductive worker_trans (cfg : Config) (sh : Shared) : Worker -> Shared -> Worker -> Prop :=
  | wt_entry lim :
      rate cfg = None ->
      worker_trans cfg sh (mkWorker AtEntry lim) sh (mkWorker AtRange lim)
  | wt_ticker lim r d :
      rate cfg = Some r -> r <> 0 -> d = wrap_int (Z.quot Second r) -> 0 < d ->
      worker_trans cfg sh (mkWorker AtEntry lim) sh
        (mkWorker AtRange (Some (mkTicker (now sh) d (now sh + d))))
  | wt_recv lim x rest :
      buf (tasks sh) = x :: rest ->
      worker_trans cfg sh (mkWorker AtRange lim)
        (set_tasks sh (mkChan rest (closed (tasks sh)) (cap (tasks sh))))
        (mkWorker (match rate cfg with Some _ => AtLimiter x | None => AtNow x end) lim)
  | wt_exit lim :
      buf (tasks sh) = [] -> closed (tasks sh) = true -> 1 <= wg sh ->
      worker_trans cfg sh (mkWorker AtRange lim) (set_wg sh (wg sh + -1))
        (mkWorker Exited (match rate cfg with Some _ => None | None => lim end))
  | wt_tick x tk tk' r :
      rate cfg = Some r -> ticker_recv tk (now sh) = Ok tk' ->
      worker_trans cfg sh (mkWorker (AtLimiter x) (Some tk)) sh (mkWorker (AtNow x) (Some tk'))
  | wt_now x lim :
      worker_trans cfg sh (mkWorker (AtNow x) lim) sh (mkWorker (AtSleep x (now sh)) lim)
  | wt_sleep x start lim :
      start + nap cfg <= now sh ->
      worker_trans cfg sh (mkWorker (AtSleep x start) lim) sh
        (mkWorker (AtAddCount (process x) start) lim)
  | wt_count x start lim :
      worker_trans cfg sh (mkWorker (AtAddCount x start) lim) (add_tasksProcessed sh 1)
        (mkWorker (AtAddTime x start) lim)
  | wt_time x start lim :
      worker_trans cfg sh (mkWorker (AtAddTime x start) lim)
        (add_totalTime sh (since sh start)) (mkWorker (AtSend x) lim)
  | wt_send x lim :
      closed (results sh) = false -> chan_len (results sh) < cap (results sh) ->
      worker_trans cfg sh (mkWorker (AtSend x) lim)
        (set_results sh (mkChan (buf (results sh) ++ [x]) false (cap (results sh))))
        (mkWorker AtRange lim).

(** The clock moves to the time of the step before the step is taken. *)
Definition tick (t : Z) (p : Pool) : Pool :=
  mkPool (set_now (shared p) t) (producer p) (closer p) (collector p)
         (collected p) (workers p).

Inductive trans (cfg : Config) : Pool -> Pool -> Prop :=
  | tr_send sh i cl mn col ws :
      i <= numTasks cfg -> closed (tasks sh) = false ->
      chan_len (tasks sh) < cap (tasks sh) ->
      trans cfg (mkPool sh (PSend i) cl mn col ws)
        (mkPool (set_tasks sh (mkChan (buf (tasks sh) ++ [mkTask i 0]) false (cap (tasks sh))))
                (PSend (wrap_int (i + 1))) cl mn col ws)
  | tr_close sh i cl mn col ws :
      numTasks cfg < i -> closed (tasks sh) = false ->
      trans cfg (mkPool sh (PSend i) cl mn col ws)
        (mkPool (set_tasks sh (mkChan (buf (tasks sh)) true (cap (tasks sh))))
                PDone cl mn col ws)
  | tr_wait sh pr mn col ws :
      wg sh = 0 ->
      trans cfg (mkPool sh pr CWait mn col ws) (mkPool sh pr CClose mn col ws)
  | tr_close_results sh pr mn col ws :
      closed (results sh) = false ->
      trans cfg (mkPool sh pr CClose mn col ws)
        (mkPool (set_results sh (mkChan (buf (results sh)) true (cap (results sh))))
                pr CDone mn col ws)
  | tr_collect sh pr cl col ws x rest :
      buf (results sh) = x :: rest ->
      trans cfg (mkPool sh pr cl MRange col ws)
        (mkPool (set_results sh (mkChan rest (closed (results sh)) (cap (results sh))))
                pr cl MRange (col ++ [x]) ws)
  | tr_done sh pr cl col ws :
      buf (results sh) = [] -> closed (results sh) = true ->
      trans cfg (mkPool sh pr cl MRange col ws) (mkPool sh pr cl MDone col ws)
  | tr_worker sh pr cl mn col l1 w l2 sh' w' :
      worker_trans cfg sh w sh' w' ->
      trans cfg (mkPool sh pr cl mn col (l1 ++ w :: l2))
        (mkPool sh' pr cl mn col (l1 ++ w' :: l2)).

(** ** The invariant of a pool *)

(** The task a worker holds between receiving it and sending it on. *)
Definition held (w : Worker) : list Task :=
  match pc w with
  | AtLimiter x | AtNow x | AtSleep x _ | AtAddCount x _ | AtAddTime x _ | AtSend x => [x]
  | _ => []
  end.

(** The held task once [task.Result] has been assigned. *)
Definition processed (w : Worker) : list Task :=
  match pc w with
  | AtAddCount x _ | AtAddTime x _ | AtSend x => [x]
  | _ => []
  end.

(** 1 while the worker has not run its deferred [wg.Done()]. *)
Definition live (w : Worker) : Z :=
  match pc w with Exited => 0 | _ => 1 end.

(** 1 while the worker has counted its task and not yet sent it. *)
Definition counted (w : Worker) : Z :=
  match pc w with AtAddTime _ _ | AtSend _ => 1 | _ => 0 end.

Arguments held !w /.
Arguments processed !w /.
Arguments live !w /.
Arguments counted !w /.

Fixpoint sumZ {A} (f : A -> Z) (l : list A) : Z :=
  match l with
  | [] => 0
  | x :: rest => f x + sumZ f rest
  end.

(** The number of tasks the sender has put on [tasks] so far. *)
Definition sent (cfg : Config) (pr : PPc) : Z :=
  match pr with
  | PSend i => i - 1
  | PDone => numTasks cfg
  end.

Definition doubled (x : Task) : Prop := Result x = ID x * 2.

(** A rate-limited worker inside its loop owns a ticker; a basic worker never
    waits for one. *)
Definition wf_worker (cfg : Config) (w : Worker) : Prop :=
  match rate cfg with
  | None => forall x, pc w <> AtLimiter x
  | Some _ => pc w = AtEntry \/ pc w = Exited \/
              exists tk, limiter w = Some tk /\ 0 < period tk
  end.

Record Inv (cfg : Config) (tp0 : Z) (p : Pool) : Prop := mkInv {
  inv_caps :
    cap (tasks (shared p)) = numTasks cfg /\ cap (results (shared p)) = numTasks cfg;
  inv_prod :
    match producer p with
    | PSend i => 1 <= i <= numTasks cfg + 1 /\ closed (tasks (shared p)) = false
    | PDone => closed (tasks (shared p)) = true
    end;
  inv_ids :
    ID <$> (buf (tasks (shared p)) ++ flat_map held (workers p)
            ++ buf (results (shared p)) ++ collected p)
    ≡ₚ seqZ 1 (sent cfg (producer p));
  inv_res :
    Forall doubled (flat_map processed (workers p)
                    ++ buf (results (shared p)) ++ collected p);
  inv_wg : wg (shared p) = sumZ live (workers p);
  inv_closer :
    match closer p with
    | CWait => closed (results (shared p)) = false
    | CClose => closed (results (shared p)) = false /\ wg (shared p) = 0
    | CDone => closed (results (shared p)) = true /\ wg (shared p) = 0
    end;
  inv_exit :
    (exists w, w ∈ workers p /\ pc w = Exited) ->
    closed (tasks (shared p)) = true /\ buf (tasks (shared p)) = [];
  inv_main :
    collector p = MDone -> closer p = CDone /\ buf (results (shared p)) = [];
  inv_count :
    tasksProcessed (stats (shared p)) =
    wrap_uint64 (tp0 + sumZ counted (workers p) + chan_len (results (shared p))
                 + Z.of_nat (length (collected p)));
  inv_shape : Forall (wf_worker cfg) (workers p)
}.

(** ** Rates, termination and results *)

(** The rates for which [time.NewTicker(time.Second / time.Duration(rate))]
    gets a positive period. *)
Definition rate_ok (cfg : Config) : Prop :=
  match rate cfg with
  | None => True
  | Some r => 1 <= r <= Second
  end.

Definition wweight (w : Worker) : Z :=
  match pc w with
  | AtEntry => 2
  | AtRange => 1
  | AtLimiter _ => 9
  | AtNow _ => 8
  | AtSleep _ _ => 7
  | AtAddCount _ _ => 6
  | AtAddTime _ _ => 5
  | AtSend _ => 4
  | Exited => 0
  end.
Arguments wweight !w /.

Definition remaining (cfg : Config) (p : Pool) : Z :=
  match producer p with
  | PSend i => 10 * (numTasks cfg + 1 - i) + 1
  | PDone => 0
  end
  + 9 * chan_len (tasks (shared p))
  + sumZ wweight (workers p)
  + 2 * chan_len (results (shared p))
  + match closer p with CWait => 2 | CClose => 1 | CDone => 0 end
  + match collector p with MRange => 1 | MDone => 0 end.

(** The results of the tasks 1..n, each with its identifier doubled. *)
Definition expected (n : Z) : list Task :=
  (fun i => mkTask i (i * 2)) <$> seqZ 1 n.

(** The values [main] reads after the loop over [results]:
    [atomic.LoadInt64(&stats.totalTime)] and
    [atomic.LoadUint64(&stats.tasksProcessed)]. *)
Definition Snapshot (p : Pool) : Z * Z :=
  (tasksProcessed (stats (shared p)), totalTime (stats (shared p))).

(** ** The clock and the total processing time *)

(** 1 while the worker has added its elapsed time and not yet sent its task. *)
Definition timed (w : Worker) : Z :=
  match pc w with AtSend _ => 1 | _ => 0 end.
Arguments timed !w /.

(** The local variable [start] of a worker, once [time.Now()] has been read. *)
Definition start_of (w : Worker) : option Z :=
  match pc w with
  | AtSleep _ s | AtAddCount _ s | AtAddTime _ s => Some s
  | _ => None
  end.
Arguments start_of !w /.

(** The number of tasks whose elapsed time has been added to [totalTime]. *)
Definition timed_tasks (p : Pool) : Z :=
  sumZ timed (workers p) + chan_len (results (shared p))
  + Z.of_nat (length (collected p)).

(** The number of tasks counted in [tasksProcessed]. *)
Definition counted_tasks (p : Pool) : Z :=
  sumZ counted (workers p) + chan_len (results (shared p))
  + Z.of_nat (length (collected p)).

(** The clock never runs before the start [t0] of the pool, every [start] lies
    between [t0] and the current time, nothing is added to [totalTime] before
    the first task is timed, and up to a horizon [H] the total grows by at
    most [H - t0] per timed task. *)
Record TInv (t0 tt0 H : Z) (p : Pool) : Prop := mkTInv {
  tinv_now : t0 <= now (shared p);
  tinv_start :
    Forall (fun w => forall s, start_of w = Some s -> t0 <= s <= now (shared p))
           (workers p);
  tinv_none : timed_tasks p = 0 -> totalTime (stats (shared p)) = tt0;
  tinv_total :
    now (shared p) <= H ->
    tt0 <= totalTime (stats (shared p)) <= tt0 + timed_tasks p * (H - t0)
}.

(** ** The average latency *)

(** [float64(x)] of an integer: the nearest binary64 number. *)
Definition float64 (z : Z) : spec_float := binary_normalize 53 1024 z 0 false.

(** [avgTime := float64(atomic.LoadInt64(&stats.totalTime)) /
               float64(atomic.LoadUint64(&stats.tasksProcessed))];
    a floating-point division never panics in Go. *)
Definition avgTime (st : WorkerStats) : spec_float :=
  SFdiv 53 1024 (float64 (totalTime st)) (float64 (tasksProcessed st)).

(** [avgTime / 1e6], the milliseconds [main] logs. *)
Definition avgTimeMs (st : WorkerStats) : spec_float :=
  SFdiv 53 1024 (avgTime st) (float64 1000000).

(** ** The rate limiter *)

(** 1 once the worker has passed [<-limiter.C] with its task. *)
Definition admitted (w : Worker) : Z :=
  match pc w with
  | AtNow _ | AtSleep _ _ | AtAddCount _ _ | AtAddTime _ _ | AtSend _ => 1
  | _ => 0
  end.
Arguments admitted !w /.

(** The number of tasks admitted by the rate limiter so far. *)
Definition admitted_tasks (p : Pool) : Z :=
  sumZ admitted (workers p) + chan_len (results (shared p))
  + Z.of_nat (length (collected p)).

(** The ticker of a worker fires on the grid [created + k * period]. *)
Definition on_grid (per : Z) (tk : Ticker) (k : Z) : Prop :=
  period tk = per /\ ready tk = created tk + k * per.


(** ** The pipeline of a pool *)

(** The tasks in the system from the oldest to the newest position: logged by
    [main], buffered in [results], held by the workers, buffered in [tasks]. *)
Definition pipeline (p : Pool) : list Task :=
  collected p ++ buf (results (shared p)) ++ flat_map held (workers p)
  ++ buf (tasks (shared p)).

(** ** The time a task takes *)

(** A worker past its [time.Sleep] has spent at least the nap since [start]. *)
Definition slept (cfg : Config) (p : Pool) : Prop :=
  Forall (fun w => match pc w with
                   | AtAddCount _ s | AtAddTime _ s => s + nap cfg <= now (shared p)
                   | _ => True
                   end) (workers p).

(** ** The rate limit of a pool with several workers *)

(** The time the ticks a worker has received account for at clock reading
    [t]: the ticks of one ticker lie at least a period apart, so a worker
    whose ticker delivers next the tick of [ready] has received ticks worth
    [ready - period - created].  The deferred [limiter.Stop()] of a worker
    that returns discards its ticker; such a worker is credited the whole
    time since the start [t0] of the pool. *)
Definition credit (t0 t : Z) (w : Worker) : Z :=
  match pc w with
  | AtEntry => 0
  | Exited => t - t0
  | _ => match limiter w with
         | Some tk => ready tk - period tk - created tk
         | None => 0
         end
  end.
Arguments credit t0 t !w /.

(** Inside its loop a rate-limited worker owns a ticker of period [per],
    created after [t0], whose last delivered tick is not in the future. *)
Definition ticking (per t0 t : Z) (w : Worker) : Prop :=
  match pc w with
  | AtEntry | Exited => True
  | _ => exists tk k, limiter w = Some tk /\ on_grid per tk k /\ 1 <= k /\
                      t0 <= created tk /\ ready tk - per <= t
  end.
Arguments ticking per t0 t !w /.

Record WInv (per t0 : Z) (p : Pool) : Prop := mkWInv {
  winv_now : t0 <= now (shared p);
  winv_tickers : Forall (ticking per t0 (now (shared p))) (workers p);
  winv_credit :
    admitted_tasks p * per <= sumZ (credit t0 (now (shared p))) (workers p)
}.

(** ** The dynamic pool as a pool of five tasks

    In section 3 [main] plays the sender, the closer and the collector of a
    pool one after the other, over channels with room for 10 tasks of which 5
    are sent.  [as_pool] reads a state of the dynamic pool as a state of the
    pool of 2 workers and 5 tasks. *)

Definition producer_of (m : Dynamic.DPc) : PPc :=
  match m with
  | Dynamic.DSend i => PSend i
  | _ => PDone
  end.

Definition closer_of (m : Dynamic.DPc) : CPc :=
  match m with
  | Dynamic.DSend _ | Dynamic.DWait => CWait
  | Dynamic.DCloseResults => CClose
  | Dynamic.DRange | Dynamic.DDone => CDone
  end.

Definition collector_of (m : Dynamic.DPc) : MPc :=
  match m with
  | Dynamic.DDone => MDone
  | _ => MRange
  end.

(** The shared state with the capacity of both channels cut down to the tasks
    that are sent. *)
Definition recap (sh : Shared) : Shared :=
  mkShared (mkChan (buf (tasks sh)) (closed (tasks sh)) Dynamic.tasksSent)
           (mkChan (buf (results sh)) (closed (results sh)) Dynamic.tasksSent)
           (stats sh) (wg sh) (now sh).

Definition fivePool : Config :=
  mkConfig Dynamic.initialWorkers Dynamic.tasksSent None.

Definition as_pool (p : Dynamic.Pool) : Pool :=
  mkPool (recap (Dynamic.shared p))
         (producer_of (Dynamic.main p)) (closer_of (Dynamic.main p))
         (collector_of (Dynamic.main p))
         (Dynamic.collected p) (Dynamic.workers p).

(** A bound on the steps the dynamic pool can still take: those of the pool
    of five tasks, and the one check of the backlog. *)
Definition dynamic_remaining (p : Dynamic.Pool) : Z :=
  remaining fivePool (as_pool p)
  + match Dynamic.scaler p with Dynamic.SDone => 0 | _ => 1 end.

(** A scheduler for the dynamic pool: the first goroutine, among [main], the
    checking goroutine and the workers in order, that can take a step takes
    it, at the earliest clock reading at which it can. *)
Definition dynamic_earliest (p : Dynamic.Pool) (who : Dynamic.Actor) : Z :=
  match who with
  | Dynamic.AWorker i =>
      match Dynamic.workers p !! i with
      | Some (mkWorker (AtSleep _ start) _) =>
          Z.max (now (Dynamic.shared p)) (start + 100 * Millisecond)
      | _ => now (Dynamic.shared p)
      end
  | _ => now (Dynamic.shared p)
  end.

Fixpoint dynamic_first_enabled (p : Dynamic.Pool) (who : list Dynamic.Actor)
  : option (Dynamic.Actor * Z) :=
  match who with
  | [] => None
  | a :: rest =>
      if is_ok (Dynamic.step a (dynamic_earliest p a) p)
      then Some (a, dynamic_earliest p a)
      else dynamic_first_enabled p rest
  end.

Definition dynamic_actors (p : Dynamic.Pool) : list Dynamic.Actor :=
  [Dynamic.AMain; Dynamic.AScaler]
  ++ map Dynamic.AWorker (seq 0 (length (Dynamic.workers p))).

Fixpoint dynamic_schedule (fuel : nat) (p : Dynamic.Pool) : list (Dynamic.Actor * Z) :=
  match fuel with
  | O => []
  | S fuel' =>
      match dynamic_first_enabled p (dynamic_actors p) with
      | Some (a, t) =>
          match Dynamic.step a t p with
          | Ok p' => (a, t) :: dynamic_schedule fuel' p'
          | _ => []
          end
      | None => []
      end
  end.

(** ** [main] as a whole *)

(** Section 3 of [main] hands the same [stats] to its workers, as section 2
    does: the dynamic pool starts on the statistics the rate-limited pool has
    left behind. *)
Definition dynamicStart (p2 : Pool) : Dynamic.Pool :=
  Dynamic.setup (stats (shared p2)) (now (shared p2)).

(** The tasks the workers have taken off [tasks], and the results they have
    put on [results]. *)
Definition taken (cfg : Config) (p : Pool) : Z :=
  sent cfg (producer p) - chan_len (tasks (shared p)).

Definition delivered (p : Pool) : Z :=
  chan_len (results (shared p)) + Z.of_nat (length (collected p)).

(** ** The throughput of a pool *)

(** 1 once the worker has slept over its task and not yet sent it. *)
Definition napped (w : Worker) : Z :=
  match pc w with
  | AtAddCount _ _ | AtAddTime _ _ | AtSend _ => 1
  | _ => 0
  end.
Arguments napped !w /.

(** The number of tasks some worker has slept over. *)
Definition napped_tasks (p : Pool) : Z :=
  sumZ napped (workers p) + chan_len (results (shared p))
  + Z.of_nat (length (collected p)).

(** The time the naps of a worker account for at clock reading [t]: a worker
    sleeps over one task at a time, so its naps up to the last one began lie
    before [start], and the one it has just finished lies before
    [start + nap]. *)
Definition busy (cfg : Config) (t0 t : Z) (w : Worker) : Z :=
  match pc w with
  | AtSleep _ start => start - t0
  | AtAddCount _ start | AtAddTime _ start => start + nap cfg - t0
  | _ => t - t0
  end.
Arguments busy cfg t0 t !w /.

Definition paced (cfg : Config) (t : Z) (w : Worker) : Prop :=
  match pc w with
  | AtSleep _ start => start <= t
  | AtAddCount _ start | AtAddTime _ start => start + nap cfg <= t
  | _ => True
  end.
Arguments paced cfg t !w /.

Record NInv (cfg : Config) (t0 : Z) (p : Pool) : Prop := mkNInv {
  ninv_now : t0 <= now (shared p);
  ninv_paced : Forall (paced cfg (now (shared p))) (workers p);
  ninv_busy :
    napped_tasks p * nap cfg <= sumZ (busy cfg t0 (now (shared p))) (workers p)
}.

(** ** The order of the results *)

(** A schedule on which the second task overtakes the first: two workers take
    one task each, and the worker with the second task sends its result
    before the other does. *)
Definition overtaking (t0 : Z) : list (Actor * Z) :=
  let t1 := t0 + 100 * Millisecond in
  [(AWorker 0, t0); (AWorker 1, t0); (AProducer, t0); (AProducer, t0);
   (AWorker 0, t0); (AWorker 1, t0); (AWorker 0, t0); (AWorker 1, t0);
   (AWorker 1, t1); (AWorker 1, t1); (AWorker 1, t1); (AWorker 1, t1);
   (AWorker 0, t1); (AWorker 0, t1); (AWorker 0, t1); (AWorker 0, t1);
   (ACollector, t1); (ACollector, t1)].

(** * Proofs *)

(** ** Arithmetic of machine integers *)

Lemma wrap_int_small z : int_min <= z <= int_max -> wrap_int z = z.
Proof.
  unfold wrap_int, int_min, int_max. intros H.
  rewrite Z.mod_small; lia.
Qed.

Lemma wrap_uint64_small z : 0 <= z < 2 ^ 64 -> wrap_uint64 z = z.
Proof. unfold wrap_uint64. intros H. apply Z.mod_small. lia. Qed.

Lemma saturate_nonneg z : 0 <= z -> 0 <= saturate z <= z.
Proof. unfold saturate, int_min, int_max. lia. Qed.

(** ** Every step of a worker is one of [worker_trans] *)

Lemma chan_send_ok c x c' :
  chan_send c x = Ok c' ->
  closed c = false /\ chan_len c < cap c /\ c' = mkChan (buf c ++ [x]) false (cap c).
Proof.
  unfold chan_send. intros H.
  destruct (closed c) eqn:Ec; [discriminate|].
  destruct (chan_len c <? cap c) eqn:El; [|discriminate].
  injection H as <-. apply Z.ltb_lt in El. auto.
Qed.

Lemma chan_recv_ok c r c' :
  chan_recv c = Ok (r, c') ->
  match r with
  | Some x => exists rest, buf c = x :: rest /\ c' = mkChan rest (closed c) (cap c)
  | None => buf c = [] /\ closed c = true /\ c' = c
  end.
Proof.
  unfold chan_recv. intros H.
  destruct (buf c) as [|x rest] eqn:Eb.
  - destruct (closed c) eqn:Ec; [|discriminate]. injection H as <- <-. auto.
  - injection H as <- <-. eauto.
Qed.

Lemma chan_close_ok c c' :
  chan_close c = Ok c' -> closed c = false /\ c' = mkChan (buf c) true (cap c).
Proof.
  unfold chan_close. destruct (closed c); [discriminate|]. intros [= <-]. auto.
Qed.

Lemma wg_done_ok sh sh' :
  wg_done sh = Ok sh' -> 1 <= wg sh /\ sh' = set_wg sh (wg sh + -1).
Proof.
  unfold wg_done, wg_add. destruct (wg sh + -1 <? 0) eqn:E; [discriminate|].
  intros [= <-]. apply Z.ltb_ge in E. split; [lia|reflexivity].
Qed.

Lemma loop_body_trans cfg sh w sh' w' :
  loop_body (nap cfg) sh w = Ok (sh', w') -> worker_trans cfg sh w sh' w'.
Proof.
  destruct w as [p lim]. unfold loop_body. simpl.
  destruct p; intros H; try discriminate.
  - injection H as <- <-. constructor.
  - destruct (start + nap cfg <=? now sh) eqn:E; [|discriminate].
    injection H as <- <-. constructor. lia.
  - injection H as <- <-. constructor.
  - injection H as <- <-. constructor.
  - destruct (chan_send (results sh) task) eqn:E; try discriminate.
    simpl in H. injection H as <- <-.
    apply chan_send_ok in E as (? & ? & ->). now constructor.
Qed.

Lemma run_worker_trans cfg sh w sh' w' :
  run_worker cfg sh w = Ok (sh', w') -> worker_trans cfg sh w sh' w'.
Proof.
  pose proof (loop_body_trans cfg sh w sh' w') as LB.
  unfold run_worker, nap in *. destruct w as [p lim].
  destruct (rate cfg) as [r|] eqn:Er.
  - unfold rateLimitedWorker. simpl. intros H.
    destruct p; try (now apply LB); try discriminate.
    + unfold duration_div in H. destruct (r =? 0) eqn:E0; [discriminate|].
      simpl in H. unfold NewTicker in H.
      destruct (wrap_int (Second ÷ r) <=? 0) eqn:Ed; [discriminate|].
      simpl in H. injection H as <- <-.
      eapply wt_ticker; eauto; lia.
    + destruct (chan_recv (tasks sh)) as [[[x|] c]| |] eqn:E; try discriminate; simpl in H.
      * injection H as <- <-. apply chan_recv_ok in E as (rest & Eb & ->).
        pose proof (wt_recv cfg sh lim x rest Eb) as T. now rewrite Er in T.
      * destruct (wg_done sh) eqn:Ew; try discriminate. simpl in H.
        injection H as <- <-. apply chan_recv_ok in E as (Eb & Ec & ->).
        apply wg_done_ok in Ew as (? & ->).
        pose proof (wt_exit cfg sh lim Eb Ec) as T. rewrite Er in T. now apply T.
    + destruct lim as [tk|]; [|discriminate].
      destruct (ticker_recv tk (now sh)) eqn:Et; try discriminate. simpl in H.
      injection H as <- <-. eapply wt_tick; eauto.
  - unfold worker. simpl. intros H.
    destruct p; try (now apply LB); try discriminate.
    + injection H as <- <-. now constructor.
    + destruct (chan_recv (tasks sh)) as [[[x|] c]| |] eqn:E; try discriminate; simpl in H.
      * injection H as <- <-. apply chan_recv_ok in E as (rest & Eb & ->).
        pose proof (wt_recv cfg sh lim x rest Eb) as T. now rewrite Er in T.
      * destruct (wg_done sh) eqn:Ew; try discriminate. simpl in H.
        injection H as <- <-. apply chan_recv_ok in E as (Eb & Ec & ->).
        apply wg_done_ok in Ew as (? & ->).
        pose proof (wt_exit cfg sh lim Eb Ec) as T. rewrite Er in T. now apply T.
Qed.

(** ** Every step of a pool is one of [trans] *)

Lemma lookup_split {A} (l : list A) i x y :
  l !! i = Some x ->
  exists l1 l2, l = l1 ++ x :: l2 /\ <[i := y]> l = l1 ++ y :: l2.
Proof.
  intros H. exists (take i l), (drop (S i) l). split.
  - symmetry. now apply take_drop_middle.
  - apply insert_take_drop. now apply lookup_lt_Some in H.
Qed.

Lemma step_trans cfg who t p p' :
  step cfg who t p = Ok p' -> now (shared p) <= t /\ trans cfg (tick t p) p'.
Proof.
  unfold step. destruct (t <? now (shared p)) eqn:Et; [discriminate|].
  apply Z.ltb_ge in Et. intros H. split; [exact Et|].
  destruct p as [sh pr cl mn col ws]. unfold tick. simpl in *.
  set (sh1 := set_now sh t) in *. clearbody sh1.
  destruct who; simpl in H.
  - unfold producer_step in H. destruct pr as [i|]; [|discriminate].
    destruct (i <=? numTasks cfg) eqn:Ei.
    + destruct (chan_send (tasks sh1) (mkTask i 0)) eqn:E; try discriminate.
      simpl in H. injection H as <-. apply chan_send_ok in E as (? & ? & ->).
      apply tr_send; auto; lia.
    + destruct (chan_close (tasks sh1)) eqn:E; try discriminate.
      simpl in H. injection H as <-. apply chan_close_ok in E as (? & ->).
      apply tr_close; auto; lia.
  - destruct (ws !! i) as [w|] eqn:Ew; [|discriminate].
    destruct (run_worker cfg sh1 w) as [[sh' w']| |] eqn:E; try discriminate.
    simpl in H. injection H as <-.
    destruct (lookup_split ws i w w' Ew) as (l1 & l2 & -> & ->).
    apply tr_worker. now apply run_worker_trans.
  - unfold closer_step in H. destruct cl; try discriminate.
    + unfold wg_wait in H. destruct (wg sh1 =? 0) eqn:E; [|discriminate].
      simpl in H. injection H as <-. apply tr_wait. lia.
    + destruct (chan_close (results sh1)) eqn:E; try discriminate.
      simpl in H. injection H as <-. apply chan_close_ok in E as (? & ->).
      now apply tr_close_results.
  - unfold collector_step in H. destruct mn; try discriminate.
    destruct (chan_recv (results sh1)) as [[[x|] c]| |] eqn:E; try discriminate;
      simpl in H; injection H as <-.
    + apply chan_recv_ok in E as (rest & Eb & ->). now apply tr_collect.
    + apply chan_recv_ok in E as (Eb & Ec & ->). now apply tr_done.
Qed.

(** ** The invariant of a pool *)

Lemma sumZ_app {A} (f : A -> Z) l1 l2 : sumZ f (l1 ++ l2) = sumZ f l1 + sumZ f l2.
Proof. induction l1; simpl; lia. Qed.

Lemma sumZ_nonneg {A} (f : A -> Z) l : (forall x, 0 <= f x) -> 0 <= sumZ f l.
Proof. intros H. induction l; simpl; [lia|]. specialize (H a). lia. Qed.

Lemma live_nonneg w : 0 <= live w.
Proof. unfold live. destruct (pc w); lia. Qed.

Lemma sumZ_live_zero ws : sumZ live ws = 0 -> Forall (fun w => pc w = Exited) ws.
Proof.
  induction ws as [|w ws IH]; simpl; intros H; constructor.
  - pose proof (sumZ_nonneg live ws live_nonneg).
    pose proof (live_nonneg w). assert (L : live w = 0) by lia.
    unfold live in L. destruct (pc w); (reflexivity || discriminate).
  - apply IH. pose proof (live_nonneg w).
    pose proof (sumZ_nonneg live ws live_nonneg). lia.
Qed.

Lemma exited_holds_nothing ws :
  Forall (fun w => pc w = Exited) ws ->
  flat_map held ws = [] /\ flat_map processed ws = [] /\ sumZ counted ws = 0.
Proof.
  induction 1 as [|w ws Hw _ (IH1 & IH2 & IH3)]; simpl; [auto|].
  rewrite IH1, IH2, IH3. unfold held, processed, counted. rewrite Hw. auto.
Qed.

Lemma Inv_tick cfg tp0 t p : Inv cfg tp0 p -> Inv cfg tp0 (tick t p).
Proof. intros []. constructor; assumption. Qed.

Lemma seqZ_snoc n : 0 <= n -> seqZ 1 (n + 1) = seqZ 1 n ++ [n + 1].
Proof.
  intros H. rewrite seqZ_app by lia. f_equal.
  rewrite seqZ_cons by lia. rewrite seqZ_nil by lia. f_equal. lia.
Qed.

Lemma exited_elsewhere (l1 l2 : list Worker) w w' :
  pc w' <> Exited ->
  (exists v, v ∈ l1 ++ w' :: l2 /\ pc v = Exited) ->
  exists v, v ∈ l1 ++ w :: l2 /\ pc v = Exited.
Proof.
  intros Hne (v & Hin & Hv). exists v. split; [|exact Hv].
  rewrite elem_of_app, elem_of_cons in *.
  destruct Hin as [?|[->|?]]; auto. contradiction.
Qed.

Ltac inv_fields :=
  constructor; simpl;
  rewrite ?flat_map_app, ?sumZ_app, ?Forall_app, ?Forall_cons; simpl;
  rewrite ?Forall_cons; auto;
  try (repeat split; first [assumption | now apply Forall_singleton]).

Section Preservation.
Variable cfg : Config.
Variable tp0 : Z.
Hypothesis N_range : 0 <= numTasks cfg < 2 ^ 62.

(** Every task in the system carries one of the identifiers sent so far. *)
Lemma Inv_id_range p x :
  Inv cfg tp0 p ->
  x ∈ buf (tasks (shared p)) ++ flat_map held (workers p)
      ++ buf (results (shared p)) ++ collected p ->
  1 <= ID x <= numTasks cfg.
Proof.
  intros I Hx.
  assert (Hin : ID x ∈ seqZ 1 (sent cfg (producer p))).
  { rewrite <- (inv_ids _ _ _ I). now apply list_elem_of_fmap_2. }
  apply elem_of_seqZ in Hin. pose proof (inv_prod _ _ _ I) as Hp.
  unfold sent in Hin. destruct (producer p); lia.
Qed.

Lemma process_doubled x : 1 <= ID x <= numTasks cfg -> doubled (process x).
Proof.
  intros H. unfold doubled, process. simpl.
  apply wrap_int_small. unfold int_min, int_max. lia.
Qed.

Lemma Inv_trans p p' : Inv cfg tp0 p -> trans cfg p p' -> Inv cfg tp0 p'.
Proof.
  intros I T. pose proof (Inv_id_range p) as Hrange. specialize (fun x => Hrange x I).
  destruct I as [Hcaps Hprod Hids Hres Hwg Hcl Hex Hmn Hcnt Hsh].
  destruct T as [sh i cl mn col ws Hi Hc Hlen | sh i cl mn col ws Hi Hc
                | sh pr mn col ws Hw | sh pr mn col ws Hc
                | sh pr cl col ws x rest Hb | sh pr cl col ws Hb Hc
                | sh pr cl mn col l1 w l2 sh' w' W]; simpl in *.
  - (* the sender puts task i on tasks *)
    assert (Ei : wrap_int (i + 1) = i + 1)
      by (apply wrap_int_small; unfold int_min, int_max; lia).
    constructor; simpl; auto.
    + rewrite Ei. split; [lia|reflexivity].
    + rewrite Ei. replace (i + 1 - 1) with (i - 1 + 1) by lia.
      rewrite seqZ_snoc by lia. replace (i - 1 + 1) with i by lia.
      etransitivity; [|apply Permutation_app; [exact Hids|reflexivity]].
      rewrite !fmap_app. simpl. solve_Permutation.
    + intros Hx. apply Hex in Hx as [? _]. congruence.
  - (* the sender closes tasks *)
    constructor; simpl; auto.
    + replace (numTasks cfg) with (i - 1) by lia. exact Hids.
    + intros Hx. apply Hex in Hx as [? _]. congruence.
  - (* the closer returns from wg.Wait() *)
    constructor; simpl; auto.
    intros ?; apply Hmn in H as [? _]; discriminate.
  - (* the closer closes results *)
    constructor; simpl; auto.
    + tauto.
    + intros ?; apply Hmn in H as [? _]; discriminate.
  - (* main receives a result *)
    unfold chan_len in *. rewrite Hb in *.
    constructor; simpl; auto.
    + rewrite <- Hids. rewrite !fmap_app, !fmap_cons. solve_Permutation.
    + rewrite !Forall_app, Forall_cons in Hres.
      rewrite !Forall_app, Forall_singleton. tauto.
    + discriminate.
    + rewrite Hcnt. f_equal. unfold chan_len. simpl. rewrite length_app. simpl. lia.
  - (* main leaves the loop *)
    constructor; simpl; auto.
    intros _. split; [|exact Hb].
    destruct cl; [congruence | destruct Hcl; congruence | reflexivity].
  - (* a worker *)
    assert (Hheld : forall x, x ∈ held w -> 1 <= ID x <= numTasks cfg).
    { intros x Hx. apply Hrange. rewrite flat_map_app. simpl.
      rewrite !elem_of_app. auto. }
    clear Hrange.
    rewrite flat_map_app in Hids, Hres. rewrite sumZ_app in Hwg, Hcnt.
    simpl in Hids, Hres, Hwg, Hcnt.
    rewrite Forall_app, Forall_cons in Hsh. destruct Hsh as (Hs1 & Hsw & Hs2).
    rewrite !Forall_app in Hres. destruct Hres as ((Hr1 & Hrw & Hr2) & Hrr & Hrc).
    assert (Hex' : forall u, pc u <> Exited ->
              (exists v, v ∈ l1 ++ u :: l2 /\ pc v = Exited) ->
              closed (tasks sh) = true /\ buf (tasks sh) = []).
    { intros u Hne Hx. apply Hex. eapply exited_elsewhere; eauto. }
    assert (Hwf : forall p1 p2 lim, wf_worker cfg (mkWorker p1 lim) ->
              p1 <> AtEntry -> p1 <> Exited -> (forall x, p2 <> AtLimiter x) ->
              wf_worker cfg (mkWorker p2 lim)).
    { unfold wf_worker. simpl. intros p1 p2 lim0 H ? ? ?. destruct (rate cfg); [|assumption].
      destruct H as [?|[?|?]]; try contradiction. auto. }
    destruct W as [lim Hr | lim r d Hr Hr0 Hd Hdpos | lim x rest Hb | lim Hb Hc Hw1
                  | x tk tk' r Hr Htk | x lim | x start lim Hnap | x start lim
                  | x start lim | x lim Hc Hlen]; simpl in *.
    + (* defer wg.Done() *)
      inv_fields; try (apply Hex'; discriminate).
      * repeat split; try assumption.
        unfold wf_worker. rewrite Hr. simpl. discriminate.
    + (* time.NewTicker *)
      inv_fields; try (apply Hex'; discriminate).
      * repeat split; try assumption.
        unfold wf_worker. rewrite Hr. simpl. right. right. eauto.
    + (* a task is received *)
      rewrite Hb in *.
      assert (Ewf : wf_worker cfg
                (mkWorker (match rate cfg with Some _ => AtLimiter x | None => AtNow x end) lim)).
      { unfold wf_worker in *. simpl in *. destruct (rate cfg); [|discriminate].
        destruct Hsw as [?|[?|?]]; try discriminate; auto. }
      destruct (rate cfg) eqn:Er; inv_fields.
      all: try (rewrite <- Hids; rewrite !fmap_app, !fmap_cons; solve_Permutation).
      all: intros Hx; apply Hex' in Hx as [_ ?]; [discriminate|simpl; discriminate].
    + (* tasks is closed and drained: the worker exits *)
      inv_fields; try (apply Hex'; discriminate).
      * lia.
      * destruct cl; [assumption|destruct Hcl; lia|destruct Hcl; lia].
      * repeat split; try assumption.
        unfold wf_worker. simpl. destruct (rate cfg); [auto|discriminate].
    + (* <-limiter.C *)
      inv_fields; try (apply Hex'; discriminate).
      * repeat split; try assumption.
        unfold wf_worker in *. simpl in *. rewrite Hr in *. right. right.
        destruct Hsw as [?|[?|(tk0 & [= <-] & Hp)]]; try discriminate.
        exists tk'. split; [reflexivity|].
        unfold ticker_recv in Htk. destruct (ready tk <=? now sh); [|discriminate].
        injection Htk as <-. exact Hp.
    + (* start := time.Now() *)
      inv_fields; try (apply Hex'; discriminate).
      * repeat split; try assumption. eapply Hwf; eauto; discriminate.
    + (* time.Sleep; task.Result = task.ID * 2 *)
      inv_fields; try (apply Hex'; discriminate).
      * rewrite <- Hids. rewrite !fmap_app, !fmap_cons. reflexivity.
      * repeat split; try assumption. apply process_doubled. apply Hheld. apply list_elem_of_singleton. reflexivity.
      * repeat split; try assumption. eapply Hwf; eauto; discriminate.
    + (* atomic.AddUint64(&stats.tasksProcessed, 1) *)
      inv_fields; try (apply Hex'; discriminate).
      * rewrite Hcnt. unfold wrap_uint64. rewrite Zplus_mod_idemp_l. f_equal. lia.
      * repeat split; try assumption. eapply Hwf; eauto; discriminate.
    + (* atomic.AddInt64(&stats.totalTime, ..) *)
      inv_fields; try (apply Hex'; discriminate).
      * repeat split; try assumption. eapply Hwf; eauto; discriminate.
    + (* results <- task *)
      inv_fields; try (apply Hex'; discriminate).
      * rewrite <- Hids. rewrite !fmap_app, !fmap_cons. solve_Permutation.
      * rewrite Forall_cons in Hrw. repeat split; tauto.
      * destruct cl; [reflexivity|exfalso|exfalso]; destruct Hcl as [_ Hz];
          pose proof (sumZ_nonneg live l1 live_nonneg);
          pose proof (sumZ_nonneg live l2 live_nonneg); lia.
      * intros Hm. apply Hmn in Hm as [-> _]. destruct Hcl; congruence.
      * rewrite Hcnt. f_equal. unfold chan_len. simpl. rewrite length_app. simpl. lia.
      * repeat split; try assumption. eapply Hwf; eauto; discriminate.
Qed.
End Preservation.

(** ** The invariant holds from the start *)

Lemma spawn_spec n sh ws :
  spawn n sh ws =
  (set_wg sh (wg sh + Z.of_nat n), ws ++ replicate n (mkWorker AtEntry None)).
Proof.
  revert sh ws. induction n as [|n IH]; intros sh ws.
  - simpl. rewrite Z.add_0_r, app_nil_r. now destruct sh.
  - cbn [spawn]. rewrite IH. unfold set_wg. simpl. f_equal.
    + f_equal. lia.
    + now rewrite <- app_assoc.
Qed.

Lemma Start_ok cfg st t0 p0 :
  Start cfg st t0 = Ok p0 ->
  0 <= numTasks cfg /\ p0 = setup cfg st t0 /\
  p0 = mkPool (mkShared (make_chan (numTasks cfg)) (make_chan (numTasks cfg)) st
                        (Z.of_nat (Z.to_nat (numWorkers cfg))) t0)
              (PSend 1) CWait MRange []
              (replicate (Z.to_nat (numWorkers cfg)) (mkWorker AtEntry None)).
Proof.
  unfold Start, setup. destruct (numTasks cfg <? 0) eqn:E; [discriminate|].
  intros [= <-]. rewrite spawn_spec. simpl. split; [lia|split; reflexivity].
Qed.

Lemma fresh_workers n :
  let ws := replicate n (mkWorker AtEntry None) in
  flat_map held ws = [] /\ flat_map processed ws = [] /\
  sumZ live ws = Z.of_nat n /\ sumZ counted ws = 0 /\
  forall w, w ∈ ws -> pc w = AtEntry.
Proof.
  induction n as [|n (IH1 & IH2 & IH3 & IH4 & IH5)]; simpl.
  - repeat split; auto. intros w Hw. now apply elem_of_nil in Hw.
  - rewrite IH1, IH2, IH3, IH4. repeat split; auto; [lia|].
    intros w Hw. apply elem_of_cons in Hw as [->|Hw]; auto.
Qed.

Lemma Inv_Start cfg st t0 p0 :
  0 <= tasksProcessed st < 2 ^ 64 ->
  Start cfg st t0 = Ok p0 -> Inv cfg (tasksProcessed st) p0.
Proof.
  intros Hst H. apply Start_ok in H as (HN & _ & ->).
  destruct (fresh_workers (Z.to_nat (numWorkers cfg))) as (E1 & E2 & E3 & E4 & E5).
  constructor; simpl; auto.
  - split; [lia|reflexivity].
  - rewrite E1. simpl. reflexivity.
  - rewrite E2. constructor.
  - intros (w & Hw & Hpc). apply E5 in Hw. congruence.
  - discriminate.
  - rewrite E4. unfold chan_len. simpl. rewrite wrap_uint64_small; lia.
  - apply Forall_forall. intros w Hw. apply E5 in Hw.
    unfold wf_worker. rewrite Hw. destruct (rate cfg); [auto|discriminate].
Qed.

Section Runs.
Variable cfg : Config.
Variable st : WorkerStats.
Variable t0 : Z.
Variable p0 : Pool.
Hypothesis N_range : 0 <= numTasks cfg < 2 ^ 62.
Hypothesis st_range : 0 <= tasksProcessed st < 2 ^ 64.
Hypothesis started : Start cfg st t0 = Ok p0.

Lemma Inv_step who t p p' :
  Inv cfg (tasksProcessed st) p -> step cfg who t p = Ok p' ->
  Inv cfg (tasksProcessed st) p'.
Proof.
  intros I H. apply step_trans in H as [_ T].
  apply (Inv_trans cfg _ N_range (tick t p) p'); [now apply Inv_tick|exact T].
Qed.

Lemma Inv_runs p : runs cfg p0 p -> Inv cfg (tasksProcessed st) p.
Proof.
  induction 1 as [|q who t q' _ IH Hs].
  - now apply Inv_Start with t0.
  - eapply Inv_step; eauto.
Qed.
End Runs.

Lemma run_runs cfg sched p p' : run cfg sched p = Ok p' -> runs cfg p p'.
Proof.
  assert (G : forall q, runs cfg p q -> run cfg sched q = Ok p' -> runs cfg p p').
  { induction sched as [|[who t] rest IH]; simpl; intros q Hq H.
    - now injection H as <-.
    - destruct (step cfg who t q) as [q'| |] eqn:E; try discriminate.
      simpl in H. eapply IH; [|exact H]. eapply runs_step; eauto. }
  apply G. constructor.
Qed.

Lemma runs_trans cfg p q r : runs cfg p q -> runs cfg q r -> runs cfg p r.
Proof. intros H1 H2. induction H2; [assumption|]. eapply runs_step; eauto. Qed.

(** ** No panic and no deadlock *)

Lemma period_of_rate r :
  1 <= r <= Second -> wrap_int (Z.quot Second r) = Second / r /\ 0 < Second / r <= Second.
Proof.
  intros H. rewrite Z.quot_div_nonneg by (unfold Second in *; lia).
  assert (0 < Second / r) by (apply Z.div_str_pos; lia).
  assert (Second / r <= Second).
  { apply Z.div_le_upper_bound; [lia|]. unfold Second in *. nia. }
  split; [|lia]. apply wrap_int_small. unfold int_min, int_max, Second in *. lia.
Qed.

Lemma live_le_sum ws i w : ws !! i = Some w -> live w <= sumZ live ws.
Proof.
  revert i. induction ws as [|v ws IH]; intros [|i] H; try discriminate; simpl in *.
  - injection H as ->. pose proof (sumZ_nonneg live ws live_nonneg). lia.
  - apply IH in H. pose proof (live_nonneg v). lia.
Qed.

Lemma held_le_flat ws i w :
  ws !! i = Some w -> (length (held w) <= length (flat_map held ws))%nat.
Proof.
  revert i. induction ws as [|v ws IH]; intros [|i] H; try discriminate; simpl in *.
  - injection H as ->. rewrite length_app. lia.
  - apply IH in H. rewrite length_app. lia.
Qed.

Lemma some_worker_live ws :
  Forall (fun w => pc w = Exited) ws \/ exists i w, ws !! i = Some w /\ pc w <> Exited.
Proof.
  induction ws as [|v ws [IH|(i & w & Hi & Hw)]].
  - left. constructor.
  - destruct (pc v) eqn:E; try (right; exists 0%nat, v; split; [reflexivity|congruence]).
    left. now constructor.
  - right. exists (S i), w. auto.
Qed.

Section Progress.
Variable cfg : Config.
Variable tp0 : Z.
Hypothesis rate_valid : rate_ok cfg.

(** The number of tasks in the system is the number of tasks sent. *)
Lemma Inv_length p :
  Inv cfg tp0 p ->
  chan_len (tasks (shared p)) + Z.of_nat (length (flat_map held (workers p)))
  + chan_len (results (shared p)) + Z.of_nat (length (collected p))
  = Z.max 0 (sent cfg (producer p)).
Proof.
  intros I. pose proof (inv_ids _ _ _ I) as H.
  apply Permutation_length in H.
  rewrite length_fmap, !length_app, length_seqZ in H. unfold chan_len. lia.
Qed.

Lemma worker_can_step sh w :
  wf_worker cfg w -> pc w <> Exited ->
  (pc w = AtRange -> buf (tasks sh) <> [] \/ closed (tasks sh) = true) ->
  1 <= wg sh ->
  closed (results sh) = false ->
  (forall x, pc w = AtSend x -> chan_len (results sh) < cap (results sh)) ->
  exists t r, now sh <= t /\ run_worker cfg (set_now sh t) w = Ok r.
Proof.
  intros Hwf Hne Hrange Hwg Hcl Hsend. destruct w as [p lim].
  unfold wf_worker, run_worker, rate_ok in *. simpl in *.
  assert (Hdone : exists s, wg_done (set_now sh (now sh)) = Ok s).
  { unfold wg_done, wg_add. simpl. destruct (wg sh + -1 <? 0) eqn:E; [lia|eauto]. }
  assert (Hrecv : p = AtRange ->
            (exists x c, chan_recv (tasks sh) = Ok (Some x, c)) \/
            (exists c, chan_recv (tasks sh) = Ok (None, c))).
  { intros Hp. unfold chan_recv. destruct (buf (tasks sh)) as [|x rest] eqn:Eb.
    - destruct (Hrange Hp) as [? | ->]; [congruence|]. right. eauto.
    - left. eauto. }
  assert (Hbody : forall n, (forall x, p <> AtLimiter x) -> p <> AtEntry -> p <> AtRange ->
            exists t r, now sh <= t /\
              loop_body n (set_now sh t) (mkWorker p lim) = Ok r).
  { intros n H1 H2 H3. unfold loop_body. simpl.
    destruct p; try congruence.
    - exists (now sh). eexists. split; [lia|reflexivity].
    - exists (Z.max (now sh) (start + n)). eexists. split; [lia|].
      destruct (start + n <=? Z.max (now sh) (start + n)) eqn:E; [reflexivity|lia].
    - exists (now sh). eexists. split; [lia|reflexivity].
    - exists (now sh). eexists. split; [lia|reflexivity].
    - exists (now sh). eexists. split; [lia|].
      unfold chan_send. simpl. rewrite Hcl.
      specialize (Hsend task eq_refl).
      destruct (chan_len (results sh) <? cap (results sh)) eqn:E; [reflexivity|lia]. }
  destruct (rate cfg) as [r|].
  - unfold rateLimitedWorker. simpl.
    destruct p; try (apply Hbody; congruence); try congruence.
    + exists (now sh). destruct (period_of_rate r rate_valid) as (E & Hpos & _).
      unfold duration_div, NewTicker. destruct (r =? 0) eqn:E0; [lia|]. simpl.
      destruct (wrap_int (Second ÷ r) <=? 0) eqn:E1; [lia|]. simpl.
      eexists. split; [lia|reflexivity].
    + exists (now sh). simpl. destruct (Hrecv eq_refl) as [(x & c & ->)|(c & ->)]; simpl.
      * eexists. split; [lia|reflexivity].
      * destruct Hdone as (s & ->). simpl. eexists. split; [lia|reflexivity].
    + destruct Hwf as [?|[?|(tk & -> & Hp)]]; try discriminate.
      exists (Z.max (now sh) (ready tk)). unfold ticker_recv. simpl.
      destruct (ready tk <=? Z.max (now sh) (ready tk)) eqn:E; [|lia].
      simpl. eexists. split; [lia|reflexivity].
  - unfold worker. simpl.
    destruct p; try (apply Hbody; congruence); try congruence.
    + exists (now sh). eexists. split; [lia|reflexivity].
    + exists (now sh). simpl. destruct (Hrecv eq_refl) as [(x & c & ->)|(c & ->)]; simpl.
      * eexists. split; [lia|reflexivity].
      * destruct Hdone as (s & ->). simpl. eexists. split; [lia|reflexivity].
Qed.
Lemma all_exited_live ws : Forall (fun w => pc w = Exited) ws -> sumZ live ws = 0.
Proof.
  induction 1 as [|w ws Hw _ IH]; simpl; [reflexivity|].
  rewrite IH. unfold live. now rewrite Hw.
Qed.

Lemma sent_le p : Inv cfg tp0 p -> sent cfg (producer p) <= numTasks cfg.
Proof.
  intros I. pose proof (inv_prod _ _ _ I) as H. unfold sent.
  destruct (producer p); lia.
Qed.

(** A pool that has not completed can always take a step: no deadlock. *)
Lemma pool_progress p :
  0 <= numTasks cfg -> Inv cfg tp0 p -> ~ completed p ->
  exists who t p', step cfg who t p = Ok p'.
Proof.
  intros HN I Hnc. pose proof (Inv_length p I) as Hlen. pose proof (sent_le p I) as Hsent.
  destruct I as [Hcaps Hprod Hids Hres Hwg Hcl Hex Hmn Hcnt Hsh].
  destruct p as [sh pr cl mn col ws]. unfold completed in Hnc. simpl in *.
  assert (Hnow : (now sh <? now sh) = false) by lia.
  destruct (some_worker_live ws) as [Hall|(i & w & Hi & Hw)].
  - (* every worker has exited *)
    apply all_exited_live in Hall. rewrite Hall in Hwg.
    destruct cl.
    + exists ACloser, (now sh). unfold step. simpl. rewrite Hnow.
      unfold wg_wait. simpl. rewrite Hwg. simpl. eauto.
    + exists ACloser, (now sh). unfold step. simpl. rewrite Hnow.
      unfold chan_close. simpl. destruct Hcl as [-> _]. simpl. eauto.
    + destruct mn; [|congruence].
      exists ACollector, (now sh). unfold step. simpl. rewrite Hnow.
      unfold chan_recv. simpl. destruct Hcl as [-> _].
      destruct (buf (results sh)); simpl; eauto.
  - (* some worker is still running *)
    assert (Hlive : 1 <= wg sh).
    { pose proof (live_le_sum ws i w Hi). unfold live in *.
      destruct (pc w); (congruence || lia). }
    assert (Hres_open : closed (results sh) = false).
    { destruct cl; [assumption|lia|lia]. }
    destruct (pc w) eqn:Epc; try congruence.
    2: destruct (buf (tasks sh)) as [|x0 rest] eqn:Eb;
         [destruct (closed (tasks sh)) eqn:Ec|].
    3: { (* the worker waits for a task that has not been sent yet *)
      destruct pr as [j|]; [|congruence]. destruct Hprod as [Hj _].
      exists AProducer, (now sh). unfold step. simpl. rewrite Hnow. simpl.
      destruct (j <=? numTasks cfg) eqn:Ej.
      - unfold chan_send. simpl. rewrite Ec.
        destruct (chan_len (tasks sh) <? cap (tasks sh)) eqn:El; simpl; eauto.
        exfalso. destruct Hcaps as [Hc1 _]. unfold chan_len, sent in *. lia.
      - unfold chan_close. simpl. rewrite Ec. simpl. eauto. }
    all: destruct (worker_can_step sh w) as (t & r & Ht & Hr);
      [ eapply Forall_lookup_1; eauto | congruence
      | rewrite Epc; intros; try discriminate; rewrite ?Eb, ?Ec; auto; left; discriminate
      | assumption | assumption
      | rewrite Epc; intros y [= <-]
      | exists (AWorker i), t; unfold step; simpl;
        destruct (t <? now sh) eqn:E; [lia|]; rewrite Hi, Hr; simpl; eauto ].
    pose proof (held_le_flat ws i w Hi) as Hh.
    assert (Eh : held w = [task]) by (unfold held; now rewrite Epc).
    rewrite Eh in Hh. simpl in Hh.
    destruct Hcaps as [_ ->]. unfold chan_len in *. lia.
Qed.

Lemma worker_no_panic sh w :
  wf_worker cfg w ->
  (pc w <> Exited -> 1 <= wg sh /\ closed (results sh) = false) ->
  is_panic (run_worker cfg sh w) = false.
Proof.
  intros Hwf Hlive. destruct w as [p lim].
  unfold wf_worker, run_worker, rate_ok in *. simpl in *.
  assert (Hdone : p <> Exited -> exists s, wg_done sh = Ok s).
  { intros H. apply Hlive in H as [? _].
    unfold wg_done, wg_add. destruct (wg sh + -1 <? 0) eqn:E; [lia|eauto]. }
  assert (Hbody : forall n, is_panic (loop_body n sh (mkWorker p lim)) = false).
  { intros n. unfold loop_body. simpl. destruct p; try reflexivity.
    - now destruct (start + n <=? now sh).
    - unfold chan_send. destruct Hlive as [_ ->]; [discriminate|].
      now destruct (chan_len (results sh) <? cap (results sh)). }
  assert (Hrecv : p = AtRange ->
            (exists x c, chan_recv (tasks sh) = Ok (Some x, c)) \/
            (exists c, chan_recv (tasks sh) = Ok (None, c)) \/
            chan_recv (tasks sh) = Blocked).
  { intros _. unfold chan_recv. destruct (buf (tasks sh)); [|eauto].
    destruct (closed (tasks sh)); eauto. }
  destruct (rate cfg) as [r|].
  - unfold rateLimitedWorker. simpl. destruct p; try apply Hbody; try reflexivity.
    + destruct (period_of_rate r rate_valid) as (E & Hpos & _).
      unfold duration_div, NewTicker. destruct (r =? 0) eqn:E0; [lia|]. simpl.
      destruct (wrap_int (Second ÷ r) <=? 0) eqn:E1; [lia|]. reflexivity.
    + destruct (Hrecv eq_refl) as [(x & c & ->)|[(c & ->)| ->]]; simpl; auto.
      destruct Hdone as (s & ->); [discriminate|reflexivity].
    + destruct lim as [tk|]; [|reflexivity].
      unfold ticker_recv. now destruct (ready tk <=? now sh).
  - unfold worker. simpl. destruct p; try apply Hbody; try reflexivity.
    destruct (Hrecv eq_refl) as [(x & c & ->)|[(c & ->)| ->]]; simpl; auto.
    destruct Hdone as (s & ->); [discriminate|reflexivity].
Qed.

(** No step of a pool panics. *)
Lemma pool_no_panic p who t :
  Inv cfg tp0 p -> is_panic (step cfg who t p) = false.
Proof.
  intros [Hcaps Hprod Hids Hres Hwg Hcl Hex Hmn Hcnt Hsh].
  destruct p as [sh pr cl mn col ws]. unfold step. simpl in *.
  destruct (t <? now sh); [reflexivity|].
  destruct who; simpl.
  - destruct pr as [j|]; [|reflexivity]. simpl. destruct Hprod as [_ Hc].
    destruct (j <=? numTasks cfg).
    + unfold chan_send. simpl. rewrite Hc.
      now destruct (chan_len (tasks sh) <? cap (tasks sh)).
    + unfold chan_close. simpl. now rewrite Hc.
  - destruct (ws !! i) as [w|] eqn:Hi; [|reflexivity].
    pose proof (worker_no_panic (set_now sh t) w) as H.
    destruct (run_worker cfg (set_now sh t) w); try reflexivity.
    apply H.
    + eapply Forall_lookup_1; eauto.
    + intros Hne. simpl.
      assert (1 <= wg sh).
      { pose proof (live_le_sum ws i w Hi). unfold live in *.
        destruct (pc w); (congruence || lia). }
      split; [assumption|]. destruct cl; [assumption|lia|lia].
  - destruct cl; simpl; try reflexivity.
    + unfold wg_wait. simpl. now destruct (wg sh =? 0).
    + unfold chan_close. simpl. now destruct Hcl as [-> _].
  - destruct mn; simpl; [|reflexivity].
    unfold chan_recv. simpl. destruct (buf (results sh)); [|reflexivity].
    now destruct (closed (results sh)).
Qed.
End Progress.

(** ** Termination

    [remaining] bounds the number of steps a pool can still take: every step
    makes it smaller, and it is never negative. *)

Lemma wweight_nonneg w : 0 <= wweight w.
Proof. unfold wweight. destruct (pc w); lia. Qed.

Section Termination.
Variable cfg : Config.
Variable tp0 : Z.
Hypothesis N_range : 0 <= numTasks cfg < 2 ^ 62.
Hypothesis rate_valid : rate_ok cfg.

Lemma remaining_nonneg p : Inv cfg tp0 p -> 0 <= remaining cfg p.
Proof.
  intros I. pose proof (inv_prod _ _ _ I) as Hp. unfold remaining, chan_len.
  pose proof (sumZ_nonneg wweight (workers p) wweight_nonneg).
  destruct (producer p), (closer p), (collector p); lia.
Qed.

Lemma remaining_trans p p' :
  Inv cfg tp0 p -> trans cfg p p' -> remaining cfg p' < remaining cfg p.
Proof.
  intros I T. pose proof (inv_prod _ _ _ I) as Hp.
  destruct T as [sh i cl mn col ws Hi Hc Hlen | sh i cl mn col ws Hi Hc
                | sh pr mn col ws Hw | sh pr mn col ws Hc
                | sh pr cl col ws x rest Hb | sh pr cl col ws Hb Hc
                | sh pr cl mn col l1 w l2 sh' w' W];
    unfold remaining, chan_len; simpl in *.
  - rewrite wrap_int_small by (unfold int_min, int_max; lia).
    rewrite length_app. simpl. lia.
  - lia.
  - lia.
  - lia.
  - rewrite Hb. simpl. lia.
  - lia.
  - rewrite !sumZ_app. simpl.
    destruct W; simpl; rewrite ?length_app; simpl; try lia.
    + rewrite H. simpl. destruct (rate cfg); simpl; lia.
Qed.

Lemma remaining_step who t p p' :
  Inv cfg tp0 p -> step cfg who t p = Ok p' -> remaining cfg p' < remaining cfg p.
Proof.
  intros I H. apply step_trans in H as [_ T].
  apply remaining_trans in T; [|now apply Inv_tick]. exact T.
Qed.

(** Every execution is finite, with an explicit bound on its length. *)
Lemma run_bounded sched p p' :
  Inv cfg tp0 p -> run cfg sched p = Ok p' ->
  remaining cfg p' + Z.of_nat (length sched) <= remaining cfg p.
Proof.
  revert p. induction sched as [|[who t] rest IH]; simpl; intros p I H.
  - injection H as <-. lia.
  - destruct (step cfg who t p) as [q| |] eqn:E; try discriminate. simpl in H.
    pose proof (remaining_step _ _ _ _ I E).
    assert (Iq : Inv cfg tp0 q).
    { apply step_trans in E as [_ T].
      apply (Inv_trans cfg _ N_range (tick t p) q); [now apply Inv_tick|exact T]. }
    specialize (IH q Iq H). lia.
Qed.

(** Every pool state can be run to completion. *)
Lemma run_to_completion p :
  Inv cfg tp0 p -> exists sched p', run cfg sched p = Ok p' /\ completed p'.
Proof.
  intros I.
  assert (G : forall n q, Inv cfg tp0 q -> remaining cfg q <= Z.of_nat n ->
              exists sched q', run cfg sched q = Ok q' /\ completed q').
  { induction n as [|n IH]; intros q Iq Hq.
    - destruct (collector q) eqn:Ec; [|exists [], q; auto].
      destruct (pool_progress cfg tp0 rate_valid q) as (who & t & q' & Hs);
        [lia|assumption|unfold completed; congruence|].
      pose proof (remaining_step _ _ _ _ Iq Hs).
      assert (Iq' : Inv cfg tp0 q').
      { apply step_trans in Hs as [_ T].
        apply (Inv_trans cfg _ N_range (tick t q) q'); [now apply Inv_tick|exact T]. }
      pose proof (remaining_nonneg q' Iq'). lia.
    - destruct (collector q) eqn:Ec; [|exists [], q; auto].
      destruct (pool_progress cfg tp0 rate_valid q) as (who & t & q' & Hs);
        [lia|assumption|unfold completed; congruence|].
      pose proof (remaining_step _ _ _ _ Iq Hs).
      assert (Iq' : Inv cfg tp0 q').
      { apply step_trans in Hs as [_ T].
        apply (Inv_trans cfg _ N_range (tick t q) q'); [now apply Inv_tick|exact T]. }
      destruct (IH q' Iq') as (sched & q'' & Hr & Hc); [lia|].
      exists ((who, t) :: sched), q''. simpl. rewrite Hs. simpl. auto. }
  apply (G (Z.to_nat (remaining cfg p)) p I).
  pose proof (remaining_nonneg p I). lia.
Qed.
End Termination.

(** ** What a completed pool has collected *)

Lemma doubled_rebuild l :
  Forall doubled l -> l = (fun i => mkTask i (i * 2)) <$> (ID <$> l).
Proof.
  induction 1 as [|x l Hx _ IH]; [reflexivity|].
  rewrite !fmap_cons, <- IH. f_equal. destruct x as [i r]. unfold doubled in Hx.
  simpl in *. now rewrite Hx.
Qed.

Lemma ID_expected n : ID <$> expected n = seqZ 1 n.
Proof.
  unfold expected. induction (seqZ 1 n) as [|i l IH]; [reflexivity|].
  rewrite !fmap_cons, IH. reflexivity.
Qed.

Lemma step_workers_length cfg who t p p' :
  step cfg who t p = Ok p' -> length (workers p') = length (workers p).
Proof.
  intros H. apply step_trans in H as [_ T].
  change (workers p) with (workers (tick t p)). generalize dependent (tick t p).
  intros q T. destruct T; simpl; try reflexivity. rewrite !length_app. reflexivity.
Qed.

Lemma runs_workers_length cfg p p' :
  runs cfg p p' -> length (workers p') = length (workers p).
Proof.
  induction 1 as [|q who t q' _ IH Hs]; [reflexivity|].
  rewrite <- IH. eapply step_workers_length; eauto.
Qed.

Section Completion.
Variable cfg : Config.
Variable tp0 : Z.

(** Once [results] is closed, every worker has exited and holds nothing. *)
Lemma closed_results_all_exited p :
  Inv cfg tp0 p -> closed (results (shared p)) = true ->
  Forall (fun w => pc w = Exited) (workers p).
Proof.
  intros I Hc. apply sumZ_live_zero. rewrite <- (inv_wg _ _ _ I).
  pose proof (inv_closer _ _ _ I) as H. destruct (closer p); [congruence| |]; tauto.
Qed.

Lemma completed_collected p :
  Inv cfg tp0 p -> (0 < length (workers p))%nat -> completed p ->
  collected p ≡ₚ expected (numTasks cfg) /\
  producer p = PDone /\ closer p = CDone /\
  buf (tasks (shared p)) = [] /\ buf (results (shared p)) = [] /\
  Forall (fun w => pc w = Exited) (workers p).
Proof.
  intros I Hlen Hdone. pose proof (inv_main _ _ _ I Hdone) as [Hcl Hrb].
  pose proof (inv_closer _ _ _ I) as Hc. rewrite Hcl in Hc. destruct Hc as [Hc _].
  pose proof (closed_results_all_exited p I Hc) as Hall.
  destruct (exited_holds_nothing _ Hall) as (Eh & Ep & _).
  assert (Ht : closed (tasks (shared p)) = true /\ buf (tasks (shared p)) = []).
  { apply (inv_exit _ _ _ I). destruct (workers p) as [|w ws]; [simpl in Hlen; lia|].
    exists w. split; [apply elem_of_cons; auto|]. now inversion Hall. }
  destruct Ht as [Htc Htb].
  assert (Hp : producer p = PDone).
  { pose proof (inv_prod _ _ _ I) as H. destruct (producer p); [|reflexivity].
    destruct H. congruence. }
  repeat split; auto.
  pose proof (inv_ids _ _ _ I) as Hids. pose proof (inv_res _ _ _ I) as Hres.
  rewrite Htb, Eh, Hrb, Hp in Hids. rewrite Ep, Hrb in Hres. simpl in *.
  rewrite (doubled_rebuild _ Hres). unfold expected. now rewrite Hids.
Qed.
End Completion.

(** ** The pool collects every task exactly once *)

(** C1.  A pool of [numWorkers >= 1] workers started on [numTasks >= 0] tasks
    never panics and never deadlocks, every execution is finite (at most
    [10 * numTasks + 2 * numWorkers + 4] steps) and can be continued to
    completion, at every moment each task sent so far is in exactly one place
    (queued, held by one worker, in the result queue or collected), and at
    completion the collected results are exactly the [numTasks] tasks, each
    once; with no task the pool completes with no result. *)
Theorem pool_collects_every_task cfg st t0 p0 :
  0 <= numTasks cfg < 2 ^ 62 ->
  1 <= numWorkers cfg ->
  rate_ok cfg ->
  0 <= tasksProcessed st < 2 ^ 64 ->
  Start cfg st t0 = Ok p0 ->
  (forall p, runs cfg p0 p ->
     (forall who t, is_panic (step cfg who t p) = false) /\
     (~ completed p -> exists who t p', step cfg who t p = Ok p') /\
     (exists sched p', run cfg sched p = Ok p' /\ completed p') /\
     ID <$> (buf (tasks (shared p)) ++ flat_map held (workers p)
             ++ buf (results (shared p)) ++ collected p)
       ≡ₚ seqZ 1 (sent cfg (producer p)) /\
     (completed p ->
        collected p ≡ₚ expected (numTasks cfg) /\
        Z.of_nat (length (collected p)) = numTasks cfg /\
        NoDup (ID <$> collected p) /\
        (numTasks cfg = 0 -> collected p = []))) /\
  (forall sched p, run cfg sched p0 = Ok p ->
     Z.of_nat (length sched) <= 10 * numTasks cfg + 2 * numWorkers cfg + 4).
Proof.
  intros HN HW Hrate Hst Hstart.
  pose proof (Inv_Start cfg st t0 p0 Hst Hstart) as I0.
  pose proof (Start_ok _ _ _ _ Hstart) as (_ & _ & E0).
  split.
  - intros p Hruns.
    pose proof (Inv_runs cfg st t0 p0 HN Hst Hstart p Hruns) as I.
    repeat split.
    + intros who t. now apply pool_no_panic with (tasksProcessed st).
    + apply pool_progress with (tasksProcessed st); auto; lia.
    + now apply run_to_completion with (tasksProcessed st).
    + apply (inv_ids _ _ _ I).
    + apply (completed_collected cfg _ p I); [|assumption].
      rewrite (runs_workers_length _ _ _ Hruns), E0. simpl.
      rewrite length_replicate. lia.
    + assert (Hc : collected p ≡ₚ expected (numTasks cfg)).
      { apply (completed_collected cfg _ p I); [|assumption].
        rewrite (runs_workers_length _ _ _ Hruns), E0. simpl.
        rewrite length_replicate. lia. }
      apply Permutation_length in Hc. rewrite Hc. unfold expected.
      rewrite length_fmap, length_seqZ. lia.
    + assert (Hc : collected p ≡ₚ expected (numTasks cfg)).
      { apply (completed_collected cfg _ p I); [|assumption].
        rewrite (runs_workers_length _ _ _ Hruns), E0. simpl.
        rewrite length_replicate. lia. }
      rewrite Hc, ID_expected. apply NoDup_seqZ.
    + intros HN0.
      assert (Hc : collected p ≡ₚ expected (numTasks cfg)).
      { apply (completed_collected cfg _ p I); [|assumption].
        rewrite (runs_workers_length _ _ _ Hruns), E0. simpl.
        rewrite length_replicate. lia. }
      rewrite HN0 in Hc. now apply Permutation_nil_r in Hc.
  - intros sched p Hrun.
    pose proof (run_bounded cfg _ HN sched p0 p I0 Hrun) as Hb.
    assert (Ip : Inv cfg (tasksProcessed st) p).
    { apply (Inv_runs cfg st t0 p0 HN Hst Hstart). now apply run_runs in Hrun. }
    pose proof (remaining_nonneg cfg _ p Ip).
    assert (E : remaining cfg p0 = 10 * numTasks cfg + 2 * numWorkers cfg + 4).
    { rewrite E0. unfold remaining, chan_len. simpl.
      assert (G : forall n, sumZ wweight (replicate n (mkWorker AtEntry None))
                            = 2 * Z.of_nat n).
      { induction n as [|n IH]; simpl; [reflexivity|]. rewrite IH. lia. }
      rewrite G. lia. }
    lia.
Qed.

Lemma pool_collects_every_task_witness :
  (0 <= numTasks basicPool < 2 ^ 62 /\ 1 <= numWorkers basicPool /\
   rate_ok basicPool /\ 0 <= tasksProcessed freshStats < 2 ^ 64 /\
   Start basicPool freshStats 0 = Ok (setup basicPool freshStats 0)) /\
  (forall p, runs basicPool (setup basicPool freshStats 0) p -> completed p ->
     collected p ≡ₚ expected 10) /\
  (forall sched p, run basicPool sched (setup basicPool freshStats 0) = Ok p ->
     Z.of_nat (length sched) <= 110).
Proof.
  assert (H1 : 0 <= numTasks basicPool < 2 ^ 62) by (simpl; lia).
  assert (H2 : 1 <= numWorkers basicPool) by (simpl; lia).
  assert (H3 : rate_ok basicPool) by exact I.
  assert (H4 : 0 <= tasksProcessed freshStats < 2 ^ 64) by (simpl; lia).
  assert (H5 : Start basicPool freshStats 0 = Ok (setup basicPool freshStats 0))
    by reflexivity.
  destruct (pool_collects_every_task basicPool freshStats 0 _ H1 H2 H3 H4 H5) as [A B].
  split; [tauto|]. split.
  - intros p Hr Hc. destruct (A p Hr) as (_ & _ & _ & _ & C). apply (C Hc).
  - exact B.
Defined.

(** ** The processed count after completion *)

(** C2, as amended.  At completion the processed count is the count the
    statistics had when the pool started plus [numTasks] (modulo 2^64); it is
    [numTasks] when the pool started on fresh statistics. *)
Theorem processed_count_at_completion cfg st t0 p0 :
  0 <= numTasks cfg < 2 ^ 62 ->
  1 <= numWorkers cfg ->
  0 <= tasksProcessed st < 2 ^ 64 ->
  Start cfg st t0 = Ok p0 ->
  forall p, runs cfg p0 p -> completed p ->
    fst (Snapshot p) = wrap_uint64 (tasksProcessed st + numTasks cfg) /\
    (tasksProcessed st = 0 -> fst (Snapshot p) = numTasks cfg).
Proof.
  intros HN HW Hst Hstart p Hruns Hdone.
  pose proof (Inv_runs cfg st t0 p0 HN Hst Hstart p Hruns) as I.
  pose proof (Start_ok _ _ _ _ Hstart) as (_ & _ & E0).
  destruct (completed_collected cfg _ p I) as (Hc & _ & _ & _ & Hrb & Hall); auto.
  { rewrite (runs_workers_length _ _ _ Hruns), E0. simpl.
    rewrite length_replicate. lia. }
  destruct (exited_holds_nothing _ Hall) as (_ & _ & Ez).
  assert (E : fst (Snapshot p) = wrap_uint64 (tasksProcessed st + numTasks cfg)).
  { unfold Snapshot. simpl. rewrite (inv_count _ _ _ I). f_equal.
    apply Permutation_length in Hc. unfold expected in Hc.
    rewrite length_fmap, length_seqZ in Hc.
    rewrite Ez, Hc. unfold chan_len. rewrite Hrb. simpl. lia. }
  split; [exact E|]. intros Hz. rewrite E, Hz. apply wrap_uint64_small. lia.
Qed.

Lemma processed_count_at_completion_witness :
  let p0 := setup basicPool freshStats 0 in
  let p := match run basicPool (schedule 90 basicPool p0) p0 with
           | Ok p => p
           | _ => p0
           end in
  (0 <= numTasks basicPool < 2 ^ 62 /\ 1 <= numWorkers basicPool /\
   0 <= tasksProcessed freshStats < 2 ^ 64 /\
   Start basicPool freshStats 0 = Ok p0 /\ runs basicPool p0 p /\ completed p) /\
  fst (Snapshot p) = 10.
Proof.
  intros p0 p.
  assert (H1 : 0 <= numTasks basicPool < 2 ^ 62) by (simpl; lia).
  assert (H2 : 1 <= numWorkers basicPool) by (simpl; lia).
  assert (H4 : 0 <= tasksProcessed freshStats < 2 ^ 64) by (simpl; lia).
  assert (H5 : Start basicPool freshStats 0 = Ok p0) by reflexivity.
  assert (H6 : runs basicPool p0 p).
  { apply run_runs with (schedule 90 basicPool p0). vm_compute. reflexivity. }
  assert (H7 : completed p) by (vm_compute; reflexivity).
  split; [tauto|].
  destruct (processed_count_at_completion basicPool freshStats 0 p0 H1 H2 H4 H5 p H6 H7)
    as [_ E].
  apply E. reflexivity.
Defined.

(** C2 as stated fails on [main]: the rate-limited pool of section 2 is handed
    the statistics of section 1, so when it has completed its 10 tasks the
    processed count is 20. *)
Lemma processed_count_shared_stats :
  exists p1 p2 p3,
    runs basicPool (setup basicPool freshStats 0) p1 /\ completed p1 /\
    rateLimitedStart p1 = Ok p2 /\
    runs rateLimitedPool p2 p3 /\ completed p3 /\
    numTasks rateLimitedPool = 10 /\
    fst (Snapshot p3) = 20.
Proof.
  set (p0 := setup basicPool freshStats 0).
  set (p1 := match run basicPool (schedule 90 basicPool p0) p0 with
             | Ok p => p | _ => p0 end).
  set (p2 := setup rateLimitedPool (stats (shared p1)) (now (shared p1))).
  set (p3 := match run rateLimitedPool (schedule 100 rateLimitedPool p2) p2 with
             | Ok p => p | _ => p2 end).
  exists p1, p2, p3.
  split. { apply run_runs with (schedule 90 basicPool p0). vm_compute. reflexivity. }
  split. { vm_compute. reflexivity. }
  split. { vm_compute. reflexivity. }
  split. { apply run_runs with (schedule 100 rateLimitedPool p2). vm_compute. reflexivity. }
  split. { vm_compute. reflexivity. }
  split; vm_compute; reflexivity.
Qed.

(** ** The completion barrier and the collector *)

(** When [main] leaves its loop, it is [main]'s own step, taken on a closed
    and drained [results]. *)
Lemma collector_leaves cfg who t p p' :
  step cfg who t p = Ok p' -> collector p = MRange -> collector p' = MDone ->
  who = ACollector /\ closed (results (shared p)) = true /\ buf (results (shared p)) = [].
Proof.
  unfold step. destruct (t <? now (shared p)); [discriminate|].
  destruct p as [sh pr cl mn col ws]. simpl. intros H Hm Hm'. subst mn.
  destruct who; simpl in H.
  - destruct (producer_step cfg (set_now sh t) pr); try discriminate.
    simpl in H. injection H as <-. discriminate.
  - destruct (ws !! i); try discriminate.
    destruct (run_worker cfg (set_now sh t) w); try discriminate.
    simpl in H. injection H as <-. discriminate.
  - destruct (closer_step (set_now sh t) cl); try discriminate.
    simpl in H. injection H as <-. discriminate.
  - unfold collector_step in H.
    destruct (chan_recv (results sh)) as [[[x|] c]| |] eqn:E;
      simpl in H; try discriminate; injection H as <-; [discriminate|].
    apply chan_recv_ok in E as (Eb & Ec & _). auto.
Qed.

(** On a closed and drained [results] the loop of [main] ends at once. *)
Lemma collector_can_leave cfg p :
  collector p = MRange -> closed (results (shared p)) = true ->
  buf (results (shared p)) = [] ->
  exists p', step cfg ACollector (now (shared p)) p = Ok p' /\ completed p'.
Proof.
  destruct p as [sh pr cl mn col ws]. simpl. intros -> Hc Hb.
  unfold step. simpl. destruct (now sh <? now sh) eqn:E; [lia|].
  unfold chan_recv. simpl. rewrite Hb, Hc. simpl. eexists. split; reflexivity.
Qed.

(** C4.  [results] is closed only once every worker has exited; [main] leaves
    its loop only by its own step on a closed and drained [results], and does
    leave it then; after that [results] stays closed and empty with no worker
    left to send; and the loop never hangs: a pool that has not completed can
    always take a step, every execution is finite and can be continued to
    completion. *)
Theorem results_closed_after_workers cfg st t0 p0 :
  0 <= numTasks cfg < 2 ^ 62 ->
  rate_ok cfg ->
  0 <= tasksProcessed st < 2 ^ 64 ->
  Start cfg st t0 = Ok p0 ->
  forall p, runs cfg p0 p ->
    (closed (results (shared p)) = true ->
       Forall (fun w => pc w = Exited) (workers p)) /\
    (forall who t p', step cfg who t p = Ok p' ->
       collector p = MRange -> collector p' = MDone ->
       who = ACollector /\ closed (results (shared p)) = true /\
       buf (results (shared p)) = []) /\
    (collector p = MRange -> closed (results (shared p)) = true ->
       buf (results (shared p)) = [] ->
       exists p', step cfg ACollector (now (shared p)) p = Ok p' /\ completed p') /\
    (completed p ->
       closed (results (shared p)) = true /\ buf (results (shared p)) = [] /\
       Forall (fun w => pc w = Exited) (workers p)) /\
    (~ completed p -> exists who t p', step cfg who t p = Ok p') /\
    (exists sched p', run cfg sched p = Ok p' /\ completed p') /\
    (forall sched p', run cfg sched p = Ok p' ->
       Z.of_nat (length sched) <= remaining cfg p).
Proof.
  intros HN Hrate Hst Hstart p Hruns.
  pose proof (Inv_runs cfg st t0 p0 HN Hst Hstart p Hruns) as I.
  split; [intros; now apply (closed_results_all_exited cfg (tasksProcessed st))|].
  split; [intros who t p'; apply collector_leaves|].
  split; [apply collector_can_leave|].
  split.
  { intros Hdone. destruct (inv_main _ _ _ I Hdone) as [Hcl Hb].
    pose proof (inv_closer _ _ _ I) as Hc. rewrite Hcl in Hc. destruct Hc as [Hc _].
    repeat split; auto. intros; now apply (closed_results_all_exited cfg (tasksProcessed st)). }
  split; [apply pool_progress with (tasksProcessed st); auto; lia|].
  split; [now apply run_to_completion with (tasksProcessed st)|].
  intros sched p' Hrun.
  pose proof (run_bounded cfg _ HN sched p p' I Hrun) as Hb.
  assert (Ip : Inv cfg (tasksProcessed st) p').
  { apply (Inv_runs cfg st t0 p0 HN Hst Hstart).
    eapply runs_trans; eauto. now apply run_runs in Hrun. }
  pose proof (remaining_nonneg cfg _ p' Ip). lia.
Qed.

Lemma results_closed_after_workers_witness :
  let p0 := setup basicPool freshStats 0 in
  (0 <= numTasks basicPool < 2 ^ 62 /\ rate_ok basicPool /\
   0 <= tasksProcessed freshStats < 2 ^ 64 /\
   Start basicPool freshStats 0 = Ok p0) /\
  forall p, runs basicPool p0 p ->
    closed (results (shared p)) = true -> Forall (fun w => pc w = Exited) (workers p).
Proof.
  intros p0.
  assert (H1 : 0 <= numTasks basicPool < 2 ^ 62) by (simpl; lia).
  assert (H3 : rate_ok basicPool) by exact I.
  assert (H4 : 0 <= tasksProcessed freshStats < 2 ^ 64) by (simpl; lia).
  assert (H5 : Start basicPool freshStats 0 = Ok p0) by reflexivity.
  split; [tauto|]. intros p Hr.
  destruct (results_closed_after_workers basicPool freshStats 0 p0 H1 H3 H4 H5 p Hr)
    as [A _].
  exact A.
Defined.

(** ** Results are the identifier doubled *)

(** The step [time.Sleep(..); task.Result = task.ID * 2] of a worker that
    holds the task [x]: once the nap is over the step can be taken, and it
    leaves the worker with the identifier of [x] and the doubled identifier
    as its result. *)
Lemma processing_step cfg tp0 p i x start lim t :
  0 <= numTasks cfg < 2 ^ 62 -> Inv cfg tp0 p ->
  workers p !! i = Some (mkWorker (AtSleep x start) lim) ->
  now (shared p) <= t -> start + nap cfg <= t ->
  exists p', step cfg (AWorker i) t p = Ok p' /\
             workers p' !! i
             = Some (mkWorker (AtAddCount (mkTask (ID x) (ID x * 2)) start) lim).
Proof.
  intros HN I Hi Ht Hnap.
  assert (Hx : 1 <= ID x <= numTasks cfg).
  { apply (Inv_id_range cfg tp0 p x I).
    apply elem_of_app. right. apply elem_of_app. left.
    apply list_elem_of_In, in_flat_map.
    exists (mkWorker (AtSleep x start) lim). split.
    - apply list_elem_of_In. eapply list_elem_of_lookup_2; eauto.
    - simpl. auto. }
  assert (Ep : process x = mkTask (ID x) (ID x * 2)).
  { unfold process. f_equal. apply wrap_int_small. unfold int_min, int_max. lia. }
  assert (Hlt : (i < length (workers p))%nat) by (eapply lookup_lt_Some; eauto).
  unfold step. rewrite (proj2 (Z.ltb_ge t (now (shared p)))) by lia.
  rewrite Hi. unfold run_worker, nap in *.
  destruct (rate cfg) as [r|]; unfold rateLimitedWorker, worker, loop_body; simpl;
    (match goal with |- context [?a <=? ?b] =>
       rewrite (proj2 (Z.leb_le a b)) by lia end);
    simpl; eexists; (split; [reflexivity|]); simpl;
    rewrite Ep; now apply list_lookup_insert_eq.
Qed.

(** C5.  In every reachable state of a pool of either kind: a worker that
    holds a task it has taken can, once its nap is over, take the step
    [task.Result = task.ID * 2], and after it holds the task with the same
    identifier and the doubled identifier as result; every task past that
    step (still held by its worker, in the result queue or collected) has
    [Result = ID * 2]; the pool can be run to completion, and when it has
    completed, the results collected are exactly the tasks 1..[numTasks], each
    with its identifier doubled, whichever worker processed them.  The
    assignment itself stores the doubled identifier whenever that fits a Go
    [int]. *)
Theorem result_is_id_doubled cfg st t0 p0 :
  0 <= numTasks cfg < 2 ^ 62 ->
  1 <= numWorkers cfg ->
  rate_ok cfg ->
  0 <= tasksProcessed st < 2 ^ 64 ->
  Start cfg st t0 = Ok p0 ->
  (forall p, runs cfg p0 p ->
     (forall i x start lim t,
        workers p !! i = Some (mkWorker (AtSleep x start) lim) ->
        now (shared p) <= t -> start + nap cfg <= t ->
        exists p', step cfg (AWorker i) t p = Ok p' /\
                   workers p' !! i
                   = Some (mkWorker (AtAddCount (mkTask (ID x) (ID x * 2)) start) lim)) /\
     Forall (fun x => Result x = ID x * 2)
       (flat_map processed (workers p) ++ buf (results (shared p)) ++ collected p) /\
     (exists sched p', run cfg sched p = Ok p' /\ completed p') /\
     (completed p ->
        collected p ≡ₚ expected (numTasks cfg) /\
        (forall i, 1 <= i <= numTasks cfg -> mkTask i (i * 2) ∈ collected p) /\
        (forall x, x ∈ collected p ->
           1 <= ID x <= numTasks cfg /\ Result x = ID x * 2))) /\
  (forall task, - 2 ^ 62 <= ID task < 2 ^ 62 ->
     Result (process task) = ID task * 2 /\ ID (process task) = ID task).
Proof.
  intros HN HW Hrate Hst Hstart. split.
  - intros p Hruns.
    pose proof (Inv_runs cfg st t0 p0 HN Hst Hstart p Hruns) as Ip.
    split.
    { intros i x start lim t Hi Ht Hnap.
      now apply (processing_step cfg (tasksProcessed st) p i x start lim t). }
    split; [apply (inv_res _ _ _ Ip)|].
    split; [exact (run_to_completion cfg (tasksProcessed st) HN Hrate p Ip)|].
    intros Hdone.
    pose proof (Start_ok _ _ _ _ Hstart) as (_ & _ & E0).
    destruct (completed_collected cfg _ p Ip) as (Hc & _); auto.
    { rewrite (runs_workers_length _ _ _ Hruns), E0. simpl.
      rewrite length_replicate. lia. }
    split; [exact Hc|]. split.
    + intros i Hi. rewrite Hc. unfold expected.
      apply (list_elem_of_fmap_2 (fun i => mkTask i (i * 2))).
      apply elem_of_seqZ. lia.
    + intros x Hx. rewrite Hc in Hx. unfold expected in Hx.
      apply list_elem_of_fmap in Hx as (i & -> & Hi).
      apply elem_of_seqZ in Hi. simpl. split; lia.
  - intros task H. unfold process. simpl. split; [|reflexivity].
    apply wrap_int_small. unfold int_min, int_max. lia.
Qed.

(** The pool of ten tasks and three workers, run to completion: the ten
    results collected are the tasks 1..10 with their identifiers doubled. *)
Lemma result_is_id_doubled_witness :
  let p0 := setup basicPool freshStats 0 in
  let p := match run basicPool (schedule 90 basicPool p0) p0 with
           | Ok p => p | _ => p0 end in
  (0 <= numTasks basicPool < 2 ^ 62 /\ 1 <= numWorkers basicPool /\
   rate_ok basicPool /\ 0 <= tasksProcessed freshStats < 2 ^ 64 /\
   Start basicPool freshStats 0 = Ok p0 /\ runs basicPool p0 p /\ completed p) /\
  length (collected p) = 10%nat /\
  mkTask 7 14 ∈ collected p /\
  Forall (fun x => Result x = ID x * 2) (collected p).
Proof.
  intros p0 p.
  assert (H1 : 0 <= numTasks basicPool < 2 ^ 62) by (simpl; lia).
  assert (H2 : 1 <= numWorkers basicPool) by (simpl; lia).
  assert (H3 : rate_ok basicPool) by exact I.
  assert (H4 : 0 <= tasksProcessed freshStats < 2 ^ 64) by (simpl; lia).
  assert (H5 : Start basicPool freshStats 0 = Ok p0) by reflexivity.
  assert (H6 : runs basicPool p0 p).
  { apply run_runs with (schedule 90 basicPool p0). vm_compute. reflexivity. }
  assert (H7 : completed p) by (vm_compute; reflexivity).
  split; [exact (conj H1 (conj H2 (conj H3 (conj H4 (conj H5 (conj H6 H7))))))|].
  destruct (result_is_id_doubled basicPool freshStats 0 p0 H1 H2 H3 H4 H5) as [A _].
  destruct (A p H6) as (_ & _ & _ & B). destruct (B H7) as (C & D & E).
  split; [vm_compute; reflexivity|]. split.
  - apply (D 7). simpl. lia.
  - apply Forall_forall. intros x Hx. now apply E.
Defined.

(** ** The statistics after completion *)

Lemma worker_trans_live cfg sh w sh' w' :
  worker_trans cfg sh w sh' w' -> pc w <> Exited.
Proof. destruct 1; discriminate. Qed.

Lemma quiescent_trans cfg p p' :
  Forall (fun w => pc w = Exited) (workers p) -> trans cfg p p' ->
  Forall (fun w => pc w = Exited) (workers p') /\ stats (shared p') = stats (shared p).
Proof.
  intros Hall T. destruct T; simpl in *; auto.
  apply Forall_app in Hall as [_ Hall]. apply Forall_cons in Hall as [Hw _].
  now apply worker_trans_live in H.
Qed.

Lemma quiescent_runs cfg p p' :
  Forall (fun w => pc w = Exited) (workers p) -> runs cfg p p' ->
  Forall (fun w => pc w = Exited) (workers p') /\ Snapshot p' = Snapshot p.
Proof.
  intros Hall. induction 1 as [|q who t q' _ [IH1 IH2] Hs]; [auto|].
  apply step_trans in Hs as [_ T].
  apply quiescent_trans in T as [T1 T2]; [|exact IH1].
  split; [exact T1|]. rewrite <- IH2. unfold Snapshot. now rewrite T2.
Qed.

(** C8.  Once every worker of a pool has exited, as is the case when the pool
    has completed, nothing the pool still does changes the statistics: the
    snapshot read in any later state of the pool is the same pair. *)
Theorem snapshot_stable_after_completion cfg st t0 p0 :
  0 <= numTasks cfg < 2 ^ 62 ->
  0 <= tasksProcessed st < 2 ^ 64 ->
  Start cfg st t0 = Ok p0 ->
  forall p, runs cfg p0 p ->
    (completed p -> Forall (fun w => pc w = Exited) (workers p)) /\
    (Forall (fun w => pc w = Exited) (workers p) ->
     forall p', runs cfg p p' -> Snapshot p' = Snapshot p).
Proof.
  intros HN Hst Hstart p Hruns.
  pose proof (Inv_runs cfg st t0 p0 HN Hst Hstart p Hruns) as I.
  split.
  - intros Hdone. destruct (inv_main _ _ _ I Hdone) as [Hcl _].
    pose proof (inv_closer _ _ _ I) as Hc. rewrite Hcl in Hc. destruct Hc as [Hc _].
    now apply (closed_results_all_exited cfg (tasksProcessed st)).
  - intros Hall p' Hr. now apply (quiescent_runs cfg p p').
Qed.

Lemma snapshot_stable_after_completion_witness :
  let p0 := setup basicPool freshStats 0 in
  let sched := schedule 90 basicPool p0 in
  let p := match run basicPool (take 77 sched) p0 with Ok p => p | _ => p0 end in
  let p' := match run basicPool (drop 77 sched) p with Ok p => p | _ => p0 end in
  (0 <= numTasks basicPool < 2 ^ 62 /\ 0 <= tasksProcessed freshStats < 2 ^ 64 /\
   Start basicPool freshStats 0 = Ok p0 /\ runs basicPool p0 p /\
   Forall (fun w => pc w = Exited) (workers p) /\ runs basicPool p p' /\
   closer p = CWait /\ completed p') /\
  Snapshot p' = Snapshot p.
Proof.
  intros p0 sched p p'.
  assert (H1 : 0 <= numTasks basicPool < 2 ^ 62) by (simpl; lia).
  assert (H4 : 0 <= tasksProcessed freshStats < 2 ^ 64) by (simpl; lia).
  assert (H5 : Start basicPool freshStats 0 = Ok p0) by reflexivity.
  assert (H6 : runs basicPool p0 p).
  { apply run_runs with (take 77 sched). vm_compute. reflexivity. }
  assert (H7 : Forall (fun w => pc w = Exited) (workers p)).
  { vm_compute. repeat constructor. }
  assert (H8 : runs basicPool p p').
  { apply run_runs with (drop 77 sched). vm_compute. reflexivity. }
  assert (H9 : closer p = CWait) by (vm_compute; reflexivity).
  assert (H10 : completed p') by (vm_compute; reflexivity).
  split; [tauto|].
  destruct (snapshot_stable_after_completion basicPool freshStats 0 p0 H1 H4 H5 p H6)
    as [_ A].
  exact (A H7 p' H8).
Defined.

(** ** The clock and the total processing time *)

Lemma timed_le_counted w : 0 <= timed w <= counted w.
Proof. unfold timed, counted. destruct (pc w); lia. Qed.

Lemma counted_le_held w : counted w <= Z.of_nat (length (held w)).
Proof. unfold counted, held. destruct (pc w); simpl; lia. Qed.

Lemma sumZ_le {A} (f g : A -> Z) l : (forall x, f x <= g x) -> sumZ f l <= sumZ g l.
Proof. intros H. induction l as [|x l IH]; simpl; [lia|]. specialize (H x). lia. Qed.

Lemma sumZ_held ws :
  sumZ (fun w => Z.of_nat (length (held w))) ws = Z.of_nat (length (flat_map held ws)).
Proof. induction ws as [|w ws IH]; simpl; [reflexivity|]. rewrite length_app. lia. Qed.

Lemma counted_tasks_le cfg tp0 p :
  0 <= numTasks cfg -> Inv cfg tp0 p ->
  0 <= timed_tasks p <= counted_tasks p /\ counted_tasks p <= numTasks cfg.
Proof.
  intros HN I. pose proof (Inv_length cfg tp0 p I) as Hl.
  pose proof (sent_le cfg tp0 p I) as Hs.
  pose proof (sumZ_le timed counted (workers p) (fun w => proj2 (timed_le_counted w))).
  pose proof (sumZ_nonneg timed (workers p) (fun w => proj1 (timed_le_counted w))).
  pose proof (sumZ_le counted _ (workers p) counted_le_held) as Hc.
  rewrite sumZ_held in Hc.
  unfold timed_tasks, counted_tasks, chan_len in *. lia.
Qed.

Lemma TInv_tick t0 tt0 H t p :
  now (shared p) <= t -> TInv t0 tt0 H p -> TInv t0 tt0 H (tick t p).
Proof.
  intros Ht [H1 H2 H3 H4]. constructor; simpl; auto.
  - lia.
  - eapply Forall_impl; [exact H2|]. simpl. intros w Hw s Hs.
    specialize (Hw s Hs). lia.
  - intros Hle. apply H4. lia.
Qed.

Ltac tinv_fields :=
  constructor; unfold timed_tasks, chan_len; simpl;
  rewrite ?sumZ_app, ?Forall_app, ?Forall_cons, ?length_app; simpl; auto.

Section Clock.
Variable cfg : Config.
Variables tp0 t0 tt0 H : Z.
Hypothesis N_range : 0 <= numTasks cfg < 2 ^ 62.
Hypothesis tt0_nonneg : 0 <= tt0.
Hypothesis fits : tt0 + numTasks cfg * (H - t0) <= int_max.

Lemma TInv_trans p p' :
  Inv cfg tp0 p' -> TInv t0 tt0 H p -> trans cfg p p' -> TInv t0 tt0 H p'.
Proof.
  intros I' [H1 H2 H3 H4] T.
  pose proof (counted_tasks_le cfg tp0 p' (proj1 N_range) I') as HK'.
  unfold timed_tasks, counted_tasks, chan_len in *.
  destruct T as [sh i cl mn col ws Hi Hc Hlen | sh i cl mn col ws Hi Hc
                | sh pr mn col ws Hw | sh pr mn col ws Hc
                | sh pr cl col ws x rest Hb | sh pr cl col ws Hb Hc
                | sh pr cl mn col l1 w l2 sh' w' W]; simpl in *;
    try (tinv_fields; fail).
  - (* main receives a result *)
    rewrite Hb in *. simpl in *. rewrite length_app in *. simpl in *.
    tinv_fields.
    + intros Hz. apply H3. lia.
    + intros Hle. specialize (H4 Hle).
      replace (sumZ timed ws + Z.of_nat (length rest) + Z.of_nat (length col + 1))
        with (sumZ timed ws + Z.of_nat (S (length rest)) + Z.of_nat (length col)) by lia.
      exact H4.
  - (* a worker *)
    rewrite sumZ_app in *. simpl in *.
    rewrite Forall_app, Forall_cons in H2. destruct H2 as (F1 & Fw & F2).
    destruct W; simpl in *;
      try (tinv_fields; repeat split; auto; try discriminate;
           match goal with
           | Hs : Some _ = Some _ |- _ =>
               first [pose proof (Fw _ Hs) | injection Hs as <-]; lia
           end).
    + (* a task is received *)
      destruct (rate cfg); simpl in *; tinv_fields; repeat split; auto; discriminate.
    + (* the elapsed time is added *)
      specialize (Fw start eq_refl).
      pose proof (saturate_nonneg (now sh - start)) as Hs.
      tinv_fields.
      * repeat split; auto; discriminate.
      * intros Hz. exfalso.
        pose proof (sumZ_nonneg timed l1 (fun w => proj1 (timed_le_counted w))).
        pose proof (sumZ_nonneg timed l2 (fun w => proj1 (timed_le_counted w))). lia.
      * intros Hle. specialize (H4 Hle). unfold since.
        rewrite wrap_int_small; unfold int_min in *; nia.
    + (* the task is sent *)
      rewrite length_app in *. simpl in *.
      tinv_fields.
      * intros Hz. exfalso.
        pose proof (sumZ_nonneg timed l1 (fun w => proj1 (timed_le_counted w))).
        pose proof (sumZ_nonneg timed l2 (fun w => proj1 (timed_le_counted w))). lia.
      * intros Hle. specialize (H4 Hle).
        replace (sumZ timed l1 + (0 + sumZ timed l2)
                 + Z.of_nat (length (buf (results sh)) + 1) + Z.of_nat (length col))
          with (sumZ timed l1 + (1 + sumZ timed l2)
                + Z.of_nat (length (buf (results sh))) + Z.of_nat (length col)) by lia.
        exact H4.
Qed.
End Clock.

Lemma trans_now cfg p p' : trans cfg p p' -> now (shared p') = now (shared p).
Proof. destruct 1; simpl; try reflexivity. now destruct H. Qed.

Lemma step_now cfg who t p p' : step cfg who t p = Ok p' -> now (shared p') = t.
Proof. intros H. apply step_trans in H as [_ T]. now apply trans_now in T. Qed.

(** What one step does to the statistics: nothing, or one worker adds 1 to
    [tasksProcessed], or one worker adds its elapsed time to [totalTime]. *)
Lemma stats_trans cfg p p' :
  trans cfg p p' ->
  (stats (shared p') = stats (shared p) /\
   counted_tasks p' = counted_tasks p /\ timed_tasks p' = timed_tasks p) \/
  (stats (shared p') = mkStats (wrap_uint64 (tasksProcessed (stats (shared p)) + 1))
                               (totalTime (stats (shared p))) /\
   counted_tasks p' = counted_tasks p + 1) \/
  (exists w start, w ∈ workers p /\ start_of w = Some start /\
     stats (shared p') =
       mkStats (tasksProcessed (stats (shared p)))
               (wrap_int (totalTime (stats (shared p)) + since (shared p) start)) /\
     timed_tasks p' = timed_tasks p + 1).
Proof.
  intros T.
  destruct T as [sh i cl mn col ws Hi Hc Hlen | sh i cl mn col ws Hi Hc
                | sh pr mn col ws Hw | sh pr mn col ws Hc
                | sh pr cl col ws x rest Hb | sh pr cl col ws Hb Hc
                | sh pr cl mn col l1 w l2 sh' w' W];
    unfold counted_tasks, timed_tasks, chan_len; simpl; auto.
  - left. rewrite Hb, length_app. simpl. repeat split; lia.
  - rewrite !sumZ_app. simpl.
    destruct W; simpl; auto.
    + left. destruct (rate cfg); simpl; auto.
    + right. left. split; [reflexivity|lia].
    + right. right. exists (mkWorker (AtAddTime x start) lim), start.
      repeat split; [|lia]. rewrite elem_of_app, elem_of_cons. auto.
    + left. rewrite length_app. simpl. repeat split; lia.
Qed.

Lemma TInv_Start cfg st t0 p0 H :
  Start cfg st t0 = Ok p0 -> TInv t0 (totalTime st) H p0.
Proof.
  intros Hs. apply Start_ok in Hs as (_ & _ & ->).
  destruct (fresh_workers (Z.to_nat (numWorkers cfg))) as (_ & _ & _ & E4 & E5).
  assert (Et : sumZ timed (replicate (Z.to_nat (numWorkers cfg)) (mkWorker AtEntry None)) = 0).
  { pose proof (sumZ_le timed counted
                  (replicate (Z.to_nat (numWorkers cfg)) (mkWorker AtEntry None))
                  (fun w => proj2 (timed_le_counted w))).
    pose proof (sumZ_nonneg timed
                  (replicate (Z.to_nat (numWorkers cfg)) (mkWorker AtEntry None))
                  (fun w => proj1 (timed_le_counted w))).
    lia. }
  constructor; unfold timed_tasks, chan_len; simpl; auto.
  - lia.
  - apply Forall_forall. intros w Hw s. apply E5 in Hw. unfold start_of. now rewrite Hw.
  - rewrite Et. lia.
Qed.

Section ClockRuns.
Variable cfg : Config.
Variable st : WorkerStats.
Variables t0 H : Z.
Variable p0 : Pool.
Hypothesis N_range : 0 <= numTasks cfg < 2 ^ 62.
Hypothesis st_range : 0 <= tasksProcessed st < 2 ^ 64.
Hypothesis tt0_nonneg : 0 <= totalTime st.
Hypothesis fits : totalTime st + numTasks cfg * (H - t0) <= int_max.
Hypothesis started : Start cfg st t0 = Ok p0.

Lemma TInv_runs p : runs cfg p0 p -> TInv t0 (totalTime st) H p.
Proof.
  induction 1 as [|q who t q' Hq IH Hs].
  - now apply TInv_Start with cfg.
  - assert (I' : Inv cfg (tasksProcessed st) q').
    { apply (Inv_runs cfg st t0 p0); auto. eapply runs_step; eauto. }
    apply step_trans in Hs as [Ht T].
    apply (TInv_trans cfg (tasksProcessed st) t0 (totalTime st) H N_range tt0_nonneg fits
                      (tick t q) q' I'); [|exact T].
    now apply TInv_tick.
Qed.
End ClockRuns.

(** ** The average latency *)

(** C9.  For a pool started on fresh statistics, whenever the processed count
    is zero, as it always is when no task was submitted, no time has been added
    either and the average latency that [main] computes is 0/0 = NaN; the
    computation is a total function and raises nothing. *)
Theorem average_latency_nan_when_nothing_processed cfg st t0 p0 :
  0 <= numTasks cfg < 2 ^ 62 ->
  tasksProcessed st = 0 -> totalTime st = 0 ->
  Start cfg st t0 = Ok p0 ->
  forall p, runs cfg p0 p ->
    (tasksProcessed (stats (shared p)) = 0 ->
       totalTime (stats (shared p)) = 0 /\
       avgTime (stats (shared p)) = S754_nan /\
       avgTimeMs (stats (shared p)) = S754_nan) /\
    (numTasks cfg = 0 -> tasksProcessed (stats (shared p)) = 0).
Proof.
  intros HN Htp Htt Hstart p Hruns.
  assert (Hst : 0 <= tasksProcessed st < 2 ^ 64) by lia.
  pose proof (Inv_runs cfg st t0 p0 HN Hst Hstart p Hruns) as Ip.
  assert (Hfits : totalTime st + numTasks cfg * (t0 - t0) <= int_max).
  { rewrite Htt. unfold int_max. lia. }
  pose proof (TInv_runs cfg st t0 t0 p0 HN Hst ltac:(lia) Hfits Hstart p Hruns) as Tp.
  pose proof (counted_tasks_le cfg _ p (proj1 HN) Ip) as Hk.
  pose proof (inv_count _ _ _ Ip) as Ec. rewrite Htp in Ec.
  rewrite wrap_uint64_small in Ec by (unfold counted_tasks in Hk; lia).
  split.
  - intros Hz.
    assert (Et : totalTime (stats (shared p)) = 0).
    { rewrite <- Htt. apply (tinv_none _ _ _ _ Tp). unfold counted_tasks in Hk. lia. }
    split; [exact Et|]. unfold avgTimeMs, avgTime. rewrite Et, Hz. split; reflexivity.
  - intros HN0. unfold counted_tasks in Hk. lia.
Qed.

Lemma average_latency_nan_when_nothing_processed_witness :
  let cfg := mkConfig 3 0 None in
  let p0 := setup cfg freshStats 0 in
  let p := match run cfg (schedule 20 cfg p0) p0 with Ok p => p | _ => p0 end in
  (0 <= numTasks cfg < 2 ^ 62 /\ tasksProcessed freshStats = 0 /\
   totalTime freshStats = 0 /\ Start cfg freshStats 0 = Ok p0 /\
   runs cfg p0 p /\ completed p /\ tasksProcessed (stats (shared p)) = 0) /\
  avgTime (stats (shared p)) = S754_nan.
Proof.
  intros cfg p0 p.
  assert (H1 : 0 <= numTasks cfg < 2 ^ 62) by (simpl; lia).
  assert (H2 : tasksProcessed freshStats = 0) by reflexivity.
  assert (H3 : totalTime freshStats = 0) by reflexivity.
  assert (H4 : Start cfg freshStats 0 = Ok p0) by reflexivity.
  assert (H5 : runs cfg p0 p).
  { apply run_runs with (schedule 20 cfg p0). vm_compute. reflexivity. }
  assert (H6 : completed p) by (vm_compute; reflexivity).
  assert (H7 : tasksProcessed (stats (shared p)) = 0) by (vm_compute; reflexivity).
  split; [tauto|].
  destruct (average_latency_nan_when_nothing_processed cfg freshStats 0 p0
              H1 H2 H3 H4 p H5) as [A _].
  apply (A H7).
Defined.

(** ** Degenerate configurations *)

(** Without workers nothing ever reaches [results]. *)
Lemma no_workers_trans cfg p p' :
  workers p = [] /\ buf (results (shared p)) = [] /\ collected p = [] ->
  trans cfg p p' ->
  workers p' = [] /\ buf (results (shared p')) = [] /\ collected p' = [].
Proof.
  intros (Hw & Hb & Hc) T. destruct T; simpl in *; auto.
  - congruence.
  - now destruct l1.
Qed.

Lemma no_workers_runs cfg p p' :
  workers p = [] /\ buf (results (shared p)) = [] /\ collected p = [] ->
  runs cfg p p' ->
  workers p' = [] /\ buf (results (shared p')) = [] /\ collected p' = [].
Proof.
  intros H0. induction 1 as [|q who t q' _ IH Hs]; [assumption|].
  apply step_trans in Hs as [_ T]. eapply no_workers_trans; [|exact T]. exact IH.
Qed.

(** C3, as amended.  The code has no configuration error.  A pool of zero
    workers is started like any other: no worker runs, no step panics, [main]
    collects nothing, and a completed run leaves the submitted tasks in the
    task queue.  A rate of zero is not rejected either: the pool starts, and a
    rate-limited worker panics with an integer division by zero when it
    computes the period of its ticker, before it has received any task. *)
Theorem no_configuration_error :
  (forall cfg st t0,
     numWorkers cfg = 0 -> 0 <= numTasks cfg < 2 ^ 62 -> rate_ok cfg ->
     0 <= tasksProcessed st < 2 ^ 64 ->
     Start cfg st t0 = Ok (setup cfg st t0) /\
     forall p, runs cfg (setup cfg st t0) p ->
       workers p = [] /\ collected p = [] /\
       (forall who t, is_panic (step cfg who t p) = false) /\
       (exists sched p', run cfg sched p = Ok p' /\ completed p') /\
       (completed p -> producer p = PDone ->
          chan_len (tasks (shared p)) = numTasks cfg)) /\
  (forall W N st t0,
     1 <= W -> 0 <= N ->
     let cfg := mkConfig W N (Some 0) in
     Start cfg st t0 = Ok (setup cfg st t0) /\
     (forall sh lim,
        rateLimitedWorker 0 sh (mkWorker AtEntry lim)
        = Panic "runtime error: integer divide by zero") /\
     step cfg (AWorker 0) t0 (setup cfg st t0)
     = Panic "runtime error: integer divide by zero").
Proof.
  split.
  - intros cfg st t0 HW HN Hrate Hst.
    assert (Hstart : Start cfg st t0 = Ok (setup cfg st t0)).
    { unfold Start. destruct (numTasks cfg <? 0) eqn:E; [lia|reflexivity]. }
    split; [exact Hstart|]. intros p Hruns.
    pose proof (Inv_runs cfg st t0 _ HN Hst Hstart p Hruns) as I.
    assert (H0 : workers (setup cfg st t0) = [] /\
                 buf (results (shared (setup cfg st t0))) = [] /\
                 collected (setup cfg st t0) = []).
    { unfold setup. rewrite spawn_spec, HW. simpl. auto. }
    destruct (no_workers_runs cfg _ p H0 Hruns) as (Ew & Eb & Ec).
    repeat split; auto.
    + intros who t. now apply pool_no_panic with (tasksProcessed st).
    + now apply run_to_completion with (tasksProcessed st).
    + intros _ Hp. pose proof (Inv_length cfg _ p I) as Hl.
      rewrite Ew, Ec, Hp in Hl. unfold chan_len in *. rewrite Eb in Hl.
      simpl in Hl. lia.
  - intros W N st t0 HW HN cfg.
    assert (Hstart : Start cfg st t0 = Ok (setup cfg st t0)).
    { unfold Start. simpl. destruct (N <? 0) eqn:E; [lia|reflexivity]. }
    split; [exact Hstart|]. split; [reflexivity|].
    unfold step, setup. rewrite spawn_spec. simpl.
    destruct (t0 <? t0) eqn:E; [lia|].
    destruct (Z.to_nat W) as [|n] eqn:En; [lia|]. reflexivity.
Qed.

Lemma no_configuration_error_witness :
  (numWorkers (mkConfig 0 10 None) = 0 /\ 0 <= numTasks (mkConfig 0 10 None) < 2 ^ 62 /\
   rate_ok (mkConfig 0 10 None) /\ 0 <= tasksProcessed freshStats < 2 ^ 64 /\
   1 <= 3 /\ 0 <= 10) /\
  Start (mkConfig 0 10 None) freshStats 0 = Ok (setup (mkConfig 0 10 None) freshStats 0) /\
  step (mkConfig 3 10 (Some 0)) (AWorker 0) 0 (setup (mkConfig 3 10 (Some 0)) freshStats 0)
  = Panic "runtime error: integer divide by zero".
Proof.
  assert (H1 : numWorkers (mkConfig 0 10 None) = 0) by reflexivity.
  assert (H2 : 0 <= numTasks (mkConfig 0 10 None) < 2 ^ 62) by (simpl; lia).
  assert (H3 : rate_ok (mkConfig 0 10 None)) by exact I.
  assert (H4 : 0 <= tasksProcessed freshStats < 2 ^ 64) by (simpl; lia).
  assert (H5 : 1 <= 3) by lia.
  assert (H6 : 0 <= 10) by lia.
  split; [tauto|].
  destruct no_configuration_error as [A B].
  split.
  - apply (A (mkConfig 0 10 None) freshStats 0 H1 H2 H3 H4).
  - apply (B 3 10 freshStats 0 H5 H6).
Defined.

(** C3 as stated fails: with zero workers the start is accepted and the pool
    runs to completion without any error, leaving the ten tasks unprocessed;
    with a rate of zero the start is accepted too and the first step of a
    worker is a panic. *)
Lemma configuration_error_absent :
  let cfg0 := mkConfig 0 10 None in
  let cfgr := mkConfig 3 10 (Some 0) in
  is_ok (Start cfg0 freshStats 0) = true /\
  (exists p, runs cfg0 (setup cfg0 freshStats 0) p /\ completed p /\
             collected p = [] /\ chan_len (tasks (shared p)) = 10) /\
  is_ok (Start cfgr freshStats 0) = true /\
  is_panic (step cfgr (AWorker 0) 0 (setup cfgr freshStats 0)) = true.
Proof.
  intros cfg0 cfgr.
  split; [reflexivity|]. split; [|split; reflexivity].
  set (p0 := setup cfg0 freshStats 0).
  exists (match run cfg0 (schedule 20 cfg0 p0) p0 with Ok p => p | _ => p0 end).
  split. { apply run_runs with (schedule 20 cfg0 p0). vm_compute. reflexivity. }
  split; [vm_compute; reflexivity|].
  split; vm_compute; reflexivity.
Qed.

(** ** The rate limiter *)



Lemma ticker_recv_grid per tk t tk' k :
  0 < per -> on_grid per tk k -> ticker_recv tk t = Ok tk' ->
  ready tk <= t /\ created tk' = created tk /\
  exists k', on_grid per tk' k' /\ k + 1 <= k'.
Proof.
  intros Hper [Hp Hr]. unfold ticker_recv.
  destruct (ready tk <=? t) eqn:E; [|discriminate]. intros [= <-]. simpl.
  split; [lia|]. split; [reflexivity|].
  assert (Ek : (ready tk - created tk) / period tk = k).
  { rewrite Hr, Hp. replace (created tk + k * per - created tk) with (k * per) by lia.
    apply Z.div_mul. lia. }
  rewrite Ek. eexists. split; [split; [exact Hp|rewrite Hp; reflexivity]|]. lia.
Qed.


Section RateLimiter.
Variables R N : Z.
Variable t0 : Z.
Hypothesis R_range : 1 <= R <= Second.

Let cfg := mkConfig 1 N (Some R).
Let per := Second / R.



End RateLimiter.

Lemma exited_admitted ws :
  Forall (fun w => pc w = Exited) ws -> sumZ admitted ws = 0.
Proof.
  induction 1 as [|w ws Hw _ IH]; simpl; [reflexivity|].
  rewrite IH. unfold admitted. now rewrite Hw.
Qed.




(** ** The dynamic pool never grows *)

Section DynamicPool.
Import Dynamic.

Lemma worker_backlog sh w sh' w' :
  worker sh w = Ok (sh', w') -> chan_len (tasks sh') <= chan_len (tasks sh).
Proof.
  intros H. apply (run_worker_trans (mkConfig 0 0 None)) in H.
  unfold chan_len. destruct H; simpl; try lia. rewrite H. simpl. lia.
Qed.

Lemma backlog_inv_step who t p p' : Inv p -> step who t p = Ok p' -> Inv p'.
Proof.
  unfold Inv, step. destruct p as [sh m s col ws]. simpl.
  intros (H1 & H2 & H3 & H4) H.
  destruct (t <? now sh); [discriminate|].
  destruct who; simpl in H.
  - destruct m; simpl in H.
    + destruct (i <=? tasksSent) eqn:Ei.
      * destruct (chan_send (tasks sh) (mkTask i 0)) eqn:E; try discriminate.
        simpl in H. injection H as <-. simpl.
        apply chan_send_ok in E as (_ & _ & ->). unfold chan_len in *. simpl in *.
        rewrite length_app. simpl.
        rewrite wrap_int_small by (unfold int_min, int_max, tasksSent in *; lia).
        repeat split; auto; lia.
      * destruct (chan_close (tasks sh)) eqn:E; try discriminate.
        simpl in H. injection H as <-. simpl.
        apply chan_close_ok in E as (_ & ->). unfold chan_len in *. simpl in *.
        repeat split; auto; lia.
    + unfold wg_wait in H. simpl in H. destruct (wg sh =? 0); [|discriminate].
      simpl in H. injection H as <-. simpl in *. auto.
    + destruct (chan_close (results sh)); try discriminate.
      simpl in H. injection H as <-. simpl in *. auto.
    + destruct (chan_recv (results sh)) as [[[x|] c]| |]; try discriminate;
        simpl in H; injection H as <-; simpl in *; auto.
    + discriminate.
  - destruct H3 as [-> | ->]; [|discriminate]. simpl in H.
    destruct (threshold <? chan_len (tasks sh)) eqn:E.
    + exfalso. unfold threshold, tasksSent in *. lia.
    + simpl in H. injection H as <-. simpl. rewrite app_nil_r. auto.
  - destruct (ws !! i) as [w|] eqn:Ew; [|discriminate].
    destruct (worker (set_now sh t) w) as [[sh' w']| |] eqn:E; try discriminate.
    simpl in H. injection H as <-. simpl.
    apply worker_backlog in E. simpl in E. rewrite length_insert.
    repeat split; auto; lia.
Qed.

Lemma backlog_inv_setup st t0 : Inv (setup st t0).
Proof.
  unfold Inv, setup. rewrite spawn_spec. simpl. unfold chan_len, tasksSent. simpl.
  repeat split; auto; lia.
Qed.

Lemma backlog_inv_runs st t0 p : runs (setup st t0) p -> Inv p.
Proof.
  induction 1 as [|q who t q' _ IH Hs]; [apply backlog_inv_setup|].
  eapply backlog_inv_step; eauto.
Qed.

(** C10.  In every interleaving of the dynamic pool the backlog of
    [dynamicTasks] is at most 5, the tasks [main] sends, so the one-shot check
    [len(dynamicTasks) > 5] is false whenever it is taken: the goroutine goes
    straight to its end without [dynamicWg.Add(1)] or a third worker, and the
    pool runs with its 2 initial workers throughout. *)
Theorem extra_worker_never_added st t0 p :
  runs (setup st t0) p ->
  chan_len (tasks (shared p)) <= 5 /\
  (scaler p = SCheck \/ scaler p = SDone) /\
  length (workers p) = 2%nat /\
  (forall t p', step AScaler t p = Ok p' ->
     scaler p' = SDone /\ workers p' = workers p /\ wg (shared p') = wg (shared p)).
Proof.
  intros Hruns. pose proof (backlog_inv_runs st t0 p Hruns) as (H1 & H2 & H3 & H4).
  unfold tasksSent in *. repeat split; auto; try lia.
  - pose proof (backlog_inv_step AScaler t p p' (conj H1 (conj H2 (conj H3 H4))) H)
      as (_ & _ & [E|E] & _); [|exact E].
    revert H E. unfold step. destruct (t <? now (shared p)); [discriminate|].
    simpl. destruct H3 as [-> | ->]; [|discriminate]. simpl.
    destruct (threshold <? chan_len (tasks (shared p))); simpl;
      intros [= <-]; simpl; discriminate.
  - revert H. unfold step. destruct (t <? now (shared p)); [discriminate|].
    simpl. destruct H3 as [-> | ->]; [|discriminate]. simpl.
    destruct (threshold <? chan_len (tasks (shared p))) eqn:E;
      [unfold threshold in *; lia|].
    simpl. intros [= <-]. simpl. apply app_nil_r.
  - revert H. unfold step. destruct (t <? now (shared p)); [discriminate|].
    simpl. destruct H3 as [-> | ->]; [|discriminate]. simpl.
    destruct (threshold <? chan_len (tasks (shared p))) eqn:E;
      [unfold threshold in *; lia|].
    simpl. intros [= <-]. reflexivity.
Qed.

Lemma dynamic_run_runs sched p p' : run sched p = Ok p' -> runs p p'.
Proof.
  assert (G : forall q, runs p q -> run sched q = Ok p' -> runs p p').
  { induction sched as [|[who t] rest IH]; simpl; intros q Hq H.
    - now injection H as <-.
    - destruct (step who t q) as [q'| |] eqn:E; try discriminate.
      simpl in H. eapply IH; [|exact H]. eapply runs_step; eauto. }
  apply G. constructor.
Qed.

(** The check taken at the fullest backlog there can be: after all five
    sends, before any worker has received a task. *)
Lemma extra_worker_never_added_witness :
  let p0 := setup freshStats 0 in
  let p := match run (replicate 5 (AMain, 0)) p0 with Ok p => p | _ => p0 end in
  let p' := match step AScaler 0 p with Ok p' => p' | _ => p0 end in
  (runs p0 p /\ step AScaler 0 p = Ok p') /\
  chan_len (tasks (shared p)) = 5 /\ scaler p' = SDone /\ length (workers p') = 2%nat.
Proof.
  intros p0 p p'.
  assert (H1 : runs p0 p).
  { apply dynamic_run_runs with (replicate 5 (AMain, 0)). vm_compute. reflexivity. }
  assert (H2 : step AScaler 0 p = Ok p') by (vm_compute; reflexivity).
  split; [tauto|]. split; [vm_compute; reflexivity|].
  destruct (extra_worker_never_added freshStats 0 p H1) as (_ & _ & L & A).
  destruct (A 0 p' H2) as (E1 & E2 & _).
  split; [exact E1|]. rewrite E2. exact L.
Defined.

End DynamicPool.

(** * Further properties of the pools *)

(** ** Room in the channels *)

(** A worker about to send finds room in [results]. *)
Lemma results_has_room cfg tp0 p i w x :
  Inv cfg tp0 p -> workers p !! i = Some w -> pc w = AtSend x ->
  closed (results (shared p)) = false /\
  chan_len (results (shared p)) < cap (results (shared p)).
Proof.
  intros I Hi Hpc.
  pose proof (Inv_length cfg tp0 p I) as Hl. pose proof (sent_le cfg tp0 p I) as Hs.
  pose proof (held_le_flat _ _ _ Hi) as Hh.
  assert (Eh : held w = [x]) by (unfold held; now rewrite Hpc).
  rewrite Eh in Hh. simpl in Hh.
  pose proof (live_le_sum _ _ _ Hi) as Hlive.
  assert (El : live w = 1) by (unfold live; now rewrite Hpc).
  rewrite El, <- (inv_wg _ _ _ I) in Hlive.
  pose proof (inv_closer _ _ _ I) as Hc. destruct (inv_caps _ _ _ I) as [_ Ecap].
  split.
  - destruct (closer p); [assumption|lia|lia].
  - rewrite Ecap. unfold chan_len in *. lia.
Qed.

(** X1.  Both channels are made with room for every task, so no send ever
    blocks: as long as the sender has not closed [tasks] its next step
    (sending the next task or closing) can be taken at once, and a worker that
    has a result to send can send it at once. *)
Theorem sends_never_block cfg st t0 p0 :
  0 <= numTasks cfg < 2 ^ 62 ->
  0 <= tasksProcessed st < 2 ^ 64 ->
  Start cfg st t0 = Ok p0 ->
  forall p, runs cfg p0 p ->
    (forall i, producer p = PSend i ->
       exists p', step cfg AProducer (now (shared p)) p = Ok p') /\
    (forall i w x, workers p !! i = Some w -> pc w = AtSend x ->
       exists p', step cfg (AWorker i) (now (shared p)) p = Ok p' /\
                  buf (results (shared p')) = buf (results (shared p)) ++ [x]).
Proof.
  intros HN Hst Hstart p Hruns.
  pose proof (Inv_runs cfg st t0 p0 HN Hst Hstart p Hruns) as I.
  split.
  - intros i Hp. pose proof (Inv_length cfg _ p I) as Hl.
    pose proof (inv_prod _ _ _ I) as Hprod. destruct (inv_caps _ _ _ I) as [Ecap _].
    destruct p as [sh pr cl mn col ws]. simpl in *. subst pr. destruct Hprod as [Hi Hc].
    unfold step. simpl. destruct (now sh <? now sh) eqn:E; [lia|]. simpl.
    destruct (i <=? numTasks cfg) eqn:Ei.
    + unfold chan_send. simpl. rewrite Hc.
      destruct (chan_len (tasks sh) <? cap (tasks sh)) eqn:El; simpl; eauto.
      exfalso. apply Z.ltb_ge in El, E. unfold chan_len, sent in *. lia.
    + unfold chan_close. simpl. rewrite Hc. simpl. eauto.
  - intros i w x Hi Hpc.
    destruct (results_has_room cfg _ p i w x I Hi Hpc) as [Hc Hroom].
    destruct p as [sh pr cl mn col ws]. simpl in *.
    unfold step. simpl. destruct (now sh <? now sh) eqn:E; [lia|]. rewrite Hi.
    destruct w as [pcw lim]. simpl in Hpc. subst pcw.
    assert (Er : run_worker cfg (set_now sh (now sh)) (mkWorker (AtSend x) lim)
                 = Ok (set_results (set_now sh (now sh))
                         (mkChan (buf (results sh) ++ [x]) (closed (results sh))
                                 (cap (results sh))),
                       mkWorker AtRange lim)).
    { unfold run_worker. destruct (rate cfg); unfold rateLimitedWorker, worker;
        simpl; unfold loop_body; simpl; unfold chan_send; simpl; rewrite Hc;
        (destruct (chan_len (results sh) <? cap (results sh)) eqn:El; [reflexivity|lia]). }
    rewrite Er. simpl. eexists. split; reflexivity.
Qed.

Lemma sends_never_block_witness :
  let p0 := setup basicPool freshStats 0 in
  let sched := schedule 90 basicPool p0 in
  let p := match run basicPool (take 9 sched) p0 with Ok p => p | _ => p0 end in
  (0 <= numTasks basicPool < 2 ^ 62 /\ 0 <= tasksProcessed freshStats < 2 ^ 64 /\
   Start basicPool freshStats 0 = Ok p0 /\ runs basicPool p0 p /\
   workers p !! 0%nat = Some (mkWorker (AtSend (mkTask 1 2)) None)) /\
  exists p', step basicPool (AWorker 0) (now (shared p)) p = Ok p' /\
             buf (results (shared p')) = buf (results (shared p)) ++ [mkTask 1 2].
Proof.
  intros p0 sched p.
  assert (H1 : 0 <= numTasks basicPool < 2 ^ 62) by (simpl; lia).
  assert (H2 : 0 <= tasksProcessed freshStats < 2 ^ 64) by (simpl; lia).
  assert (H3 : Start basicPool freshStats 0 = Ok p0) by reflexivity.
  assert (H4 : runs basicPool p0 p).
  { apply run_runs with (take 9 sched). vm_compute. reflexivity. }
  assert (H5 : workers p !! 0%nat = Some (mkWorker (AtSend (mkTask 1 2)) None))
    by (vm_compute; reflexivity).
  split; [tauto|].
  destruct (sends_never_block basicPool freshStats 0 p0 H1 H2 H3 p H4) as [_ A].
  exact (A 0%nat _ _ H5 eq_refl).
Defined.

(** ** A completed pool is at rest *)

(** A rate-limited worker that has exited has stopped its ticker. *)
Lemma stopped_trans cfg p p' :
  rate cfg <> None ->
  Forall (fun w => pc w = Exited -> limiter w = None) (workers p) ->
  trans cfg p p' ->
  Forall (fun w => pc w = Exited -> limiter w = None) (workers p').
Proof.
  intros Hr Hall T. destruct T; simpl in *; auto.
  rewrite Forall_app, Forall_cons in *. destruct Hall as (H1 & _ & H2).
  repeat split; auto.
  destruct H; simpl; destruct (rate cfg) eqn:Er; try discriminate; try congruence; auto.
Qed.

Lemma stopped_runs cfg st t0 p :
  rate cfg <> None -> runs cfg (setup cfg st t0) p ->
  Forall (fun w => pc w = Exited -> limiter w = None) (workers p).
Proof.
  intros Hr. induction 1 as [|q who t q' _ IH Hs].
  - unfold setup. rewrite spawn_spec. simpl.
    apply Forall_forall. intros w Hw. apply elem_of_replicate in Hw as [-> _].
    reflexivity.
  - apply step_trans in Hs as [_ T].
    apply (stopped_trans cfg (tick t q) q' Hr); [exact IH|exact T].
Qed.

(** X2.  When [main] has left its loop over [results], nothing is left
    running: the sender has closed [tasks], [tasks] and [results] are closed
    and empty, the wait group is at zero, every worker has returned, no
    goroutine of the pool can take another step, and in a rate-limited pool
    every ticker has been stopped. *)
Theorem completed_pool_is_at_rest cfg st t0 p0 :
  0 <= numTasks cfg < 2 ^ 62 ->
  1 <= numWorkers cfg ->
  0 <= tasksProcessed st < 2 ^ 64 ->
  Start cfg st t0 = Ok p0 ->
  forall p, runs cfg p0 p -> completed p ->
    (forall who t, step cfg who t p = Blocked) /\
    producer p = PDone /\ closer p = CDone /\ wg (shared p) = 0 /\
    tasks (shared p) = mkChan [] true (numTasks cfg) /\
    results (shared p) = mkChan [] true (numTasks cfg) /\
    Forall (fun w => pc w = Exited) (workers p) /\
    (rate cfg <> None -> Forall (fun w => limiter w = None) (workers p)).
Proof.
  intros HN HW Hst Hstart p Hruns Hdone.
  pose proof (Inv_runs cfg st t0 p0 HN Hst Hstart p Hruns) as I.
  pose proof (Start_ok _ _ _ _ Hstart) as (_ & E0 & E0').
  destruct (completed_collected cfg _ p I) as (_ & Hp & Hcl & Htb & Hrb & Hall); auto.
  { rewrite (runs_workers_length _ _ _ Hruns), E0'. simpl.
    rewrite length_replicate. lia. }
  pose proof (inv_closer _ _ _ I) as Hc. rewrite Hcl in Hc. destruct Hc as [Hrc Hwg].
  pose proof (inv_prod _ _ _ I) as Htc. rewrite Hp in Htc.
  destruct (inv_caps _ _ _ I) as [Ec1 Ec2].
  split.
  { intros who t. destruct p as [sh pr cl mn col ws]. unfold completed in Hdone.
    simpl in *. subst pr cl mn. unfold step. simpl.
    destruct (t <? now sh); [reflexivity|].
    destruct who; simpl; try reflexivity.
    destruct (ws !! i) as [w|] eqn:Ew; [|reflexivity].
    rewrite Forall_forall in Hall.
    assert (Hw : pc w = Exited).
    { apply Hall. apply list_elem_of_lookup. eauto. }
    destruct w as [pcw lim]. simpl in Hw. subst pcw.
    unfold run_worker. destruct (rate cfg); reflexivity. }
  repeat split; auto.
  - destruct (tasks (shared p)) as [b c k]. simpl in *. now subst.
  - destruct (results (shared p)) as [b c k]. simpl in *. now subst.
  - intros Hr. subst p0.
    pose proof (stopped_runs cfg st t0 p Hr Hruns) as Hs.
    rewrite Forall_forall in *. intros w Hw. apply Hs; auto.
Qed.

Lemma completed_pool_is_at_rest_witness :
  let p0 := setup rateLimitedPool freshStats 0 in
  let p := match run rateLimitedPool (schedule 100 rateLimitedPool p0) p0 with
           | Ok p => p | _ => p0 end in
  (0 <= numTasks rateLimitedPool < 2 ^ 62 /\ 1 <= numWorkers rateLimitedPool /\
   0 <= tasksProcessed freshStats < 2 ^ 64 /\
   Start rateLimitedPool freshStats 0 = Ok p0 /\
   runs rateLimitedPool p0 p /\ completed p) /\
  step rateLimitedPool (AWorker 0) (now (shared p) + Second) p = Blocked.
Proof.
  intros p0 p.
  assert (H1 : 0 <= numTasks rateLimitedPool < 2 ^ 62) by (simpl; lia).
  assert (H2 : 1 <= numWorkers rateLimitedPool) by (simpl; lia).
  assert (H3 : 0 <= tasksProcessed freshStats < 2 ^ 64) by (simpl; lia).
  assert (H4 : Start rateLimitedPool freshStats 0 = Ok p0) by reflexivity.
  assert (H5 : runs rateLimitedPool p0 p).
  { apply run_runs with (schedule 100 rateLimitedPool p0). vm_compute. reflexivity. }
  assert (H6 : completed p) by (vm_compute; reflexivity).
  split; [tauto|].
  destruct (completed_pool_is_at_rest rateLimitedPool freshStats 0 p0 H1 H2 H3 H4 p H5 H6)
    as [A _].
  apply A.
Defined.

(** ** The rates a ticker can be created for *)

(** X3.  The first step of [rateLimitedWorker] creates the ticker exactly
    when the rate is between 1 and 10^9, with the period [10^9 / rate]
    nanoseconds; a rate of 0 panics in the division, and a negative rate or one
    above 10^9 makes the period non-positive, so [time.NewTicker] panics. *)
Theorem ticker_creation_by_rate (r : Z) (sh : Shared) (lim : option Ticker) :
  let entry := rateLimitedWorker r sh (mkWorker AtEntry lim) in
  (1 <= r <= Second ->
     entry = Ok (sh, mkWorker AtRange
                      (Some (mkTicker (now sh) (Second / r) (now sh + Second / r)))) /\
     0 < Second / r) /\
  (r = 0 -> entry = Panic "runtime error: integer divide by zero") /\
  (int_min <= r < 0 \/ Second < r <= int_max ->
     entry = Panic "non-positive interval for NewTicker").
Proof.
  intros entry. subst entry. unfold rateLimitedWorker. simpl.
  split; [|split].
  - intros Hr. destruct (period_of_rate r Hr) as (E & Hpos & _).
    unfold duration_div, NewTicker. destruct (r =? 0) eqn:E0; [lia|]. simpl.
    rewrite E. destruct (Second / r <=? 0) eqn:E1; [lia|]. simpl. auto.
  - intros ->. reflexivity.
  - intros Hr. unfold duration_div, NewTicker.
    destruct (r =? 0) eqn:E0; [unfold Second, int_min, int_max in *; lia|]. simpl.
    assert (Hq : - Second <= Z.quot Second r <= 0).
    { destruct Hr as [Hr|Hr].
      - replace r with (- (- r)) by lia. rewrite Z.quot_opp_r by lia.
        assert (0 <= Z.quot Second (- r) <= Second); [|lia].
        split; [apply Z.quot_pos; unfold Second; lia|].
        apply Z.quot_le_upper_bound; unfold Second in *; nia.
      - rewrite Z.quot_small by (unfold Second in *; lia). unfold Second. lia. }
    rewrite wrap_int_small by (unfold int_min, int_max, Second in *; lia).
    destruct (Z.quot Second r <=? 0) eqn:E1; [reflexivity|lia].
Qed.

Lemma ticker_creation_by_rate_witness :
  (1 <= 3 <= Second /\ (int_min <= -1 < 0 \/ Second < -1 <= int_max)) /\
  rateLimitedWorker 3 (shared (setup rateLimitedPool freshStats 0)) (mkWorker AtEntry None)
  = Ok (shared (setup rateLimitedPool freshStats 0),
        mkWorker AtRange (Some (mkTicker 0 333333333 333333333))) /\
  rateLimitedWorker (-1) (shared (setup rateLimitedPool freshStats 0)) (mkWorker AtEntry None)
  = Panic "non-positive interval for NewTicker".
Proof.
  assert (H1 : 1 <= 3 <= Second) by (unfold Second; lia).
  assert (H2 : int_min <= -1 < 0 \/ Second < -1 <= int_max)
    by (left; unfold int_min; lia).
  split; [tauto|]. split.
  - destruct (ticker_creation_by_rate 3 (shared (setup rateLimitedPool freshStats 0)) None)
      as [A _].
    destruct (A H1) as [E _]. exact E.
  - destruct (ticker_creation_by_rate (-1) (shared (setup rateLimitedPool freshStats 0)) None)
      as (_ & _ & A).
    exact (A H2).
Defined.

(** ** A single worker keeps the order *)

Lemma single_worker_split {A} (l1 l2 : list A) (w w0 : A) :
  l1 ++ w :: l2 = [w0] -> l1 = [] /\ l2 = [].
Proof.
  destruct l1 as [|a [|b l1]]; simpl; intros H; [|discriminate H|discriminate H].
  injection H as _ ->. auto.
Qed.

Lemma pipeline_trans cfg tp0 p p' :
  0 <= numTasks cfg < 2 ^ 62 -> Inv cfg tp0 p ->
  (exists w, workers p = [w]) -> trans cfg p p' ->
  ID <$> pipeline p = seqZ 1 (sent cfg (producer p)) ->
  ID <$> pipeline p' = seqZ 1 (sent cfg (producer p')).
Proof.
  intros HN I (w0 & Hw0) T. pose proof (inv_prod _ _ _ I) as Hp.
  unfold pipeline.
  destruct T as [sh i cl mn col ws Hi Hc Hlen | sh i cl mn col ws Hi Hc
                | sh pr mn col ws Hw | sh pr mn col ws Hc
                | sh pr cl col ws x rest Hb | sh pr cl col ws Hb Hc
                | sh pr cl mn col l1 w l2 sh' w' W]; simpl in *; auto.
  - intros H. rewrite wrap_int_small by (unfold int_min, int_max; lia).
    replace (i + 1 - 1) with (i - 1 + 1) by lia. rewrite seqZ_snoc by lia.
    rewrite <- H. rewrite !fmap_app, !fmap_cons. simpl.
    rewrite <- !app_assoc. repeat f_equal. lia.
  - intros H. replace (numTasks cfg) with (i - 1) by lia. exact H.
  - rewrite Hb. intros H. rewrite <- H. rewrite <- !app_assoc. reflexivity.
  - apply single_worker_split in Hw0 as [-> ->]. simpl in *. rewrite !app_nil_r.
    destruct W; simpl in *; rewrite ?app_nil_r; auto.
    + rewrite H. destruct (rate cfg); simpl; intros E; exact E.
    + intros E. rewrite <- E. rewrite !fmap_app, !fmap_cons. reflexivity.
    + intros E. rewrite <- E. rewrite <- !app_assoc. reflexivity.
Qed.

(** X4.  With a single worker the pool is a first-in first-out pipeline: at
    every moment the tasks logged by [main], buffered in [results], held by
    the worker and buffered in [tasks], read in this order, are the tasks
    1, 2, 3, ... in the order they were sent; so at completion [main] has
    logged the results of tasks 1..numTasks in exactly that order. *)
Theorem single_worker_keeps_order cfg st t0 p0 :
  numWorkers cfg = 1 ->
  0 <= numTasks cfg < 2 ^ 62 ->
  0 <= tasksProcessed st < 2 ^ 64 ->
  Start cfg st t0 = Ok p0 ->
  forall p, runs cfg p0 p ->
    ID <$> pipeline p = seqZ 1 (sent cfg (producer p)) /\
    (completed p -> collected p = expected (numTasks cfg)).
Proof.
  intros HW HN Hst Hstart.
  pose proof (Start_ok _ _ _ _ Hstart) as (_ & _ & E0).
  assert (G : forall p, runs cfg p0 p ->
            ID <$> pipeline p = seqZ 1 (sent cfg (producer p))).
  { induction 1 as [|q who t q' Hq IH Hs].
    - rewrite E0, HW. reflexivity.
    - pose proof (Inv_runs cfg st t0 p0 HN Hst Hstart q Hq) as I.
      pose proof (runs_workers_length _ _ _ Hq) as Hl.
      rewrite E0, HW in Hl. simpl in Hl.
      apply step_trans in Hs as [_ T].
      apply (pipeline_trans cfg _ (tick t q) q' HN (Inv_tick _ _ t q I)); auto.
      simpl. destruct (workers q) as [|w [|? ?]]; try discriminate Hl. eauto. }
  intros p Hruns. split; [now apply G|]. intros Hdone.
  pose proof (Inv_runs cfg st t0 p0 HN Hst Hstart p Hruns) as I.
  destruct (completed_collected cfg _ p I) as (_ & Hp & _ & Htb & Hrb & Hall); auto.
  { rewrite (runs_workers_length _ _ _ Hruns), E0. simpl.
    rewrite length_replicate. lia. }
  destruct (exited_holds_nothing _ Hall) as (Eh & Ep & _).
  pose proof (G p Hruns) as H. unfold pipeline in H.
  rewrite Htb, Hrb, Eh, Hp in H. simpl in H. rewrite app_nil_r in H.
  pose proof (inv_res _ _ _ I) as Hres. rewrite Ep, Hrb in Hres. simpl in Hres.
  rewrite (doubled_rebuild _ Hres), H. reflexivity.
Qed.

Lemma single_worker_keeps_order_witness :
  let cfg := mkConfig 1 4 (Some 2) in
  let p0 := setup cfg freshStats 0 in
  let p := match run cfg (schedule 60 cfg p0) p0 with Ok p => p | _ => p0 end in
  (numWorkers cfg = 1 /\ 0 <= numTasks cfg < 2 ^ 62 /\
   0 <= tasksProcessed freshStats < 2 ^ 64 /\
   Start cfg freshStats 0 = Ok p0 /\ runs cfg p0 p /\ completed p) /\
  collected p = [mkTask 1 2; mkTask 2 4; mkTask 3 6; mkTask 4 8].
Proof.
  intros cfg p0 p.
  assert (H1 : numWorkers cfg = 1) by reflexivity.
  assert (H2 : 0 <= numTasks cfg < 2 ^ 62) by (simpl; lia).
  assert (H3 : 0 <= tasksProcessed freshStats < 2 ^ 64) by (simpl; lia).
  assert (H4 : Start cfg freshStats 0 = Ok p0) by reflexivity.
  assert (H5 : runs cfg p0 p).
  { apply run_runs with (schedule 60 cfg p0). vm_compute. reflexivity. }
  assert (H6 : completed p) by (vm_compute; reflexivity).
  split; [tauto|].
  destruct (single_worker_keeps_order cfg freshStats 0 p0 H1 H2 H3 H4 p H5) as [_ A].
  exact (A H6).
Defined.

(** ** Every task takes at least its nap *)

Lemma slept_tick cfg t p : now (shared p) <= t -> slept cfg p -> slept cfg (tick t p).
Proof.
  unfold slept. simpl. intros Ht H. eapply Forall_impl; [exact H|].
  intros w Hw. simpl in Hw. destruct (pc w); auto; lia.
Qed.

Lemma slept_trans cfg p p' : slept cfg p -> trans cfg p p' -> slept cfg p'.
Proof.
  unfold slept. intros H T. destruct T; simpl in *; auto.
  rewrite Forall_app, Forall_cons in *. destruct H as (H1 & Hw & H2).
  destruct H0; simpl in *; repeat split; auto.
  destruct (rate cfg); exact I.
Qed.

Lemma slept_runs cfg st t0 p : runs cfg (setup cfg st t0) p -> slept cfg p.
Proof.
  induction 1 as [|q who t q' _ IH Hs].
  - unfold slept, setup. rewrite spawn_spec. simpl.
    apply Forall_forall. intros w Hw. apply elem_of_replicate in Hw as [-> _]. exact I.
  - apply step_trans in Hs as [Ht T].
    apply (slept_trans cfg (tick t q) q'); [|exact T]. now apply slept_tick.
Qed.

(** What one step does to [totalTime]: nothing, or the worker at
    [atomic.AddInt64] adds the time elapsed since its [start]. *)
Lemma total_time_trans cfg p p' :
  trans cfg p p' ->
  (totalTime (stats (shared p')) = totalTime (stats (shared p)) /\
   timed_tasks p' = timed_tasks p) \/
  (exists w x start, w ∈ workers p /\ pc w = AtAddTime x start /\
     totalTime (stats (shared p')) =
       wrap_int (totalTime (stats (shared p)) + since (shared p) start) /\
     timed_tasks p' = timed_tasks p + 1).
Proof.
  intros T.
  destruct T as [sh i cl mn col ws Hi Hc Hlen | sh i cl mn col ws Hi Hc
                | sh pr mn col ws Hw | sh pr mn col ws Hc
                | sh pr cl col ws x rest Hb | sh pr cl col ws Hb Hc
                | sh pr cl mn col l1 w l2 sh' w' W];
    unfold timed_tasks, chan_len; simpl; auto.
  - left. rewrite Hb, length_app. simpl. split; [reflexivity|lia].
  - rewrite !sumZ_app. simpl.
    destruct W; simpl; auto.
    + left. destruct (rate cfg); simpl; auto.
    + right. exists (mkWorker (AtAddTime x start) lim), x, start.
      repeat split; [|lia]. rewrite elem_of_app, elem_of_cons. auto.
    + left. rewrite length_app. simpl. split; [reflexivity|lia].
Qed.

Section ElapsedTime.
Variable cfg : Config.
Variable st : WorkerStats.
Variables t0 H : Z.
Hypothesis N_range : 0 <= numTasks cfg < 2 ^ 62.
Hypothesis st_range : 0 <= tasksProcessed st < 2 ^ 64.
Hypothesis tt0_nonneg : 0 <= totalTime st.
Hypothesis fits : totalTime st + numTasks cfg * (H - t0) <= int_max.

Lemma nap_bounds : 0 < nap cfg <= 100 * Millisecond.
Proof. unfold nap, Millisecond. destruct (rate cfg); lia. Qed.

Lemma total_time_lower p :
  runs cfg (setup cfg st t0) p -> now (shared p) <= H ->
  totalTime st + timed_tasks p * nap cfg <= totalTime (stats (shared p)).
Proof.
  assert (Hstart : Start cfg st t0 = Ok (setup cfg st t0)).
  { unfold Start. destruct (numTasks cfg <? 0) eqn:E; [lia|reflexivity]. }
  induction 1 as [|q who t q' Hq IH Hs]; intros HH.
  - unfold setup, timed_tasks, chan_len. rewrite spawn_spec. simpl.
    pose proof (sumZ_le timed counted
                  (replicate (Z.to_nat (numWorkers cfg)) (mkWorker AtEntry None))
                  (fun w => proj2 (timed_le_counted w))).
    pose proof (sumZ_nonneg timed
                  (replicate (Z.to_nat (numWorkers cfg)) (mkWorker AtEntry None))
                  (fun w => proj1 (timed_le_counted w))).
    destruct (fresh_workers (Z.to_nat (numWorkers cfg))) as (_ & _ & _ & E4 & _).
    simpl in E4.
    assert (E : sumZ timed (replicate (Z.to_nat (numWorkers cfg))
                              (mkWorker AtEntry None)) = 0) by lia.
    rewrite E. simpl. lia.
  - assert (Hq' : runs cfg (setup cfg st t0) q') by (eapply runs_step; eauto).
    pose proof (Inv_runs cfg st t0 _ N_range st_range Hstart q' Hq') as I'.
    pose proof (TInv_runs cfg st t0 H _ N_range st_range tt0_nonneg fits Hstart q Hq) as Tq.
    pose proof (slept_runs cfg st t0 q Hq) as Sq.
    pose proof (counted_tasks_le cfg _ q' (proj1 N_range) I') as HK'.
    pose proof (step_now _ _ _ _ _ Hs) as Hnow.
    apply step_trans in Hs as [Ht T].
    assert (HqH : now (shared q) <= H) by lia.
    specialize (IH HqH).
    pose proof (tinv_total _ _ _ _ Tq HqH) as Hup.
    pose proof (tinv_start _ _ _ _ Tq) as Hst.
    pose proof nap_bounds as Hnap.
    apply total_time_trans in T. simpl in T.
    change (timed_tasks (tick t q)) with (timed_tasks q) in T.
    destruct T as [(Es & Ek) | (w & x & start & Hw & Hpc & Es & Ek)].
    + rewrite Es, Ek. exact IH.
    + rewrite Es, Ek. unfold since. simpl.
      rewrite Forall_forall in Hst.
      assert (Hs0 : start_of w = Some start) by (unfold start_of; now rewrite Hpc).
      specialize (Hst w Hw start Hs0).
      unfold slept in Sq. rewrite Forall_forall in Sq. specialize (Sq w Hw).
      rewrite Hpc in Sq.
      assert (Hsat : nap cfg <= saturate (t - start) <= t - start).
      { unfold saturate, int_min, int_max, Millisecond in *. lia. }
      rewrite wrap_int_small; [nia|]. unfold int_min. split; [lia|]. nia.
Qed.
End ElapsedTime.

(** X5.  As long as the counters cannot overflow (up to the clock reading
    [H]), [totalTime] has grown by at least one nap (100 ms in [worker], 50 ms
    in [rateLimitedWorker]) for every task whose elapsed time has been added;
    so a completed pool has added at least [numTasks] naps, and if it had any
    task it ran for at least one nap. *)
Theorem every_task_takes_a_nap cfg st t0 p0 H :
  0 <= numTasks cfg < 2 ^ 62 ->
  1 <= numWorkers cfg ->
  0 <= tasksProcessed st < 2 ^ 64 ->
  0 <= totalTime st ->
  totalTime st + numTasks cfg * (H - t0) <= int_max ->
  Start cfg st t0 = Ok p0 ->
  forall p, runs cfg p0 p -> now (shared p) <= H ->
    totalTime st + timed_tasks p * nap cfg <= totalTime (stats (shared p)) /\
    (completed p ->
       totalTime st + numTasks cfg * nap cfg <= totalTime (stats (shared p)) /\
       (1 <= numTasks cfg -> t0 + nap cfg <= now (shared p))).
Proof.
  intros HN HW Hst Htt Hfits Hstart p Hruns HH.
  pose proof (Start_ok _ _ _ _ Hstart) as (_ & E0 & E0'). subst p0.
  pose proof (total_time_lower cfg st t0 H HN Hst Htt Hfits p Hruns HH) as Hlow.
  split; [exact Hlow|]. intros Hdone.
  pose proof (Inv_runs cfg st t0 _ HN Hst Hstart p Hruns) as I.
  destruct (completed_collected cfg _ p I) as (Hc & _ & _ & _ & Hrb & Hall); auto.
  { rewrite (runs_workers_length _ _ _ Hruns), E0'. simpl.
    rewrite length_replicate. lia. }
  assert (EK : timed_tasks p = numTasks cfg).
  { pose proof (counted_tasks_le cfg _ p (proj1 HN) I) as Hk.
    destruct (exited_holds_nothing _ Hall) as (_ & _ & Ez).
    pose proof (sumZ_le timed counted (workers p) (fun w => proj2 (timed_le_counted w))).
    pose proof (sumZ_nonneg timed (workers p) (fun w => proj1 (timed_le_counted w))).
    apply Permutation_length in Hc. unfold expected in Hc.
    rewrite length_fmap, length_seqZ in Hc.
    unfold timed_tasks, chan_len. rewrite Hrb. simpl. lia. }
  rewrite EK in Hlow. split; [exact Hlow|]. intros HN1.
  assert (Hfits' : totalTime st + numTasks cfg * (now (shared p) - t0) <= int_max).
  { assert (numTasks cfg * (now (shared p) - t0) <= numTasks cfg * (H - t0)); [|lia].
    apply Z.mul_le_mono_nonneg_l; lia. }
  pose proof (TInv_runs cfg st t0 (now (shared p)) _ HN Hst Htt Hfits' Hstart p Hruns) as Tp.
  pose proof (tinv_total _ _ _ _ Tp ltac:(lia)) as Hup. rewrite EK in Hup.
  assert (0 < nap cfg) by (unfold nap, Millisecond; destruct (rate cfg); lia).
  nia.
Qed.

Lemma every_task_takes_a_nap_witness :
  let p0 := setup basicPool freshStats 0 in
  let p := match run basicPool (schedule 90 basicPool p0) p0 with
           | Ok p => p | _ => p0 end in
  (0 <= numTasks basicPool < 2 ^ 62 /\ 1 <= numWorkers basicPool /\
   0 <= tasksProcessed freshStats < 2 ^ 64 /\ 0 <= totalTime freshStats /\
   totalTime freshStats + numTasks basicPool * (3600 * Second - 0) <= int_max /\
   Start basicPool freshStats 0 = Ok p0 /\ runs basicPool p0 p /\
   now (shared p) <= 3600 * Second /\ completed p) /\
  1000 * Millisecond <= totalTime (stats (shared p)).
Proof.
  intros p0 p.
  assert (H1 : 0 <= numTasks basicPool < 2 ^ 62) by (simpl; lia).
  assert (H2 : 1 <= numWorkers basicPool) by (simpl; lia).
  assert (H3 : 0 <= tasksProcessed freshStats < 2 ^ 64) by (simpl; lia).
  assert (H4 : 0 <= totalTime freshStats) by (simpl; lia).
  assert (H5 : totalTime freshStats + numTasks basicPool * (3600 * Second - 0) <= int_max)
    by (vm_compute; discriminate).
  assert (H6 : Start basicPool freshStats 0 = Ok p0) by reflexivity.
  assert (H7 : runs basicPool p0 p).
  { apply run_runs with (schedule 90 basicPool p0). vm_compute. reflexivity. }
  assert (H8 : now (shared p) <= 3600 * Second) by (vm_compute; discriminate).
  assert (H9 : completed p) by (vm_compute; reflexivity).
  split; [tauto|].
  destruct (every_task_takes_a_nap basicPool freshStats 0 p0 (3600 * Second)
              H1 H2 H3 H4 H5 H6 p H7 H8) as [_ A].
  destruct (A H9) as [B _]. exact B.
Defined.

(** ** The rate limit of a pool with several workers *)

Lemma ticker_recv_due tk t tk' :
  0 < period tk -> ticker_recv tk t = Ok tk' -> ready tk' - period tk' <= t.
Proof.
  intros Hp. unfold ticker_recv.
  destruct (ready tk <=? t) eqn:E; [|discriminate]. intros [= <-]. simpl.
  apply Z.leb_le in E.
  pose proof (Z.mul_div_le (ready tk - created tk) (period tk) Hp).
  pose proof (Z.mul_div_le (t - created tk + period tk - 1) (period tk) Hp).
  destruct (Z.max_spec ((ready tk - created tk) / period tk + 1)
                       ((t - created tk + period tk - 1) / period tk))
    as [[_ ->]|[_ ->]]; nia.
Qed.

Lemma credit_le per t0 t w :
  t0 <= t -> ticking per t0 t w -> credit t0 t w <= t - t0.
Proof.
  intros Ht. unfold credit, ticking.
  destruct (pc w); try lia;
    intros (tk & k & -> & [Hp _] & _ & Hc & Hr); rewrite Hp; lia.
Qed.

Lemma credit_mono t0 t t' w : t <= t' -> credit t0 t w <= credit t0 t' w.
Proof. intros Ht. unfold credit. destruct (pc w); try lia; destruct (limiter w); lia. Qed.

Lemma ticking_mono per t0 t t' w : t <= t' -> ticking per t0 t w -> ticking per t0 t' w.
Proof.
  intros Ht. unfold ticking.
  destruct (pc w); auto;
    intros (tk & k & E & Hg & Hk & Hc & Hr); exists tk, k;
    (split; [exact E|split; [exact Hg|lia]]).
Qed.

Lemma sumZ_credit_le per t0 t ws :
  t0 <= t -> Forall (ticking per t0 t) ws ->
  sumZ (credit t0 t) ws <= Z.of_nat (length ws) * (t - t0).
Proof.
  intros Ht. induction 1 as [|w ws Hw _ IH]; simpl length; simpl sumZ; [lia|].
  pose proof (credit_le per t0 t w Ht Hw). lia.
Qed.

Lemma WInv_tick per t0 t p :
  0 <= per -> now (shared p) <= t -> WInv per t0 p -> WInv per t0 (tick t p).
Proof.
  intros Hper Ht [H1 H2 H3]. constructor; simpl.
  - lia.
  - eapply Forall_impl; [exact H2|]. intros w. now apply ticking_mono.
  - change (admitted_tasks (tick t p)) with (admitted_tasks p).
    pose proof (sumZ_le (credit t0 (now (shared p))) (credit t0 t) (workers p)
                  (fun w => credit_mono t0 _ _ w Ht)). lia.
Qed.

Section SharedRateLimit.
Variables R W N : Z.
Variable t0 : Z.
Hypothesis R_range : 1 <= R <= Second.

Let cfg := mkConfig W N (Some R).
Let per := Second / R.

Lemma WInv_trans p p' : WInv per t0 p -> trans cfg p p' -> WInv per t0 p'.
Proof.
  intros [H1 H2 H3] T. unfold cfg in T.
  destruct (period_of_rate R R_range) as (Eper & Hpos & _). fold per in Eper, Hpos.
  unfold admitted_tasks, chan_len in *.
  destruct T as [sh i cl mn col ws Hi Hc Hlen | sh i cl mn col ws Hi Hc
                | sh pr mn col ws Hw | sh pr mn col ws Hc
                | sh pr cl col ws x rest Hb | sh pr cl col ws Hb Hc
                | sh pr cl mn col l1 w l2 sh' w' Wt]; simpl in *;
    try (constructor; unfold admitted_tasks, chan_len; simpl; assumption).
  - (* main receives a result *)
    rewrite Hb in *. simpl in *.
    constructor; unfold admitted_tasks, chan_len; simpl; auto.
    rewrite length_app. simpl. lia.
  - (* a worker *)
    rewrite !sumZ_app in H3. simpl in H3.
    apply Forall_app in H2 as [F1 F2]. apply Forall_cons in F2 as [Fw F2].
    assert (Hnow : now sh' = now sh) by (destruct Wt; reflexivity).
    assert (Hw' : ticking per t0 (now sh) w' /\
                  admitted w' * per + Z.of_nat (length (buf (results sh'))) * per
                  - credit t0 (now sh) w'
                  <= admitted w * per + Z.of_nat (length (buf (results sh))) * per
                     - credit t0 (now sh) w).
    { destruct Wt as [lim Hr | lim r d Hr Hr0 Hd Hdpos | lim x rest Hb | lim Hb Hc Hw1
                     | x tk tk' r Hr Htk | x lim | x start lim Hnap | x start lim
                     | x start lim | x lim Hc Hlen]; simpl in *;
        try discriminate; try (split; [exact Fw|lia]).
      - (* time.NewTicker *)
        injection Hr as <-. split; [|lia].
        eexists _, 1. split; [reflexivity|].
        split; [split; simpl; [now rewrite Hd|rewrite Hd, Eper; lia]|].
        simpl. rewrite Hd, Eper. lia.
      - (* the worker returns *)
        split; [exact I|].
        destruct Fw as (tk & k & -> & [Hp _] & _ & Hc' & Hr'). rewrite Hp. lia.
      - (* <-limiter.C *)
        destruct Fw as (tk0 & k & [= <-] & Hg & Hk & Hc' & Hr').
        destruct (ticker_recv_grid per tk (now sh) tk' k Hpos Hg Htk)
          as (Hready & Ecr & k' & Hg' & Hk').
        pose proof (ticker_recv_due tk (now sh) tk' ltac:(destruct Hg; lia) Htk) as Hdue.
        destruct Hg as [Hp Hr0], Hg' as [Hp' Hr0'].
        split.
        + exists tk', k'. split; [reflexivity|]. split; [split; assumption|lia].
        + rewrite Hp, Hp', Ecr. nia.
      - (* results <- task *)
        split; [exact Fw|]. rewrite length_app. simpl. lia. }
    destruct Hw' as [Fw' Hle].
    constructor; unfold admitted_tasks, chan_len; simpl; rewrite ?Hnow.
    + exact H1.
    + apply Forall_app. split; [exact F1|]. constructor; assumption.
    + rewrite !sumZ_app. simpl. lia.
Qed.

Lemma WInv_Start st p0 : Start cfg st t0 = Ok p0 -> WInv per t0 p0.
Proof.
  intros H. apply Start_ok in H as (_ & _ & ->).
  destruct (period_of_rate R R_range) as (_ & Hpos & _). fold per in Hpos.
  destruct (fresh_workers (Z.to_nat (numWorkers cfg))) as (_ & _ & _ & _ & E5).
  simpl in E5.
  constructor; unfold admitted_tasks, chan_len; simpl.
  - lia.
  - apply Forall_forall. intros w Hw. unfold ticking. now rewrite (E5 w Hw).
  - assert (E : forall n, sumZ admitted (replicate n (mkWorker AtEntry None)) = 0 /\
                          sumZ (credit t0 t0) (replicate n (mkWorker AtEntry None)) = 0).
    { induction n as [|n [IH1 IH2]]; simpl; [auto|]. rewrite IH1, IH2. auto. }
    destruct (E (Z.to_nat W)) as [-> ->]. lia.
Qed.

Lemma WInv_runs st p0 p : Start cfg st t0 = Ok p0 -> runs cfg p0 p -> WInv per t0 p.
Proof.
  intros Hs. induction 1 as [|q who t q' _ IH Hstep].
  - now apply WInv_Start with st.
  - destruct (period_of_rate R R_range) as (_ & Hpos & _). fold per in Hpos.
    apply step_trans in Hstep as [Ht T].
    apply (WInv_trans (tick t q) q'); [|exact T].
    apply WInv_tick; auto. lia.
Qed.
End SharedRateLimit.

(** X6.  The rate limit is per worker: every [rateLimitedWorker] has a ticker
    of its own, with the period [floor(10^9 / R)] ns.  So a pool of [W] such
    workers admits at most [W] tasks per period overall: at any moment the
    number of tasks past [<-limiter.C], times the period, is at most [W] times
    the time since the pool started; and completing [N] tasks takes at least
    [N] periods divided among the [W] workers. *)
Theorem rate_limit_is_per_worker R W N st t0 p0 :
  1 <= R <= Second ->
  1 <= W ->
  0 <= N < 2 ^ 62 ->
  0 <= tasksProcessed st < 2 ^ 64 ->
  Start (mkConfig W N (Some R)) st t0 = Ok p0 ->
  forall p, runs (mkConfig W N (Some R)) p0 p ->
    let per := Second / R in
    let elapsed := now (shared p) - t0 in
    admitted_tasks p * per <= W * elapsed /\
    (completed p -> N * per <= W * elapsed).
Proof.
  intros HR HW HN Hst Hstart p Hruns per elapsed.
  pose proof (WInv_runs R W N t0 HR st p0 p Hstart Hruns) as [H1 H2 H3].
  fold per in H2, H3.
  pose proof (sumZ_credit_le per t0 _ _ H1 H2) as Hsum.
  pose proof (Start_ok _ _ _ _ Hstart) as (_ & _ & E0).
  assert (Hlen : Z.of_nat (length (workers p)) = W).
  { rewrite (runs_workers_length _ _ _ Hruns), E0. simpl.
    rewrite length_replicate. lia. }
  rewrite Hlen in Hsum.
  assert (HA : admitted_tasks p * per <= W * elapsed) by (unfold elapsed; lia).
  split; [exact HA|]. intros Hdone.
  pose proof (Inv_runs (mkConfig W N (Some R)) st t0 p0 HN Hst Hstart p Hruns) as I.
  destruct (completed_collected _ _ p I) as (Hc & _ & _ & _ & Hrb & Hall); auto.
  { lia. }
  assert (EA : admitted_tasks p = N).
  { unfold admitted_tasks, chan_len. rewrite (exited_admitted _ Hall), Hrb.
    apply Permutation_length in Hc. unfold expected in Hc.
    rewrite length_fmap, length_seqZ in Hc. simpl in *. lia. }
  now rewrite EA in HA.
Qed.

(** The pool of section 2: three workers at 2 operations per second take at
    least 5/3 of a second for the ten tasks. *)
Lemma rate_limit_is_per_worker_witness :
  let p0 := setup rateLimitedPool freshStats 0 in
  let p := match run rateLimitedPool (schedule 120 rateLimitedPool p0) p0 with
           | Ok p => p | _ => p0 end in
  (1 <= 2 <= Second /\ 1 <= 3 /\ 0 <= 10 < 2 ^ 62 /\
   0 <= tasksProcessed freshStats < 2 ^ 64 /\
   Start rateLimitedPool freshStats 0 = Ok p0 /\ runs rateLimitedPool p0 p /\
   completed p) /\
  10 * (500 * Millisecond) <= 3 * (now (shared p) - 0).
Proof.
  intros p0 p.
  assert (H1 : 1 <= 2 <= Second) by (unfold Second; lia).
  assert (H2 : 1 <= 3) by lia.
  assert (H3 : 0 <= 10 < 2 ^ 62) by lia.
  assert (H4 : 0 <= tasksProcessed freshStats < 2 ^ 64) by (simpl; lia).
  assert (H5 : Start rateLimitedPool freshStats 0 = Ok p0) by reflexivity.
  assert (H6 : runs rateLimitedPool p0 p).
  { apply run_runs with (schedule 120 rateLimitedPool p0). vm_compute. reflexivity. }
  assert (H7 : completed p) by (vm_compute; reflexivity).
  split; [tauto|].
  destruct (rate_limit_is_per_worker 2 3 10 freshStats 0 p0 H1 H2 H3 H4 H5 p H6)
    as [_ A].
  specialize (A H7). exact A.
Defined.

(** ** The dynamic pool runs as a pool of five tasks *)

Lemma as_pool_setup st t0 : as_pool (Dynamic.setup st t0) = setup fivePool st t0.
Proof. reflexivity. Qed.

(** A step of [worker] does not depend on the capacity of the channels beyond
    the room it needs for its send. *)
Lemma worker_recap sh w sh' w' :
  worker sh w = Ok (sh', w') ->
  (forall x, pc w = AtSend x -> chan_len (results sh) < Dynamic.tasksSent) ->
  worker (recap sh) w = Ok (recap sh', w').
Proof.
  destruct w as [p lim]. unfold worker, loop_body. simpl.
  destruct p; simpl; intros H Hroom; try discriminate.
  - injection H as <- <-. reflexivity.
  - unfold chan_recv in *. simpl.
    destruct (buf (tasks sh)) as [|x rest]; simpl in *.
    + destruct (closed (tasks sh)); [|discriminate]. simpl in *.
      unfold wg_done, wg_add in *. simpl.
      destruct (wg sh + -1 <? 0); [discriminate|]. simpl in *.
      injection H as <- <-. reflexivity.
    + injection H as <- <-. reflexivity.
  - injection H as <- <-. reflexivity.
  - destruct (start + 100 * Millisecond <=? now sh); [|discriminate].
    injection H as <- <-. reflexivity.
  - injection H as <- <-. reflexivity.
  - injection H as <- <-. reflexivity.
  - unfold chan_send in *. simpl.
    destruct (closed (results sh)); [discriminate|].
    destruct (chan_len (results sh) <? cap (results sh)); [|discriminate].
    simpl in H. injection H as <- <-.
    specialize (Hroom task eq_refl). unfold chan_len in *. simpl.
    destruct (Z.of_nat (length (buf (results sh))) <? Dynamic.tasksSent) eqn:E;
      [reflexivity|lia].
Qed.

(** Every step of the dynamic pool is either the check of the backlog, which
    changes nothing in the pool, or a step of the pool of five tasks. *)
Lemma dynamic_step_sim tp0 who t p p' :
  Dynamic.Inv p -> Inv fivePool tp0 (as_pool p) ->
  Dynamic.step who t p = Ok p' ->
  (as_pool p' = tick t (as_pool p) /\
   Dynamic.scaler p = Dynamic.SCheck /\ Dynamic.scaler p' = Dynamic.SDone) \/
  ((exists a, step fivePool a t (as_pool p) = Ok (as_pool p')) /\
   Dynamic.scaler p' = Dynamic.scaler p).
Proof.
  intros (H1 & H2 & H3 & H4) I H.
  pose proof (fun i w x => results_has_room fivePool tp0 (as_pool p) i w x I) as Hroom.
  destruct p as [sh m s col ws]. unfold Dynamic.step in H. simpl in *.
  destruct (t <? now sh) eqn:Et; [discriminate|].
  destruct who; simpl in H.
  - (* main *)
    right. destruct m; simpl in H.
    + destruct (i <=? Dynamic.tasksSent) eqn:Ei.
      * destruct (chan_send (tasks sh) (mkTask i 0)) eqn:E; try discriminate.
        simpl in H. injection H as <-. split; [|reflexivity].
        exists AProducer. unfold step, as_pool. simpl. rewrite Et. simpl.
        change (numTasks fivePool) with Dynamic.tasksSent. rewrite Ei.
        apply chan_send_ok in E as (Hc & _ & ->). simpl in Hc.
        unfold chan_send, chan_len in *. simpl in *. rewrite Hc.
        destruct (Z.of_nat (length (buf (tasks sh))) <? Dynamic.tasksSent) eqn:E;
          [reflexivity|unfold Dynamic.tasksSent in *; lia].
      * destruct (chan_close (tasks sh)) eqn:E; try discriminate.
        simpl in H. injection H as <-. split; [|reflexivity].
        exists AProducer. unfold step, as_pool. simpl. rewrite Et. simpl.
        change (numTasks fivePool) with Dynamic.tasksSent. rewrite Ei.
        apply chan_close_ok in E as (Hc & ->).
        unfold chan_close. simpl. rewrite Hc. reflexivity.
    + unfold wg_wait in H. simpl in H. destruct (wg sh =? 0) eqn:E; [|discriminate].
      simpl in H. injection H as <-. split; [|reflexivity].
      exists ACloser. unfold step, as_pool. simpl. rewrite Et. simpl.
      unfold wg_wait. simpl. rewrite E. reflexivity.
    + destruct (chan_close (results sh)) eqn:E; try discriminate.
      simpl in H. injection H as <-. split; [|reflexivity].
      exists ACloser. unfold step, as_pool. simpl. rewrite Et. simpl.
      apply chan_close_ok in E as (Hc & ->).
      unfold chan_close. simpl. rewrite Hc. reflexivity.
    + split; [|destruct (chan_recv (results sh)) as [[[x|] c]| |]; try discriminate;
                simpl in H; injection H as <-; reflexivity].
      exists ACollector. unfold step, as_pool. simpl. rewrite Et. simpl.
      unfold chan_recv in *. simpl in *.
      destruct (buf (results sh)) as [|x rest]; simpl in *.
      * destruct (closed (results sh)); [|discriminate].
        simpl in H. injection H as <-. reflexivity.
      * injection H as <-. reflexivity.
    + discriminate.
  - (* the check of the backlog *)
    left. destruct H3 as [-> | ->]; [|discriminate]. simpl in H.
    destruct (Dynamic.threshold <? chan_len (tasks sh)) eqn:E.
    + exfalso. unfold Dynamic.threshold, Dynamic.tasksSent in *. lia.
    + simpl in H. injection H as <-. simpl. rewrite app_nil_r. auto.
  - (* a worker *)
    right. destruct (ws !! i) as [w|] eqn:Ew; [|discriminate].
    destruct (worker (set_now sh t) w) as [[sh' w']| |] eqn:E; try discriminate.
    simpl in H. injection H as <-. split; [|reflexivity].
    exists (AWorker i). unfold step, as_pool. simpl. rewrite Et, Ew.
    change (run_worker fivePool) with worker.
    change (set_now (recap sh) t) with (recap (set_now sh t)).
    rewrite (worker_recap _ _ _ _ E); [reflexivity|].
    intros x Hx. destruct (Hroom i w x Ew Hx) as [_ Hr]. exact Hr.
Qed.

Lemma fivePool_range : 0 <= numTasks fivePool < 2 ^ 62.
Proof. simpl. unfold Dynamic.tasksSent. lia. Qed.

Lemma dynamic_Inv_runs st t0 p :
  0 <= tasksProcessed st < 2 ^ 64 ->
  Dynamic.runs (Dynamic.setup st t0) p ->
  Inv fivePool (tasksProcessed st) (as_pool p).
Proof.
  intros Hst. induction 1 as [|q who t q' Hq IH Hs].
  - rewrite as_pool_setup. now apply Inv_Start with t0.
  - pose proof (backlog_inv_runs st t0 q Hq) as B.
    destruct (dynamic_step_sim _ _ _ _ _ B IH Hs) as [(-> & _)|[(a & Ha) _]].
    + now apply Inv_tick.
    + apply step_trans in Ha as [_ T].
      apply (Inv_trans fivePool _ fivePool_range (tick t (as_pool q)));
        [now apply Inv_tick|exact T].
Qed.

(** Both channels of the dynamic pool keep their capacity of 10. *)
Lemma dynamic_caps_runs st t0 p :
  Dynamic.runs (Dynamic.setup st t0) p ->
  cap (tasks (Dynamic.shared p)) = Dynamic.numTasks /\
  cap (results (Dynamic.shared p)) = Dynamic.numTasks.
Proof.
  induction 1 as [|q who t q' Hq IH Hs]; [split; reflexivity|].
  destruct q as [sh m s col ws]. unfold Dynamic.step in Hs. simpl in *.
  destruct (t <? now sh); [discriminate|].
  destruct who; simpl in Hs.
  - destruct m; simpl in Hs.
    + destruct (i <=? Dynamic.tasksSent).
      * destruct (chan_send (tasks sh) (mkTask i 0)) eqn:E; try discriminate.
        simpl in Hs. injection Hs as <-. simpl.
        apply chan_send_ok in E as (_ & _ & ->). exact IH.
      * destruct (chan_close (tasks sh)) eqn:E; try discriminate.
        simpl in Hs. injection Hs as <-. simpl.
        apply chan_close_ok in E as (_ & ->). exact IH.
    + unfold wg_wait in Hs. simpl in Hs. destruct (wg sh =? 0); [|discriminate].
      simpl in Hs. injection Hs as <-. exact IH.
    + destruct (chan_close (results sh)) eqn:E; try discriminate.
      simpl in Hs. injection Hs as <-. simpl.
      apply chan_close_ok in E as (_ & ->). exact IH.
    + unfold chan_recv in Hs. simpl in Hs.
      destruct (buf (results sh)) as [|x rest]; simpl in Hs.
      * destruct (closed (results sh)); [|discriminate].
        simpl in Hs. injection Hs as <-. exact IH.
      * injection Hs as <-. exact IH.
    + discriminate.
  - destruct s; simpl in Hs; try discriminate.
    + destruct (Dynamic.threshold <? chan_len (tasks sh));
        simpl in Hs; injection Hs as <-; exact IH.
    + unfold wg_add in Hs. simpl in Hs. destruct (wg sh + 1 <? 0); [discriminate|].
      simpl in Hs. injection Hs as <-. exact IH.
    + injection Hs as <-. exact IH.
  - destruct (ws !! i) as [w|]; [|discriminate].
    destruct (worker (set_now sh t) w) as [[sh' w']| |] eqn:E; try discriminate.
    simpl in Hs. injection Hs as <-. simpl.
    apply (run_worker_trans fivePool) in E. destruct E; simpl in *; exact IH.
Qed.

Lemma fivePool_rate : rate_ok fivePool.
Proof. exact I. Qed.

Lemma dynamic_no_panic st t0 p who t :
  0 <= tasksProcessed st < 2 ^ 64 ->
  Dynamic.runs (Dynamic.setup st t0) p ->
  is_panic (Dynamic.step who t p) = false.
Proof.
  intros Hst Hruns.
  pose proof (dynamic_Inv_runs st t0 p Hst Hruns)
    as [Hcaps Hprod Hids Hres Hwg Hcl Hex Hmn Hcnt Hsh].
  pose proof (backlog_inv_runs st t0 p Hruns) as (_ & _ & Hsc & _).
  destruct p as [sh m s col ws]. unfold Dynamic.step. simpl in *.
  destruct (t <? now sh); [reflexivity|].
  destruct who; simpl.
  - destruct m; simpl in *; try reflexivity.
    + destruct Hprod as [_ Hc]. destruct (i <=? Dynamic.tasksSent).
      * unfold chan_send. simpl. rewrite Hc.
        now destruct (chan_len (tasks sh) <? cap (tasks sh)).
      * unfold chan_close. simpl. now rewrite Hc.
    + unfold wg_wait. simpl. now destruct (wg sh =? 0).
    + unfold chan_close. simpl. now destruct Hcl as [-> _].
    + unfold chan_recv. simpl. destruct (buf (results sh)); [|reflexivity].
      now destruct (closed (results sh)).
  - destruct Hsc as [-> | ->]; [|reflexivity]. simpl.
    now destruct (Dynamic.threshold <? chan_len (tasks sh)).
  - destruct (ws !! i) as [w|] eqn:Hi; [|reflexivity].
    pose proof (worker_no_panic fivePool fivePool_rate (set_now sh t) w) as H.
    change (run_worker fivePool) with worker in H.
    destruct (worker (set_now sh t) w); try reflexivity.
    apply H.
    + eapply Forall_lookup_1; eauto.
    + intros Hne. simpl.
      assert (1 <= wg sh).
      { pose proof (live_le_sum ws i w Hi). unfold live in *.
        destruct (pc w); (congruence || lia). }
      split; [assumption|]. destruct m; simpl in *; (assumption || lia).
Qed.

(** As long as [main] has not left its last loop, some goroutine of the
    dynamic pool can take a step. *)
Lemma dynamic_progress st t0 p :
  0 <= tasksProcessed st < 2 ^ 64 ->
  Dynamic.runs (Dynamic.setup st t0) p ->
  Dynamic.main p <> Dynamic.DDone ->
  exists who t p', Dynamic.step who t p = Ok p'.
Proof.
  intros Hst Hruns Hne.
  pose proof (dynamic_Inv_runs st t0 p Hst Hruns) as I.
  pose proof (fun i w x => results_has_room fivePool _ (as_pool p) i w x I) as Hroom.
  destruct I as [Hcaps Hprod Hids Hres Hwg Hcl Hex Hmn Hcnt Hsh].
  pose proof (backlog_inv_runs st t0 p Hruns) as (Hb & Hs5 & _ & _).
  destruct (dynamic_caps_runs st t0 p Hruns) as [Ecap1 Ecap2].
  destruct p as [sh m s col ws]. simpl in *.
  assert (Et : (now sh <? now sh) = false) by (apply Z.ltb_ge; lia).
  destruct m; simpl in *.
  - (* sending, or closing dynamicTasks *)
    exists Dynamic.AMain, (now sh). unfold Dynamic.step. simpl. rewrite Et. simpl.
    destruct Hprod as [_ Hc]. destruct (i <=? Dynamic.tasksSent).
    + unfold chan_send. simpl. rewrite Hc.
      destruct (chan_len (tasks sh) <? cap (tasks sh)) eqn:E; [simpl; eauto|].
      unfold Dynamic.numTasks, Dynamic.tasksSent in *. lia.
    + unfold chan_close. simpl. rewrite Hc. simpl. eauto.
  - (* waiting for the workers *)
    destruct (some_worker_live ws) as [Hall|(i & w & Hi & Hw)].
    + exists Dynamic.AMain, (now sh). unfold Dynamic.step. simpl. rewrite Et. simpl.
      unfold wg_wait. simpl. rewrite Hwg, (all_exited_live _ Hall). simpl. eauto.
    + destruct (worker_can_step fivePool fivePool_rate sh w) as (t & r & Ht & Hr).
      * eapply Forall_lookup_1; eauto.
      * exact Hw.
      * intros _. right. exact Hprod.
      * pose proof (live_le_sum ws i w Hi). unfold live in *.
        destruct (pc w); (congruence || lia).
      * exact Hcl.
      * intros x Hx. destruct (Hroom i w x Hi Hx) as [_ Hlt]. simpl in Hlt.
        unfold chan_len in *. simpl in Hlt.
        unfold Dynamic.numTasks, Dynamic.tasksSent in *. lia.
      * exists (Dynamic.AWorker i), t. unfold Dynamic.step. simpl.
        assert (Et' : (t <? now sh) = false) by (apply Z.ltb_ge; lia).
        rewrite Et', Hi. change (run_worker fivePool) with worker in Hr.
        rewrite Hr. simpl. eauto.
  - (* closing dynamicResults *)
    exists Dynamic.AMain, (now sh). unfold Dynamic.step. simpl. rewrite Et. simpl.
    unfold chan_close. simpl. destruct Hcl as [-> _]. simpl. eauto.
  - (* ranging over dynamicResults *)
    exists Dynamic.AMain, (now sh). unfold Dynamic.step. simpl. rewrite Et. simpl.
    unfold chan_recv. simpl. destruct Hcl as [-> _].
    destruct (buf (results sh)); simpl; eauto.
  - congruence.
Qed.

Lemma dynamic_remaining_step st t0 who t p p' :
  0 <= tasksProcessed st < 2 ^ 64 ->
  Dynamic.runs (Dynamic.setup st t0) p ->
  Dynamic.step who t p = Ok p' ->
  0 <= dynamic_remaining p' < dynamic_remaining p.
Proof.
  intros Hst Hruns Hs.
  pose proof (dynamic_Inv_runs st t0 p Hst Hruns) as I.
  assert (Hruns' : Dynamic.runs (Dynamic.setup st t0) p')
    by (eapply Dynamic.runs_step; eauto).
  pose proof (dynamic_Inv_runs st t0 p' Hst Hruns') as I'.
  pose proof (remaining_nonneg fivePool _ (as_pool p') I') as Hnn.
  pose proof (backlog_inv_runs st t0 p Hruns) as B.
  unfold dynamic_remaining.
  destruct (dynamic_step_sim _ _ _ _ _ B I Hs) as [(E & -> & ->)|[(a & Ha) ->]].
  - rewrite E in Hnn |- *.
    change (remaining fivePool (tick t (as_pool p)))
      with (remaining fivePool (as_pool p)) in *. lia.
  - pose proof (remaining_step fivePool _ fivePool_range _ _ _ _ I Ha).
    destruct (Dynamic.scaler p); lia.
Qed.

Lemma dynamic_run_bounded st t0 sched :
  0 <= tasksProcessed st < 2 ^ 64 ->
  forall p p', Dynamic.runs (Dynamic.setup st t0) p ->
    Dynamic.run sched p = Ok p' ->
    0 <= dynamic_remaining p' /\
    dynamic_remaining p' + Z.of_nat (length sched) <= dynamic_remaining p.
Proof.
  intros Hst. induction sched as [|[who t] rest IH]; simpl; intros p p' Hruns H.
  - injection H as <-.
    pose proof (dynamic_Inv_runs st t0 p Hst Hruns) as I.
    pose proof (remaining_nonneg fivePool _ (as_pool p) I).
    unfold dynamic_remaining. destruct (Dynamic.scaler p); lia.
  - destruct (Dynamic.step who t p) as [q| |] eqn:E; try discriminate. simpl in H.
    pose proof (dynamic_remaining_step st t0 _ _ _ _ Hst Hruns E).
    assert (Hq : Dynamic.runs (Dynamic.setup st t0) q)
      by (eapply Dynamic.runs_step; eauto).
    specialize (IH q p' Hq H). lia.
Qed.

Lemma dynamic_run_to_end st t0 p :
  0 <= tasksProcessed st < 2 ^ 64 ->
  Dynamic.runs (Dynamic.setup st t0) p ->
  exists sched p', Dynamic.run sched p = Ok p' /\ Dynamic.main p' = Dynamic.DDone.
Proof.
  intros Hst.
  assert (G : forall n q, Dynamic.runs (Dynamic.setup st t0) q ->
              dynamic_remaining q <= Z.of_nat n ->
              exists sched q', Dynamic.run sched q = Ok q' /\
                               Dynamic.main q' = Dynamic.DDone).
  { induction n as [|n IH]; intros q Hq Hn.
    - destruct (Dynamic.main q) eqn:Em;
        try (destruct (dynamic_progress st t0 q Hst Hq) as (who & t & q' & Hs);
             [congruence|];
             pose proof (dynamic_remaining_step st t0 _ _ _ _ Hst Hq Hs); lia).
      exists [], q. auto.
    - destruct (Dynamic.main q) eqn:Em;
        try (destruct (dynamic_progress st t0 q Hst Hq) as (who & t & q' & Hs);
             [congruence|];
             pose proof (dynamic_remaining_step st t0 _ _ _ _ Hst Hq Hs);
             assert (Hq' : Dynamic.runs (Dynamic.setup st t0) q')
               by (eapply Dynamic.runs_step; eauto);
             destruct (IH q' Hq') as (sched & q'' & Hr & Hd); [lia|];
             exists ((who, t) :: sched), q''; simpl; rewrite Hs; simpl; auto).
      exists [], q. auto. }
  intros Hruns. apply (G (Z.to_nat (dynamic_remaining p)) p Hruns). lia.
Qed.

(** [main] collects nothing before it has closed [dynamicResults]. *)
Lemma dynamic_collects_late st t0 p :
  Dynamic.runs (Dynamic.setup st t0) p ->
  collector_of (Dynamic.main p) = MRange ->
  closer_of (Dynamic.main p) <> CDone ->
  Dynamic.collected p = [].
Proof.
  induction 1 as [|q who t q' Hq IH Hs]; [reflexivity|].
  destruct q as [sh m s col ws]. unfold Dynamic.step in Hs. simpl in *.
  destruct (t <? now sh); [discriminate|].
  destruct who; simpl in Hs.
  - destruct m; simpl in *.
    + destruct (i <=? Dynamic.tasksSent).
      * destruct (chan_send (tasks sh) (mkTask i 0)); try discriminate.
        simpl in Hs. injection Hs as <-. simpl. intros _ _. apply IH; congruence.
      * destruct (chan_close (tasks sh)); try discriminate.
        simpl in Hs. injection Hs as <-. simpl. intros _ _. apply IH; congruence.
    + destruct (wg_wait (set_now sh t)); try discriminate.
      simpl in Hs. injection Hs as <-. simpl. intros _ _. apply IH; congruence.
    + destruct (chan_close (results sh)); try discriminate.
      simpl in Hs. injection Hs as <-. simpl. congruence.
    + destruct (chan_recv (results sh)) as [[[x|] c]| |]; try discriminate;
        simpl in Hs; injection Hs as <-; simpl; congruence.
    + discriminate.
  - destruct (Dynamic.scaler_step (set_now sh t) s) as [[[sh' s'] l]| |];
      try discriminate.
    simpl in Hs. injection Hs as <-. simpl. exact IH.
  - destruct (ws !! i) as [w|]; [|discriminate].
    destruct (worker (set_now sh t) w) as [[sh' w']| |]; try discriminate.
    simpl in Hs. injection Hs as <-. simpl. exact IH.
Qed.

(** Once the wait group has come down to zero every worker has returned,
    [tasks] is drained, and all the results are in [results] or logged. *)
Lemma drained_results cfg tp0 p :
  Inv cfg tp0 p -> closer p <> CWait -> (0 < length (workers p))%nat ->
  buf (results (shared p)) ++ collected p ≡ₚ expected (numTasks cfg) /\
  Forall (fun w => pc w = Exited) (workers p) /\
  producer p = PDone /\ buf (tasks (shared p)) = [].
Proof.
  intros I Hcl Hlen.
  assert (Hall : Forall (fun w => pc w = Exited) (workers p)).
  { apply sumZ_live_zero. rewrite <- (inv_wg _ _ _ I).
    pose proof (inv_closer _ _ _ I) as H. destruct (closer p); [congruence| |]; tauto. }
  destruct (exited_holds_nothing _ Hall) as (Eh & Ep & _).
  assert (Ht : closed (tasks (shared p)) = true /\ buf (tasks (shared p)) = []).
  { apply (inv_exit _ _ _ I). destruct (workers p) as [|w ws]; [simpl in Hlen; lia|].
    exists w. split; [apply elem_of_cons; auto|]. now inversion Hall. }
  destruct Ht as [Htc Htb].
  assert (Hp : producer p = PDone).
  { pose proof (inv_prod _ _ _ I) as H. destruct (producer p); [|reflexivity].
    destruct H. congruence. }
  repeat split; auto.
  pose proof (inv_ids _ _ _ I) as Hids. pose proof (inv_res _ _ _ I) as Hres.
  rewrite Htb, Eh, Hp in Hids. rewrite Ep in Hres. simpl in *.
  rewrite (doubled_rebuild _ Hres). unfold expected. now rewrite Hids.
Qed.

Lemma dynamic_pool_results st t0 p :
  0 <= tasksProcessed st < 2 ^ 64 ->
  Dynamic.runs (Dynamic.setup st t0) p ->
  Dynamic.main p = Dynamic.DDone ->
  Dynamic.collected p ≡ₚ expected Dynamic.tasksSent /\
  tasksProcessed (stats (Dynamic.shared p))
  = wrap_uint64 (tasksProcessed st + Dynamic.tasksSent).
Proof.
  intros Hst Hruns Em.
  pose proof (dynamic_Inv_runs st t0 p Hst Hruns) as I.
  pose proof (backlog_inv_runs st t0 p Hruns) as (_ & _ & _ & Hlen).
  assert (Hlen' : (0 < length (workers (as_pool p)))%nat).
  { simpl. rewrite Hlen. unfold Dynamic.initialWorkers. lia. }
  assert (Hdone : completed (as_pool p)) by (unfold completed; simpl; now rewrite Em).
  destruct (completed_collected fivePool _ (as_pool p) I Hlen' Hdone)
    as (Hc & _ & _ & _ & Hrb & Hall).
  pose proof (inv_count _ _ _ I) as Hcnt.
  destruct (exited_holds_nothing _ Hall) as (_ & _ & Ez).
  simpl in *. split; [exact Hc|].
  rewrite Hcnt, Ez. unfold chan_len. simpl. rewrite Hrb.
  apply Permutation_length in Hc. unfold expected in Hc.
  rewrite length_fmap, length_seqZ in Hc. f_equal.
  unfold Dynamic.tasksSent in *. simpl. lia.
Qed.

(** X7.  Section 3 of [main], in every interleaving: no step panics; [main]
    logs nothing before it has closed [dynamicResults], and when it closes the
    channel the buffer holds the results of all five tasks, each with its
    identifier doubled; when [main] leaves its last loop it has logged exactly
    these five, both channels are closed and empty, both workers have
    returned, and [tasksProcessed] has grown by 5. *)
Theorem dynamic_pool_collects_five st t0 p :
  0 <= tasksProcessed st < 2 ^ 64 ->
  Dynamic.runs (Dynamic.setup st t0) p ->
  (forall who t, is_panic (Dynamic.step who t p) = false) /\
  (Dynamic.main p <> Dynamic.DRange -> Dynamic.main p <> Dynamic.DDone ->
     Dynamic.collected p = []) /\
  (Dynamic.main p = Dynamic.DCloseResults ->
     buf (results (Dynamic.shared p)) ≡ₚ expected Dynamic.tasksSent /\
     Forall (fun w => pc w = Exited) (Dynamic.workers p)) /\
  (Dynamic.main p = Dynamic.DDone ->
     Dynamic.collected p ≡ₚ expected Dynamic.tasksSent /\
     tasks (Dynamic.shared p) = mkChan [] true Dynamic.numTasks /\
     results (Dynamic.shared p) = mkChan [] true Dynamic.numTasks /\
     Forall (fun w => pc w = Exited) (Dynamic.workers p) /\
     tasksProcessed (stats (Dynamic.shared p))
     = wrap_uint64 (tasksProcessed st + Dynamic.tasksSent)).
Proof.
  intros Hst Hruns.
  pose proof (dynamic_Inv_runs st t0 p Hst Hruns) as I.
  pose proof (backlog_inv_runs st t0 p Hruns) as (_ & _ & _ & Hlen).
  destruct (dynamic_caps_runs st t0 p Hruns) as [Ecap1 Ecap2].
  assert (Hlen' : (0 < length (workers (as_pool p)))%nat).
  { simpl. rewrite Hlen. unfold Dynamic.initialWorkers. lia. }
  assert (Hlate : Dynamic.main p <> Dynamic.DRange ->
                  Dynamic.main p <> Dynamic.DDone -> Dynamic.collected p = []).
  { intros H1 H2. apply (dynamic_collects_late st t0 p Hruns);
      destruct (Dynamic.main p); simpl; congruence. }
  split; [intros who t; now apply dynamic_no_panic with st t0|].
  split; [exact Hlate|]. split.
  - intros Em.
    destruct (drained_results fivePool _ (as_pool p) I) as (Hc & Hall & _); auto.
    { simpl. rewrite Em. discriminate. }
    simpl in Hc, Hall. rewrite Hlate, app_nil_r in Hc by congruence. auto.
  - intros Em.
    assert (Hdone : completed (as_pool p)) by (unfold completed; simpl; now rewrite Em).
    destruct (completed_collected fivePool _ (as_pool p) I Hlen' Hdone)
      as (Hc & _ & _ & Htb & Hrb & Hall).
    pose proof (inv_count _ _ _ I) as Hcnt.
    pose proof (inv_prod _ _ _ I) as Hprod.
    pose proof (inv_closer _ _ _ I) as Hcl.
    destruct (exited_holds_nothing _ Hall) as (_ & _ & Ez).
    simpl in *. rewrite Em in *. simpl in *. destruct Hcl as [Hcl _].
    split; [exact Hc|].
    split. { destruct (tasks (Dynamic.shared p)). simpl in *. congruence. }
    split. { destruct (results (Dynamic.shared p)). simpl in *. congruence. }
    split; [exact Hall|].
    rewrite Hcnt, Ez. unfold chan_len. simpl. rewrite Hrb.
    apply Permutation_length in Hc. unfold expected in Hc.
    rewrite length_fmap, length_seqZ in Hc. f_equal.
    unfold Dynamic.tasksSent in *. simpl. lia.
Qed.

Lemma dynamic_pool_collects_five_witness :
  let p0 := Dynamic.setup freshStats 0 in
  let p := match Dynamic.run (dynamic_schedule 70 p0) p0 with
           | Ok p => p | _ => p0 end in
  (0 <= tasksProcessed freshStats < 2 ^ 64 /\ Dynamic.runs p0 p /\
   Dynamic.main p = Dynamic.DDone) /\
  Dynamic.collected p ≡ₚ expected 5 /\
  tasksProcessed (stats (Dynamic.shared p)) = 5.
Proof.
  intros p0 p.
  assert (H1 : 0 <= tasksProcessed freshStats < 2 ^ 64) by (simpl; lia).
  assert (H2 : Dynamic.runs p0 p).
  { apply dynamic_run_runs with (dynamic_schedule 70 p0). vm_compute. reflexivity. }
  assert (H3 : Dynamic.main p = Dynamic.DDone) by (vm_compute; reflexivity).
  split; [tauto|].
  destruct (dynamic_pool_collects_five freshStats 0 p H1 H2) as (_ & _ & _ & A).
  destruct (A H3) as (B & _ & _ & _ & C). split; [exact B|]. rewrite C. reflexivity.
Defined.

(** X8.  Section 3 of [main] cannot get stuck and always ends: as long as
    [main] has not left its last loop some goroutine can take a step, every
    state can be run on until [main] is done, and no execution has more steps
    than [dynamic_remaining], which is 59 at the start. *)
Theorem dynamic_pool_runs_to_the_end st t0 p :
  0 <= tasksProcessed st < 2 ^ 64 ->
  Dynamic.runs (Dynamic.setup st t0) p ->
  (Dynamic.main p <> Dynamic.DDone ->
     exists who t p', Dynamic.step who t p = Ok p') /\
  (exists sched p', Dynamic.run sched p = Ok p' /\ Dynamic.main p' = Dynamic.DDone) /\
  (forall sched p', Dynamic.run sched p = Ok p' ->
     Z.of_nat (length sched) <= dynamic_remaining p) /\
  dynamic_remaining p <= dynamic_remaining (Dynamic.setup st t0) /\
  dynamic_remaining (Dynamic.setup st t0) = 59.
Proof.
  intros Hst Hruns.
  split; [now apply dynamic_progress with st t0|].
  split; [now apply dynamic_run_to_end with st t0|].
  split.
  { intros sched p' Hr.
    pose proof (dynamic_run_bounded st t0 sched Hst p p' Hruns Hr). lia. }
  split; [|reflexivity].
  induction Hruns as [|q who t q' Hq IH Hs]; [lia|].
  pose proof (dynamic_remaining_step st t0 _ _ _ _ Hst Hq Hs). lia.
Qed.

Lemma dynamic_pool_runs_to_the_end_witness :
  let p0 := Dynamic.setup freshStats 0 in
  let sched := dynamic_schedule 70 p0 in
  let p := match Dynamic.run sched p0 with Ok p => p | _ => p0 end in
  (0 <= tasksProcessed freshStats < 2 ^ 64 /\ Dynamic.runs p0 p0 /\
   Dynamic.run sched p0 = Ok p) /\
  Z.of_nat (length sched) <= 59.
Proof.
  intros p0 sched p.
  assert (H1 : 0 <= tasksProcessed freshStats < 2 ^ 64) by (simpl; lia).
  assert (H2 : Dynamic.runs p0 p0) by constructor.
  assert (H3 : Dynamic.run sched p0 = Ok p) by (vm_compute; reflexivity).
  split; [exact (conj H1 (conj H2 H3))|].
  destruct (dynamic_pool_runs_to_the_end freshStats 0 p0 H1 H2) as (_ & _ & A & _ & B).
  pose proof (A sched p H3) as C. fold p0 in B. rewrite B in C. exact C.
Defined.

(** ** The three sections of [main], one after the other *)

Lemma runs_now_le cfg p q : runs cfg p q -> now (shared p) <= now (shared q).
Proof.
  induction 1 as [|q who t q' _ IH Hs]; [lia|].
  pose proof (step_now _ _ _ _ _ Hs). apply step_trans in Hs as [Ht _]. lia.
Qed.

Lemma dynamic_runs_now_le p q :
  Dynamic.runs p q -> now (Dynamic.shared p) <= now (Dynamic.shared q).
Proof.
  induction 1 as [|q who t q' _ IH Hs]; [lia|].
  assert (now (Dynamic.shared q) <= now (Dynamic.shared q')); [|lia].
  revert Hs. unfold Dynamic.step.
  destruct (t <? now (Dynamic.shared q)) eqn:Et; [discriminate|].
  apply Z.ltb_ge in Et. destruct who; simpl.
  - destruct (Dynamic.main q); simpl; try discriminate.
    + destruct (i <=? Dynamic.tasksSent).
      * destruct (chan_send _ _); try discriminate. simpl. intros [= <-]. simpl. lia.
      * destruct (chan_close _); try discriminate. simpl. intros [= <-]. simpl. lia.
    + unfold wg_wait. destruct (wg _ =? 0); try discriminate.
      simpl. intros [= <-]. simpl. lia.
    + destruct (chan_close _); try discriminate. simpl. intros [= <-]. simpl. lia.
    + destruct (chan_recv _) as [[[x|] c]| |]; try discriminate;
        simpl; intros [= <-]; simpl; lia.
  - destruct (Dynamic.scaler q); simpl; try discriminate.
    + destruct (Dynamic.threshold <? _); simpl; intros [= <-]; simpl; lia.
    + unfold wg_add. destruct (_ <? 0); try discriminate.
      simpl. intros [= <-]. simpl. lia.
    + intros [= <-]. simpl. lia.
  - destruct (Dynamic.workers q !! i) as [w|]; [|discriminate].
    destruct (worker (set_now (Dynamic.shared q) t) w) as [[sh' w']| |] eqn:E;
      try discriminate.
    simpl. intros [= <-]. simpl.
    apply (run_worker_trans fivePool) in E. destruct E; simpl; lia.
Qed.

Lemma count_at_completion cfg st t0 p :
  0 <= numTasks cfg < 2 ^ 62 -> 1 <= numWorkers cfg ->
  0 <= tasksProcessed st < 2 ^ 64 ->
  runs cfg (setup cfg st t0) p -> completed p ->
  tasksProcessed (stats (shared p)) = wrap_uint64 (tasksProcessed st + numTasks cfg) /\
  collected p ≡ₚ expected (numTasks cfg).
Proof.
  intros HN HW Hst Hruns Hdone.
  assert (Hstart : Start cfg st t0 = Ok (setup cfg st t0)).
  { unfold Start. destruct (numTasks cfg <? 0) eqn:E; [lia|reflexivity]. }
  pose proof (Inv_runs cfg st t0 _ HN Hst Hstart p Hruns) as I.
  pose proof (Start_ok _ _ _ _ Hstart) as (_ & _ & E0).
  destruct (completed_collected cfg _ p I) as (Hc & _ & _ & _ & Hrb & Hall); auto.
  { rewrite (runs_workers_length _ _ _ Hruns), E0. simpl.
    rewrite length_replicate. lia. }
  split; [|exact Hc].
  rewrite (inv_count _ _ _ I). destruct (exited_holds_nothing _ Hall) as (_ & _ & ->).
  unfold chan_len. rewrite Hrb. simpl.
  apply Permutation_length in Hc. unfold expected in Hc.
  rewrite length_fmap, length_seqZ in Hc. f_equal. lia.
Qed.

(** X9.  [main] as a whole, in every interleaving of every section: the one
    [stats] object is handed from section to section, so when the basic pool
    is done [tasksProcessed] is 10, when the rate-limited pool is done it is
    20, and when the dynamic pool is done it is 25; every section has logged
    the results of all its tasks; the rate-limited pool starts without a
    panic; and the clock readings of the sections follow one another. *)
Theorem main_counts_across_sections t0 p1 p2 p3 :
  runs basicPool (setup basicPool freshStats t0) p1 -> completed p1 ->
  runs rateLimitedPool
       (setup rateLimitedPool (stats (shared p1)) (now (shared p1))) p2 ->
  completed p2 ->
  Dynamic.runs (dynamicStart p2) p3 -> Dynamic.main p3 = Dynamic.DDone ->
  rateLimitedStart p1
  = Ok (setup rateLimitedPool (stats (shared p1)) (now (shared p1))) /\
  tasksProcessed (stats (shared p1)) = 10 /\
  tasksProcessed (stats (shared p2)) = 20 /\
  tasksProcessed (stats (Dynamic.shared p3)) = 25 /\
  collected p1 ≡ₚ expected 10 /\ collected p2 ≡ₚ expected 10 /\
  Dynamic.collected p3 ≡ₚ expected 5 /\
  t0 <= now (shared p1) <= now (shared p2) /\
  now (shared p2) <= now (Dynamic.shared p3).
Proof.
  intros R1 D1 R2 D2 R3 D3.
  destruct (count_at_completion basicPool freshStats t0 p1) as [E1 C1];
    try (simpl; lia); auto.
  change (wrap_uint64 (tasksProcessed freshStats + numTasks basicPool)) with 10 in E1.
  destruct (count_at_completion rateLimitedPool (stats (shared p1))
              (now (shared p1)) p2) as [E2 C2];
    try exact R2; try (rewrite ?E1; simpl; lia); auto.
  rewrite E1 in E2.
  change (wrap_uint64 (10 + numTasks rateLimitedPool)) with 20 in E2.
  assert (Hst : 0 <= tasksProcessed (stats (shared p2)) < 2 ^ 64) by (rewrite E2; lia).
  destruct (dynamic_pool_results (stats (shared p2)) (now (shared p2)) p3 Hst R3 D3)
    as [C3 E3].
  rewrite E2 in E3. change (wrap_uint64 (20 + Dynamic.tasksSent)) with 25 in E3.
  pose proof (runs_now_le _ _ _ R1) as N1.
  pose proof (runs_now_le _ _ _ R2) as N2.
  pose proof (dynamic_runs_now_le _ _ R3) as N3.
  simpl in N1, N2. change (now (Dynamic.shared (dynamicStart p2)))
    with (now (shared p2)) in N3.
  repeat split; auto; lia.
Qed.

Lemma main_counts_across_sections_witness :
  let run1 p0 := match run basicPool (schedule 90 basicPool p0) p0 with
                 | Ok p => p | _ => p0 end in
  let run2 p0 := match run rateLimitedPool (schedule 120 rateLimitedPool p0) p0 with
                 | Ok p => p | _ => p0 end in
  let run3 p0 := match Dynamic.run (dynamic_schedule 70 p0) p0 with
                 | Ok p => p | _ => p0 end in
  let p1 := run1 (setup basicPool freshStats 0) in
  let p2 := run2 (setup rateLimitedPool (stats (shared p1)) (now (shared p1))) in
  let p3 := run3 (dynamicStart p2) in
  (runs basicPool (setup basicPool freshStats 0) p1 /\ completed p1 /\
   runs rateLimitedPool
        (setup rateLimitedPool (stats (shared p1)) (now (shared p1))) p2 /\
   completed p2 /\
   Dynamic.runs (dynamicStart p2) p3 /\ Dynamic.main p3 = Dynamic.DDone) /\
  tasksProcessed (stats (Dynamic.shared p3)) = 25.
Proof.
  intros run1 run2 run3 p1 p2 p3.
  assert (H1 : runs basicPool (setup basicPool freshStats 0) p1).
  { apply run_runs with (schedule 90 basicPool (setup basicPool freshStats 0)).
    vm_compute. reflexivity. }
  assert (H2 : completed p1) by (vm_compute; reflexivity).
  assert (H3 : runs rateLimitedPool
                 (setup rateLimitedPool (stats (shared p1)) (now (shared p1))) p2).
  { apply run_runs with
      (schedule 120 rateLimitedPool
         (setup rateLimitedPool (stats (shared p1)) (now (shared p1)))).
    vm_compute. reflexivity. }
  assert (H4 : completed p2) by (vm_compute; reflexivity).
  assert (H5 : Dynamic.runs (dynamicStart p2) p3).
  { apply dynamic_run_runs with (dynamic_schedule 70 (dynamicStart p2)).
    vm_compute. reflexivity. }
  assert (H6 : Dynamic.main p3 = Dynamic.DDone) by (vm_compute; reflexivity).
  split; [tauto|].
  destruct (main_counts_across_sections 0 p1 p2 p3 H1 H2 H3 H4 H5 H6)
    as (_ & _ & _ & A & _). exact A.
Defined.

(** ** The counter between the tasks taken and the results delivered *)

Lemma counted_le_one w : 0 <= counted w <= 1.
Proof. unfold counted. destruct (pc w); lia. Qed.

Lemma sumZ_counted_le ws : 0 <= sumZ counted ws <= Z.of_nat (length ws).
Proof.
  induction ws as [|w ws IH]; simpl sumZ; simpl length; [lia|].
  pose proof (counted_le_one w). lia.
Qed.

(** X10.  While a pool runs, and as long as the counter cannot wrap around,
    the number of tasks counted in [tasksProcessed] lies between the results
    the workers have put on [results] and the tasks they have taken off
    [tasks]; it runs ahead of the results by at most one task per worker, and
    never exceeds [numTasks]. *)
Theorem processed_count_brackets cfg st t0 p0 :
  0 <= numTasks cfg < 2 ^ 62 ->
  0 <= tasksProcessed st ->
  tasksProcessed st + numTasks cfg < 2 ^ 64 ->
  Start cfg st t0 = Ok p0 ->
  forall p, runs cfg p0 p ->
    let done := tasksProcessed (stats (shared p)) - tasksProcessed st in
    delivered p <= done <= taken cfg p /\
    done - delivered p <= Z.of_nat (Z.to_nat (numWorkers cfg)) /\
    taken cfg p <= numTasks cfg.
Proof.
  intros HN Hst0 Hfit Hstart p Hruns done.
  assert (Hst : 0 <= tasksProcessed st < 2 ^ 64) by lia.
  pose proof (Inv_runs cfg st t0 p0 HN Hst Hstart p Hruns) as I.
  pose proof (Inv_length cfg _ p I) as Hlen.
  pose proof (sent_le cfg _ p I) as Hsent.
  pose proof (inv_prod _ _ _ I) as Hprod.
  pose proof (counted_tasks_le cfg _ p (proj1 HN) I) as (_ & Hk).
  pose proof (sumZ_counted_le (workers p)) as Hc.
  pose proof (sumZ_le counted (fun w => Z.of_nat (length (held w))) (workers p)
                counted_le_held) as Hh.
  rewrite sumZ_held in Hh.
  pose proof (Start_ok _ _ _ _ Hstart) as (_ & _ & E0).
  assert (Hws : length (workers p) = Z.to_nat (numWorkers cfg)).
  { rewrite (runs_workers_length _ _ _ Hruns), E0. simpl. apply length_replicate. }
  assert (Hs0 : 0 <= sent cfg (producer p)).
  { unfold sent. destruct (producer p); lia. }
  assert (Ed : done = sumZ counted (workers p) + delivered p).
  { unfold done, delivered. rewrite (inv_count _ _ _ I).
    unfold counted_tasks in Hk.
    rewrite wrap_uint64_small; [lia|].
    unfold chan_len in *. lia. }
  rewrite Ed, <- Hws. unfold taken, delivered, chan_len in *. lia.
Qed.

Lemma processed_count_brackets_witness :
  let p0 := setup basicPool freshStats 0 in
  let p := match run basicPool (take 40 (schedule 90 basicPool p0)) p0 with
           | Ok p => p | _ => p0 end in
  (0 <= numTasks basicPool < 2 ^ 62 /\ 0 <= tasksProcessed freshStats /\
   tasksProcessed freshStats + numTasks basicPool < 2 ^ 64 /\
   Start basicPool freshStats 0 = Ok p0 /\ runs basicPool p0 p) /\
  delivered p <= tasksProcessed (stats (shared p)) - 0 <= taken basicPool p.
Proof.
  intros p0 p.
  assert (H1 : 0 <= numTasks basicPool < 2 ^ 62) by (simpl; lia).
  assert (H2 : 0 <= tasksProcessed freshStats) by (simpl; lia).
  assert (H3 : tasksProcessed freshStats + numTasks basicPool < 2 ^ 64) by (simpl; lia).
  assert (H4 : Start basicPool freshStats 0 = Ok p0) by reflexivity.
  assert (H5 : runs basicPool p0 p).
  { apply run_runs with (take 40 (schedule 90 basicPool p0)). vm_compute. reflexivity. }
  split; [tauto|].
  destruct (processed_count_brackets basicPool freshStats 0 p0 H1 H2 H3 H4 p H5)
    as [A _]. exact A.
Defined.

(** ** The throughput of a pool *)

Lemma busy_le cfg t0 t w : paced cfg t w -> busy cfg t0 t w <= t - t0.
Proof. unfold busy, paced. destruct (pc w); lia. Qed.

Lemma busy_mono cfg t0 t t' w : t <= t' -> busy cfg t0 t w <= busy cfg t0 t' w.
Proof. intros Ht. unfold busy. destruct (pc w); lia. Qed.

Lemma paced_mono cfg t t' w : t <= t' -> paced cfg t w -> paced cfg t' w.
Proof. intros Ht. unfold paced. destruct (pc w); auto; lia. Qed.

Lemma sumZ_busy_le cfg t0 t ws :
  Forall (paced cfg t) ws ->
  sumZ (busy cfg t0 t) ws <= Z.of_nat (length ws) * (t - t0).
Proof.
  induction 1 as [|w ws Hw _ IH]; simpl length; simpl sumZ; [lia|].
  pose proof (busy_le cfg t0 t w Hw). lia.
Qed.

Lemma NInv_tick cfg t0 t p :
  now (shared p) <= t -> NInv cfg t0 p -> NInv cfg t0 (tick t p).
Proof.
  intros Ht [H1 H2 H3]. constructor; simpl.
  - lia.
  - eapply Forall_impl; [exact H2|]. intros w. now apply paced_mono.
  - change (napped_tasks (tick t p)) with (napped_tasks p).
    pose proof (sumZ_le (busy cfg t0 (now (shared p))) (busy cfg t0 t) (workers p)
                  (fun w => busy_mono cfg t0 _ _ w Ht)). lia.
Qed.

Lemma NInv_trans cfg t0 p p' : NInv cfg t0 p -> trans cfg p p' -> NInv cfg t0 p'.
Proof.
  intros [H1 H2 H3] T. unfold napped_tasks, chan_len in *.
  destruct T as [sh i cl mn col ws Hi Hc Hlen | sh i cl mn col ws Hi Hc
                | sh pr mn col ws Hw | sh pr mn col ws Hc
                | sh pr cl col ws x rest Hb | sh pr cl col ws Hb Hc
                | sh pr cl mn col l1 w l2 sh' w' Wt]; simpl in *;
    try (constructor; unfold napped_tasks, chan_len; simpl; assumption).
  - (* main receives a result *)
    rewrite Hb in *. simpl in *.
    constructor; unfold napped_tasks, chan_len; simpl; auto.
    rewrite length_app. simpl. lia.
  - (* a worker *)
    rewrite !sumZ_app in H3. simpl in H3.
    apply Forall_app in H2 as [F1 F2]. apply Forall_cons in F2 as [Fw F2].
    assert (Hnow : now sh' = now sh) by (destruct Wt; reflexivity).
    assert (Hw' : paced cfg (now sh) w' /\
                  napped w' * nap cfg + Z.of_nat (length (buf (results sh'))) * nap cfg
                  - busy cfg t0 (now sh) w'
                  <= napped w * nap cfg + Z.of_nat (length (buf (results sh))) * nap cfg
                     - busy cfg t0 (now sh) w).
    { destruct Wt as [lim Hr | lim r d Hr Hr0 Hd Hdpos | lim x rest Hb | lim Hb Hc Hw1
                     | x tk tk' r Hr Htk | x lim | x start lim Hnap | x start lim
                     | x start lim | x lim Hc Hlen]; simpl in *;
        try (split; [exact I|lia]); try (split; [assumption|lia]).
      - (* a task is taken off the channel *)
        destruct (rate cfg); simpl; split; (exact I || lia).
      - (* time.Now() *)
        split; lia.
      - (* results <- task *)
        split; [exact I|]. rewrite length_app. simpl. lia. }
    destruct Hw' as [Fw' Hle].
    constructor; unfold napped_tasks, chan_len; simpl; rewrite ?Hnow.
    + exact H1.
    + apply Forall_app. split; [exact F1|]. constructor; assumption.
    + rewrite !sumZ_app. simpl. lia.
Qed.

Lemma NInv_runs cfg st t0 p : runs cfg (setup cfg st t0) p -> NInv cfg t0 p.
Proof.
  induction 1 as [|q who t q' _ IH Hstep].
  - unfold setup. rewrite spawn_spec. simpl.
    destruct (fresh_workers (Z.to_nat (numWorkers cfg))) as (_ & _ & _ & _ & E5).
    simpl in E5.
    constructor; unfold napped_tasks, chan_len; simpl.
    + lia.
    + apply Forall_forall. intros w Hw. unfold paced. now rewrite (E5 w Hw).
    + assert (E : forall n, sumZ napped (replicate n (mkWorker AtEntry None)) = 0 /\
                            sumZ (busy cfg t0 t0) (replicate n (mkWorker AtEntry None)) = 0).
      { induction n as [|n [IH1 IH2]]; simpl; [auto|]. rewrite IH1, IH2. split; lia. }
      destruct (E (Z.to_nat (numWorkers cfg))) as [-> ->]. lia.
  - apply step_trans in Hstep as [Ht T].
    apply (NInv_trans cfg t0 (tick t q) q'); [|exact T].
    now apply NInv_tick.
Qed.

Lemma exited_napped ws :
  Forall (fun w => pc w = Exited) ws -> sumZ napped ws = 0.
Proof.
  induction 1 as [|w ws Hw _ IH]; simpl; [reflexivity|].
  rewrite IH. unfold napped. now rewrite Hw.
Qed.

(** X11.  A worker sleeps over one task at a time, 100 ms in [worker] and
    50 ms in [rateLimitedWorker]; so at any moment the tasks slept over, times
    the nap, are at most the number of workers times the time since the pool
    started, and a pool of [W] workers cannot complete [N] tasks in less than
    [N] naps divided among the [W] workers. *)
Theorem pool_throughput_bound cfg st t0 p0 :
  0 <= numTasks cfg < 2 ^ 62 ->
  1 <= numWorkers cfg ->
  0 <= tasksProcessed st < 2 ^ 64 ->
  Start cfg st t0 = Ok p0 ->
  forall p, runs cfg p0 p ->
    let elapsed := now (shared p) - t0 in
    napped_tasks p * nap cfg <= numWorkers cfg * elapsed /\
    (completed p -> numTasks cfg * nap cfg <= numWorkers cfg * elapsed).
Proof.
  intros HN HW Hst Hstart p Hruns elapsed.
  pose proof (Start_ok _ _ _ _ Hstart) as (_ & E0 & E0').
  pose proof (Inv_runs cfg st t0 p0 HN Hst Hstart p Hruns) as I.
  subst p0.
  pose proof (NInv_runs cfg st t0 p Hruns) as [H1 H2 H3].
  pose proof (sumZ_busy_le cfg t0 _ _ H2) as Hsum.
  assert (Hlen : Z.of_nat (length (workers p)) = numWorkers cfg).
  { rewrite (runs_workers_length _ _ _ Hruns), E0'. simpl.
    rewrite length_replicate. lia. }
  rewrite Hlen in Hsum.
  assert (HA : napped_tasks p * nap cfg <= numWorkers cfg * elapsed)
    by (unfold elapsed; lia).
  split; [exact HA|]. intros Hdone.
  destruct (completed_collected _ _ p I) as (Hc & _ & _ & _ & Hrb & Hall); auto.
  { lia. }
  assert (EA : napped_tasks p = numTasks cfg).
  { unfold napped_tasks, chan_len. rewrite (exited_napped _ Hall), Hrb.
    apply Permutation_length in Hc. unfold expected in Hc.
    rewrite length_fmap, length_seqZ in Hc. simpl in *. lia. }
  now rewrite EA in HA.
Qed.

(** The pool of section 1: three workers take at least a third of a second
    for the ten tasks. *)
Lemma pool_throughput_bound_witness :
  let p0 := setup basicPool freshStats 0 in
  let p := match run basicPool (schedule 90 basicPool p0) p0 with
           | Ok p => p | _ => p0 end in
  (0 <= numTasks basicPool < 2 ^ 62 /\ 1 <= numWorkers basicPool /\
   0 <= tasksProcessed freshStats < 2 ^ 64 /\
   Start basicPool freshStats 0 = Ok p0 /\ runs basicPool p0 p /\ completed p) /\
  10 * (100 * Millisecond) <= 3 * (now (shared p) - 0).
Proof.
  intros p0 p.
  assert (H1 : 0 <= numTasks basicPool < 2 ^ 62) by (simpl; lia).
  assert (H2 : 1 <= numWorkers basicPool) by (simpl; lia).
  assert (H3 : 0 <= tasksProcessed freshStats < 2 ^ 64) by (simpl; lia).
  assert (H4 : Start basicPool freshStats 0 = Ok p0) by reflexivity.
  assert (H5 : runs basicPool p0 p).
  { apply run_runs with (schedule 90 basicPool p0). vm_compute. reflexivity. }
  assert (H6 : completed p) by (vm_compute; reflexivity).
  split; [tauto|].
  destruct (pool_throughput_bound basicPool freshStats 0 p0 H1 H2 H3 H4 p H5)
    as [_ A].
  exact (A H6).
Defined.

(** ** The order of the results *)

Lemma run_cons cfg who t rest p p' q :
  step cfg who t p = Ok p' -> run cfg rest p' = Ok q ->
  run cfg ((who, t) :: rest) p = Ok q.
Proof. intros H1 H2. simpl. rewrite H1. exact H2. Qed.

Ltac decide_tests :=
  repeat match goal with
         | |- context [?a <? ?b] =>
             first [rewrite (proj2 (Z.ltb_lt a b)) by (unfold Millisecond; lia)
                   |rewrite (proj2 (Z.ltb_ge a b)) by (unfold Millisecond; lia)]
         | |- context [?a <=? ?b] =>
             first [rewrite (proj2 (Z.leb_le a b)) by (unfold Millisecond; lia)
                   |rewrite (proj2 (Z.leb_gt a b)) by (unfold Millisecond; lia)]
         | |- context [wrap_int ?z] =>
             rewrite (wrap_int_small z) by (unfold int_min, int_max; lia)
         end.

Ltac take_step :=
  eapply run_cons;
  [unfold step, producer_step, collector_step, run_worker, worker, loop_body,
     chan_send, chan_recv, chan_len;
   simpl; repeat (progress decide_tests; simpl); reflexivity|].

Lemma overtaking_run W N st t0 :
  2 <= W -> 2 <= N ->
  exists p, run (mkConfig W N None) (overtaking t0) (setup (mkConfig W N None) st t0) = Ok p /\
            collected p = [mkTask 2 4; mkTask 1 2].
Proof.
  intros HW HN. unfold setup. rewrite spawn_spec.
  cbn [fst snd numWorkers numTasks].
  destruct (Z.to_nat W) as [|[|n]] eqn:E; try lia.
  cbn [replicate app].
  eexists. split.
  - unfold overtaking.
    do 18 take_step. reflexivity.
  - reflexivity.
Qed.

(** What [main] has logged stays logged. *)
Lemma collected_grows cfg p q :
  runs cfg p q -> exists rest, collected q = collected p ++ rest.
Proof.
  induction 1 as [|q who t q' _ (rest & IH) Hs].
  - exists []. now rewrite app_nil_r.
  - apply step_trans in Hs as [_ T].
    assert (E : exists l, collected q' = collected q ++ l).
    { change (collected q) with (collected (tick t q)).
      destruct T as [sh i cl mn col ws Hi Hc Hlen | sh i cl mn col ws Hi Hc
                    | sh pr mn col ws Hw | sh pr mn col ws Hc
                    | sh pr cl col ws x rest' Hb | sh pr cl col ws Hb Hc
                    | sh pr cl mn col l1 w l2 sh' w' W]; simpl;
        try (exists []; now rewrite app_nil_r).
      now exists [x]. }
    destruct E as (l & E). exists (rest ++ l). rewrite E, IH. now rewrite app_assoc.
Qed.

(** X12.  With two or more workers the order of the results is not that of
    the tasks: a pool of [worker]s with at least two workers and two tasks
    has a complete execution in which [main] logs the result of task 2 before
    the result of task 1. *)
Theorem results_can_arrive_out_of_order cfg st t0 :
  rate cfg = None ->
  2 <= numWorkers cfg ->
  2 <= numTasks cfg < 2 ^ 62 ->
  0 <= tasksProcessed st < 2 ^ 64 ->
  exists p, runs cfg (setup cfg st t0) p /\ completed p /\
            exists rest, collected p = mkTask 2 4 :: mkTask 1 2 :: rest.
Proof.
  intros Hr HW HN Hst. destruct cfg as [W N r]. simpl in *. subst r.
  destruct (overtaking_run W N st t0 HW (proj1 HN)) as (q & Hq & Hc).
  apply run_runs in Hq.
  assert (HN' : 0 <= numTasks (mkConfig W N None) < 2 ^ 62) by (simpl; lia).
  assert (Hstart : Start (mkConfig W N None) st t0 = Ok (setup (mkConfig W N None) st t0)).
  { unfold Start. simpl. destruct (N <? 0) eqn:E; [lia|reflexivity]. }
  pose proof (Inv_runs _ st t0 _ HN' Hst Hstart q Hq) as Iq.
  destruct (run_to_completion _ _ HN' I q Iq) as (sched & p & Hp & Hdone).
  apply run_runs in Hp.
  exists p. split; [eapply runs_trans; eauto|]. split; [exact Hdone|].
  destruct (collected_grows _ _ _ Hp) as (rest & E).
  exists rest. now rewrite E, Hc.
Qed.

Lemma results_can_arrive_out_of_order_witness :
  (rate basicPool = None /\ 2 <= numWorkers basicPool /\
   2 <= numTasks basicPool < 2 ^ 62 /\ 0 <= tasksProcessed freshStats < 2 ^ 64) /\
  exists p, runs basicPool (setup basicPool freshStats 0) p /\ completed p /\
            exists rest, collected p = mkTask 2 4 :: mkTask 1 2 :: rest.
Proof.
  assert (H1 : rate basicPool = None) by reflexivity.
  assert (H2 : 2 <= numWorkers basicPool) by (simpl; lia).
  assert (H3 : 2 <= numTasks basicPool < 2 ^ 62) by (simpl; lia).
  assert (H4 : 0 <= tasksProcessed freshStats < 2 ^ 64) by (simpl; lia).
  split; [exact (conj H1 (conj H2 (conj H3 H4)))|].
  exact (results_can_arrive_out_of_order basicPool freshStats 0 H1 H2 H3 H4).
Defined.

(** * The counters and their wrap-around *)

Lemma wrap_int_range z : int_min <= wrap_int z <= int_max.
Proof.
  unfold wrap_int, int_min, int_max.
  pose proof (Z.mod_pos_bound (z + 2 ^ 63) (2 ^ 64) ltac:(lia)). lia.
Qed.

Lemma wrap_int_over z :
  int_max < z <= 2 * int_max + 1 -> wrap_int z = z - 2 ^ 64.
Proof.
  unfold wrap_int, int_max. intros H.
  replace (z + 2 ^ 63) with (z + 2 ^ 63 - 2 ^ 64 + 1 * 2 ^ 64) by lia.
  rewrite Z_mod_plus_full, Z.mod_small; lia.
Qed.

Lemma wrap_uint64_range z : 0 <= wrap_uint64 z < 2 ^ 64.
Proof. unfold wrap_uint64. apply Z.mod_pos_bound. lia. Qed.

(** What one step does to the statistics: nothing, [atomic.AddUint64] by the
    worker that has just processed its task, or [atomic.AddInt64] of the time
    elapsed since [start] by the worker that has counted it. *)
Lemma stats_cases cfg p p' :
  trans cfg p p' ->
  stats (shared p') = stats (shared p) \/
  (stats (shared p') = mkStats (wrap_uint64 (tasksProcessed (stats (shared p)) + 1))
                               (totalTime (stats (shared p))) /\
   counted_tasks p' = counted_tasks p + 1) \/
  (exists w x start, w ∈ workers p /\ pc w = AtAddTime x start /\
     stats (shared p') =
       mkStats (tasksProcessed (stats (shared p)))
               (wrap_int (totalTime (stats (shared p)) + since (shared p) start))).
Proof.
  intros T.
  destruct T as [sh i cl mn col ws Hi Hc Hlen | sh i cl mn col ws Hi Hc
                | sh pr mn col ws Hw | sh pr mn col ws Hc
                | sh pr cl col ws x rest Hb | sh pr cl col ws Hb Hc
                | sh pr cl mn col l1 w l2 sh' w' W];
    unfold counted_tasks, chan_len; simpl; auto.
  rewrite !sumZ_app. simpl.
  destruct W; simpl; auto.
  - right. left. split; [reflexivity|lia].
  - right. right. exists (mkWorker (AtAddTime x start) lim), x, start.
    repeat split. rewrite elem_of_app, elem_of_cons. auto.
Qed.

(** [totalTime] is an [int64] throughout. *)
Lemma total_in_range cfg st t0 p :
  int_min <= totalTime st <= int_max ->
  runs cfg (setup cfg st t0) p ->
  int_min <= totalTime (stats (shared p)) <= int_max.
Proof.
  intros Hst. induction 1 as [|q who t q' _ IH Hs].
  - unfold setup. rewrite spawn_spec. exact Hst.
  - apply step_trans in Hs as [_ T].
    destruct (total_time_trans _ _ _ T) as [[-> _]|(w & x & start & _ & _ & -> & _)].
    + exact IH.
    + apply wrap_int_range.
Qed.

Lemma setup_now cfg st t0 : now (shared (setup cfg st t0)) = t0.
Proof. unfold setup. rewrite spawn_spec. reflexivity. Qed.

(** No worker has read its [start] before the pool was set up. *)
Lemma start_after_runs cfg st t0 p :
  runs cfg (setup cfg st t0) p ->
  Forall (fun w => forall s, start_of w = Some s -> t0 <= s) (workers p).
Proof.
  intros Hruns. pose proof (runs_now_le _ _ _ Hruns) as Hnow.
  rewrite setup_now in Hnow. revert Hnow.
  induction Hruns as [|q who t q' Hq IH Hs]; intros Hnow.
  - unfold setup. rewrite spawn_spec. simpl.
    apply Forall_forall. intros w Hw s. apply elem_of_replicate in Hw as [-> _].
    discriminate.
  - pose proof (runs_now_le _ _ _ Hq) as Hq0.
    rewrite setup_now in Hq0.
    specialize (IH Hq0).
    apply step_trans in Hs as [Ht T].
    change (workers q) with (workers (tick t q)) in IH.
    assert (Ht0 : t0 <= now (shared (tick t q))) by (simpl; lia).
    revert IH Ht0 T. generalize (tick t q). intros q0 IH Ht0 T.
    destruct T as [sh i cl mn col ws Hi Hc Hlen | sh i cl mn col ws Hi Hc
                  | sh pr mn col ws Hw | sh pr mn col ws Hc
                  | sh pr cl col ws x rest Hb | sh pr cl col ws Hb Hc
                  | sh pr cl mn col l1 w l2 sh' w' W]; simpl in *; auto.
    apply Forall_app in IH as [F1 F2]. apply Forall_cons in F2 as [Fw F2].
    apply Forall_app. split; [exact F1|]. constructor; [|exact F2].
    destruct W; simpl in *; try discriminate; auto.
    + destruct (rate cfg); simpl; discriminate.
    + intros s [= <-]. exact Ht0.
Qed.

(** Below a horizon [H] up to which [numTasks] elapsed times fit an [int64],
    [totalTime] neither wraps around nor turns negative. *)
Lemma total_time_below_horizon cfg st t0 p0 H :
  0 <= numTasks cfg < 2 ^ 62 ->
  0 <= tasksProcessed st < 2 ^ 64 ->
  0 <= totalTime st ->
  totalTime st + numTasks cfg * (H - t0) <= int_max ->
  Start cfg st t0 = Ok p0 ->
  forall p who t p', runs cfg p0 p -> step cfg who t p = Ok p' -> t <= H ->
    0 <= totalTime (stats (shared p)) <= totalTime (stats (shared p')).
Proof.
  intros HN Hst Htt Hfits Hstart p who t p' Hruns Hstep HtH.
  assert (Hruns' : runs cfg p0 p') by (eapply runs_step; eauto).
  pose proof (TInv_runs cfg st t0 H p0 HN Hst Htt Hfits Hstart p Hruns) as Tp.
  pose proof (TInv_runs cfg st t0 H p0 HN Hst Htt Hfits Hstart p' Hruns') as Tp'.
  pose proof (step_now _ _ _ _ _ Hstep) as Hnow'.
  apply step_trans in Hstep as [Hnow T].
  pose proof (tinv_total _ _ _ _ Tp ltac:(lia)) as Htot.
  pose proof (tinv_total _ _ _ _ Tp' ltac:(lia)) as Htot'.
  apply stats_trans in T. simpl in T.
  destruct T as [(Es & _ & _) | [(Es & Ek) | (w & start & Hw & Hs & Es & Ek)]].
  - rewrite Es. lia.
  - rewrite Es. simpl. lia.
  - pose proof (tinv_start _ _ _ _ Tp) as Hst'.
    rewrite Forall_forall in Hst'. specialize (Hst' w Hw start Hs).
    rewrite Es. simpl. unfold since. simpl.
    pose proof (saturate_nonneg (t - start) ltac:(lia)) as Hsat.
    rewrite Es in Htot'. simpl in Htot'. unfold since in Htot'. simpl in Htot'.
    assert (E1 : wrap_int (totalTime (stats (shared p)) + saturate (t - start))
                 = totalTime (stats (shared p)) + saturate (t - start)).
    { apply wrap_int_small. unfold int_min. split; [lia|].
      change (timed_tasks (tick t p)) with (timed_tasks p) in Ek.
      pose proof (Inv_runs cfg st t0 p0 HN Hst Hstart p' Hruns') as Ip'.
      pose proof (counted_tasks_le cfg _ p' (proj1 HN) Ip') as Hk'.
      pose proof (tinv_now _ _ _ _ Tp) as Ht0. nia. }
    rewrite E1. lia.
Qed.

(** C7, as amended.  Every update of the statistics is an atomic addition of
    a positive amount in 64-bit arithmetic: a step of a pool leaves both
    counters unchanged, or replaces [tasksProcessed] by
    [(tasksProcessed + 1) mod 2^64], or replaces [totalTime] by
    [totalTime + d] wrapped to an [int64], where [d], the elapsed time of the
    task, is at least the nap of the worker and at most the time since the
    pool was set up.  So [tasksProcessed] grows by exactly 1 unless it is
    2^64 - 1, which cannot happen when the initial count plus [numTasks] is
    below 2^64; and [totalTime] grows by [d] and stays non-negative if it was
    unless [totalTime + d] exceeds the largest [int64], in which case it drops
    by [2^64 - d]; this does not happen while [totalTime] plus the time since
    the pool was set up fits an [int64], nor up to any clock reading [H] for
    which [numTasks] times [H - t0] fits on top of a non-negative initial
    total. *)
Theorem stats_never_decrease cfg st t0 p0 :
  0 <= numTasks cfg < 2 ^ 62 ->
  0 <= tasksProcessed st < 2 ^ 64 ->
  int_min <= totalTime st <= int_max ->
  Start cfg st t0 = Ok p0 ->
  forall p who t p', runs cfg p0 p -> step cfg who t p = Ok p' ->
    let s := stats (shared p) in
    let s' := stats (shared p') in
    0 <= tasksProcessed s < 2 ^ 64 /\ int_min <= totalTime s <= int_max /\
    (s' = s \/
     (totalTime s' = totalTime s /\
      tasksProcessed s' = wrap_uint64 (tasksProcessed s + 1) /\
      (tasksProcessed s < 2 ^ 64 - 1 -> tasksProcessed s' = tasksProcessed s + 1) /\
      (tasksProcessed s = 2 ^ 64 - 1 -> tasksProcessed s' = 0) /\
      (tasksProcessed st + numTasks cfg < 2 ^ 64 ->
         tasksProcessed s' = tasksProcessed s + 1)) \/
     (exists d,
        tasksProcessed s' = tasksProcessed s /\
        nap cfg <= d <= int_max /\ d <= t - t0 /\
        totalTime s' = wrap_int (totalTime s + d) /\
        (totalTime s + d <= int_max -> totalTime s' = totalTime s + d) /\
        (int_max < totalTime s + d -> totalTime s' = totalTime s + d - 2 ^ 64))) /\
    (tasksProcessed s < 2 ^ 64 - 1 -> tasksProcessed s <= tasksProcessed s') /\
    (tasksProcessed st + numTasks cfg < 2 ^ 64 ->
       tasksProcessed s <= tasksProcessed s') /\
    (totalTime s + (t - t0) <= int_max ->
       totalTime s <= totalTime s' /\ (0 <= totalTime s -> 0 <= totalTime s')) /\
    (forall H, 0 <= totalTime st ->
       totalTime st + numTasks cfg * (H - t0) <= int_max -> t <= H ->
       0 <= totalTime s <= totalTime s').
Proof.
  intros HN Hst Htt Hstart p who t p' Hruns Hstep.
  pose proof (Start_ok _ _ _ _ Hstart) as (_ & E0 & _).
  assert (Hruns' : runs cfg p0 p') by (eapply runs_step; eauto).
  pose proof (Inv_runs cfg st t0 p0 HN Hst Hstart p Hruns) as Ip.
  pose proof (Inv_runs cfg st t0 p0 HN Hst Hstart p' Hruns') as Ip'.
  pose proof (counted_tasks_le cfg _ p (proj1 HN) Ip) as Hk.
  pose proof (counted_tasks_le cfg _ p' (proj1 HN) Ip') as Hk'.
  pose proof (inv_count _ _ _ Ip) as Ec.
  assert (Hhor : forall H, 0 <= totalTime st ->
            totalTime st + numTasks cfg * (H - t0) <= int_max -> t <= H ->
            0 <= totalTime (stats (shared p)) <= totalTime (stats (shared p'))).
  { intros H H0 Hfits HtH.
    exact (total_time_below_horizon cfg st t0 p0 H HN Hst H0 Hfits Hstart
             p who t p' Hruns Hstep HtH). }
  subst p0.
  pose proof (total_in_range cfg st t0 p Htt Hruns) as Hrange.
  pose proof (slept_runs cfg st t0 p Hruns) as Sp.
  pose proof (start_after_runs cfg st t0 p Hruns) as Ap.
  assert (Hcr : 0 <= tasksProcessed (stats (shared p)) < 2 ^ 64).
  { rewrite Ec. apply wrap_uint64_range. }
  apply step_trans in Hstep as [Hnow T].
  apply (slept_tick cfg t p Hnow) in Sp.
  apply stats_cases in T. simpl in T.
  change (counted_tasks (tick t p)) with (counted_tasks p) in T.
  intros s s'. subst s s'.
  split; [exact Hcr|]. split; [exact Hrange|].
  destruct T as [Es | [(Es & Ek) | (w & x & start & Hw & Hpc & Es)]].
  - split; [now left|]. rewrite Es.
    split; [intros _; lia|]. split; [intros _; lia|].
    split; [intros _; split; [lia|auto]|].
    intros H H0 H1 H2. specialize (Hhor H H0 H1 H2). rewrite Es in Hhor. exact Hhor.
  - rewrite Es. simpl.
    assert (Hsmall : tasksProcessed (stats (shared p)) < 2 ^ 64 - 1 ->
              wrap_uint64 (tasksProcessed (stats (shared p)) + 1)
              = tasksProcessed (stats (shared p)) + 1).
    { intros H. apply wrap_uint64_small. lia. }
    assert (Hfit : tasksProcessed st + numTasks cfg < 2 ^ 64 ->
              tasksProcessed (stats (shared p)) < 2 ^ 64 - 1).
    { intros H. unfold counted_tasks in *. rewrite Ec.
      rewrite wrap_uint64_small by lia. lia. }
    split.
    { right. left. split; [reflexivity|]. split; [reflexivity|].
      split; [exact Hsmall|]. split.
      - intros ->. reflexivity.
      - intros H. apply Hsmall, Hfit, H. }
    split. { intros H. rewrite (Hsmall H). lia. }
    split. { intros H. rewrite (Hsmall (Hfit H)). lia. }
    split; [intros _; lia|].
    intros H H0 H1 H2. specialize (Hhor H H0 H1 H2). rewrite Es in Hhor. exact Hhor.
  - rewrite Es. simpl. unfold since. simpl.
    unfold slept in Sp. rewrite Forall_forall in Sp. specialize (Sp w Hw).
    rewrite Hpc in Sp. simpl in Sp.
    rewrite Forall_forall in Ap.
    assert (Hs0 : start_of w = Some start) by (unfold start_of; now rewrite Hpc).
    specialize (Ap w Hw start Hs0).
    assert (Hnap : 0 < nap cfg <= 100 * Millisecond).
    { unfold nap, Millisecond. destruct (rate cfg); lia. }
    set (d := saturate (t - start)).
    assert (Hd : nap cfg <= d <= int_max /\ d <= t - t0).
    { unfold d, saturate, int_min, int_max, Millisecond in *. lia. }
    assert (Hok : totalTime (stats (shared p)) + d <= int_max ->
              wrap_int (totalTime (stats (shared p)) + d)
              = totalTime (stats (shared p)) + d).
    { intros H. apply wrap_int_small. lia. }
    assert (Hover : int_max < totalTime (stats (shared p)) + d ->
              wrap_int (totalTime (stats (shared p)) + d)
              = totalTime (stats (shared p)) + d - 2 ^ 64).
    { intros H. apply wrap_int_over. lia. }
    split.
    { right. right. exists d. repeat split; try tauto; try lia. }
    split; [intros _; lia|]. split; [intros _; lia|].
    split.
    { intros H. rewrite Hok by lia. lia. }
    intros H H0 H1 H2. specialize (Hhor H H0 H1 H2).
    rewrite Es in Hhor. simpl in Hhor. unfold since in Hhor. simpl in Hhor.
    exact Hhor.
Qed.

(** A worker of the basic pool adds the elapsed time of its first task: the
    total goes from 0 to 100 ms. *)
Lemma stats_never_decrease_witness :
  let p0 := setup basicPool freshStats 0 in
  let sched := schedule 90 basicPool p0 in
  let p := match run basicPool (take 8 sched) p0 with Ok p => p | _ => p0 end in
  let p' := match step basicPool (AWorker 0) (100 * Millisecond) p with
            | Ok p' => p' | _ => p0 end in
  (0 <= numTasks basicPool < 2 ^ 62 /\ 0 <= tasksProcessed freshStats < 2 ^ 64 /\
   int_min <= totalTime freshStats <= int_max /\
   Start basicPool freshStats 0 = Ok p0 /\ runs basicPool p0 p /\
   step basicPool (AWorker 0) (100 * Millisecond) p = Ok p' /\
   totalTime (stats (shared p)) + (100 * Millisecond - 0) <= int_max) /\
  totalTime (stats (shared p)) = 0 /\
  totalTime (stats (shared p')) = 100 * Millisecond /\
  totalTime (stats (shared p)) <= totalTime (stats (shared p')).
Proof.
  intros p0 sched p p'.
  assert (H1 : 0 <= numTasks basicPool < 2 ^ 62) by (simpl; lia).
  assert (H2 : 0 <= tasksProcessed freshStats < 2 ^ 64) by (simpl; lia).
  assert (H3 : int_min <= totalTime freshStats <= int_max)
    by (split; vm_compute; discriminate).
  assert (H4 : Start basicPool freshStats 0 = Ok p0) by reflexivity.
  assert (H5 : runs basicPool p0 p).
  { apply run_runs with (take 8 sched). vm_compute. reflexivity. }
  assert (H6 : step basicPool (AWorker 0) (100 * Millisecond) p = Ok p')
    by (vm_compute; reflexivity).
  assert (H7 : totalTime (stats (shared p)) + (100 * Millisecond - 0) <= int_max)
    by (vm_compute; discriminate).
  split; [exact (conj H1 (conj H2 (conj H3 (conj H4 (conj H5 (conj H6 H7))))))|].
  split; [vm_compute; reflexivity|]. split; [vm_compute; reflexivity|].
  destruct (stats_never_decrease basicPool freshStats 0 p0 H1 H2 H3 H4
              p (AWorker 0) (100 * Millisecond) p' H5 H6)
    as (_ & _ & _ & _ & _ & A & _).
  destruct (A H7) as [B _]. exact B.
Defined.

(** C7 as stated fails: the counters are 64-bit and wrap around.  In a pool
    of two workers and two tasks on fresh statistics, both workers read
    [start] at clock reading 0 and come back from [time.Sleep] at the clock
    reading 2^63 - 1; the first adds the elapsed 2^63 - 1 ns, and the
    addition of the second takes [totalTime] from 2^63 - 1 down to -2.  And a
    pool started on statistics whose count is 2^64 - 1 takes
    [tasksProcessed] down to 0 with its first task. *)
Lemma stats_wrap_around :
  (let cfg := mkConfig 2 2 None in
   let late := int_max in
   let sched :=
     [(AWorker 0, 0); (AWorker 1, 0); (AProducer, 0); (AProducer, 0);
      (AWorker 0, 0); (AWorker 1, 0); (AWorker 0, 0); (AWorker 1, 0);
      (AWorker 0, late); (AWorker 0, late); (AWorker 0, late);
      (AWorker 1, late); (AWorker 1, late)] in
   exists p p',
     run cfg sched (setup cfg freshStats 0) = Ok p /\
     step cfg (AWorker 1) late p = Ok p' /\
     totalTime (stats (shared p)) = int_max /\
     totalTime (stats (shared p')) = -2) /\
  (let cfg := mkConfig 1 1 None in
   let st := mkStats (2 ^ 64 - 1) 0 in
   let sched :=
     [(AWorker 0, 0); (AProducer, 0); (AWorker 0, 0); (AWorker 0, 0);
      (AWorker 0, 100 * Millisecond)] in
   exists p p',
     run cfg sched (setup cfg st 0) = Ok p /\
     step cfg (AWorker 0) (100 * Millisecond) p = Ok p' /\
     tasksProcessed (stats (shared p)) = 2 ^ 64 - 1 /\
     tasksProcessed (stats (shared p')) = 0).
Proof.
  split.
  - intros cfg late sched.
    set (p := match run cfg sched (setup cfg freshStats 0) with
              | Ok p => p | _ => setup cfg freshStats 0 end).
    set (p' := match step cfg (AWorker 1) late p with
               | Ok p' => p' | _ => p end).
    exists p, p'.
    split; [vm_compute; reflexivity|]. split; [vm_compute; reflexivity|].
    split; vm_compute; reflexivity.
  - intros cfg st sched.
    set (p := match run cfg sched (setup cfg st 0) with
              | Ok p => p | _ => setup cfg st 0 end).
    set (p' := match step cfg (AWorker 0) (100 * Millisecond) p with
               | Ok p' => p' | _ => p end).
    exists p, p'.
    split; [vm_compute; reflexivity|]. split; [vm_compute; reflexivity|].
    split; vm_compute; reflexivity.
Qed.
